(* ===== verification/_CoqProject ===== *)
-Q . S2P
Prelude.v
CatalogSourceTypes.v
Conditions.v
Address.v
Subscription.v
Reconciler.v
Wait.v
E2E.v
Registry.v
Resolver.v
Install.v
Scenarios.v
