(* ===== verification/Prelude.v ===== *)
(** * Verification of the operator-lifecycle-manager catalog/subscription API core

    ** The program

    The repository slice under [src/] is the API layer of the Operator
    Lifecycle Manager's catalog operator, plus two end-to-end test files:

    - [src/pkg/api/apis/operators/v1alpha1/catalogsource_types.go]: the
      [CatalogSource] object, its spec and status, the typed status
      conditions with their merge routine [SetCondition], the constructors
      [CatalogSourceConditionFailed] and [CatalogSourceConditionMet], and the
      two [Address] methods that compute a catalog's registry endpoint.
    - [src/pkg/api/apis/subscription/v1alpha1/types.go]: the [Subscription]
      object, its four derived states and [GetInstallPlanApproval].
    - [src/test/e2e/packagemanifest_e2e_test.go] and
      [src/test/e2e/catalog_e2e_test.go]: polling helpers
      ([fetchPackageManifest], [packageManifestHasStatus],
      [getOperatorDeployment], [rescaleDeployment]), the five scenarios
      that drive a live cluster and an empty Ginkgo suite.

    The reconcilers, the dependency resolver, the package server and the
    work queue that the specification describes are not part of [src/];
    where the development models them (the catalog reconciler, the
    subscription state machine and the resolver) it does so from the
    specification and says so.  The scenarios are the place where the parts meet: they
    publish packages in a catalog, wait for the reconciler to record it,
    read the package server, subscribe, and wait for the resolver's plan to
    be installed.

    ** Layout (one file per component, in dependency order)

    - [Prelude] (this file): the Go run-time conventions every component
      shares.  A Go call that can dereference a nil pointer is a value of
      [outcome] ([Returns a] or [Panics p]) with stdpp's monadic notation;
      [deref] is the dereference of a pointer modelled as an [option].
      [Time] is [metav1.Time] as an integer clock reading.  Section [keyed]
      holds the lemmas on lists searched by a merge key (first match wins),
      which is how Go code in this repository treats slices of named
      records; [to_map_by] is the finite map such a list denotes.  Section
      [lex] is the lexicographic order of pairs with its instances.  The
      rewrite database [olm_rw] collects the field equations of the
      records.
    - [CatalogSourceTypes]: the data of catalogsource_types.go, struct by
      struct and constant by constant ([CatalogSourceSpec],
      [RegistryServiceStatus], [CatalogSourceCondition],
      [ConfigMapResourceReference], [CatalogSourceStatus], [CatalogSource],
      [CatalogSourceList], [SourceType] and the condition types and
      reasons), with the field assignments [SetCondition] performs as
      setters and decidable equality on every record.
    - [Conditions]: the Condition Store.  [SetCondition] is the method of
      lines 102-120; its [range] loop is [setConditionLoop] and the status
      comparison of lines 112-114 is [keepTransitionTime].
      [CatalogSourceConditionFailed] takes the error as an option and panics
      on nil, as [err.Error()] does.  Theorems: [SetCondition] refines the
      abstract store [spec_set], a [gmap] keyed by condition type
      ([SetCondition_refines]); the timestamps on each of the three branches
      (absent, same status, changed status); lookup after set; in-place
      overwrite with its frame; the merge-key and timestamp invariants;
      re-application keeps the transition time; over any sequence of calls
      ([applyCalls]) the slice grows by the number of distinct new types,
      the last call for a type wins ([lastCall]), and the transition time
      shown for a type never goes back as long as the clock readings do
      not ([clocksFrom]).
    - [Address]: [RegistryServiceStatus_Address] and [CatalogSource_Address]
      (lines 75-77 and 163-168), the second with its nil dereference.
      [Resolve] is the Catalog Address Resolver of the specification
      (section 4.2), written from the specification because no resolver is
      under [src/], and [reasonOf] names the reason constant of the source
      under which a failure of it is reported.  Theorems: exactly when
      [CatalogSource_Address] panics; when it agrees with [Resolve] and the
      case where it does not (image and address both set); injectivity of
      the service address on DNS labels.
    - [Subscription]: the records and constants of subscription types.go
      and [GetInstallPlanApproval] (lines 70-76) with its nil-spec path.
      [computeState] and [syncSubscription] are the Subscription State
      Machine of the specification (section 4.4) over the source's state
      constants; they are written from the specification, and what is
      proved of them is proved in [Install], where they meet the resolver.
      Theorems: the approval is normalised to one of two modes, and the
      method panics exactly on a subscription without a spec.
    - [Reconciler]: the Catalog Health Reconciler of the specification
      (section 4.3), written from the specification on top of the source's
      [SetCondition] and condition constructors.  [syncCatalog] is one
      pass: it starts from the object's status, or from an empty one when
      the object replaces the one recorded ([detectReplaced]), records the
      registry service, resolves the endpoint and enters [markFailed] or
      [markHealthy].  [step] is the transition relation of one key (a pass,
      a change of spec, a replacement that may carry the old status) and
      [key_inv] its invariant.  Theorems: the invariant holds in every
      reachable state; a replacement carries no status over; what a healthy
      and what a failed pass write; a pass is idempotent.
    - [Wait]: bounded polling.  [Poll] is [wait.Poll] as a loop over the
      number of evaluations that fit in the poll duration; [pollState] and
      [pollVerdict] are the trace of a run.  Lemmas: [Poll] stops at the
      first decisive evaluation, times out when there is none, and every run
      is one of the two.  The library is not under [src/]; it may evaluate
      the condition once more when the duration expires, and the lemmas
      and the theorems that use them hold for every bound.
    - [E2E]: the helpers of [src/test/e2e].  [fetchPackageManifest] with its
      closure [fetchCondition] and the captured variables [fetchVars];
      [getOperatorDeployment]; [rescaleDeployment] with [waitForScaleup]
      and the guarded update [updateOrFail].  The clients are the classes
      [PackageManifestClient] and [ClientInterface]; the theorems are proved
      for every instance, and [SimCluster] and [SimPackages] are instances
      on which their hypotheses hold.  A panic of the closure
      [waitForScaleup], which reads the replica count of the deployment
      [GetDeployment] returned without a nil check, ends the poll
      ([pollScaleup]).  Theorems: soundness, availability,
      hard error and timeout of [fetchPackageManifest]; the
      single-deployment rule; liveness, postcondition, early failures and
      the timeout of the scale-down of [rescaleDeployment].
    - [Registry]: what the scenarios publish.  The package manifests,
      cluster service versions and resource definitions of
      catalog_e2e_test.go (lines 29-45, 105-146, 164-182) and of
      packagemanifest_e2e_test.go (lines 102-137) are functions of the names
      [genName] draws; [CatalogContent] is the three keys of a catalog's
      config map, holding the values and not their YAML.  The types of the
      registry and API packages are not under [src/]: the records have the
      fields the literals of the tests set.  The file holds data only; the
      resolver and the scenarios are run on it.
    - [Resolver]: the Dependency Resolver of the specification
      (section 4.5), written from the specification.  [ResolvePlan] is
      [Resolve], composed of its steps: [visibleCatalogs] (local catalogs
      shadow global ones of the same name), [rootEntry], the walk [closure]
      over required capabilities, [findConflict], and [topoOrder], which
      sorts the entries by package name and version ([entry_le]) and then
      emits, round after round, the first entry whose requirements are
      owned by what was emitted ([schedule]).  Theorems: a returned plan is
      topological, free of cycles and conflicts, within the visible
      catalogs and contains the root; every error is justified; [topoOrder]
      succeeds exactly on the sets that have an order; the order does not
      depend on the order of discovery.
    - [Install]: the state machine and the resolver composed.
      [reconcileSubscription] reads the channel head from the visible
      catalogs, derives the state, and has [ResolvePlan] generate the plan
      when [syncSubscription] asks; [executePlan] is the plan-execution
      collaborator.  Theorem: the upgrade row of the transition table, from
      upgrade-available through the approved plan to at-latest, and the
      failure case.
    - [Scenarios]: the test functions as programs.  [Test W A] is a state
      monad over the cluster [W] whose runs go on ([Continue]), stop at a
      failed assertion ([FailNow] with the line of the [require]) or panic;
      [deferred] runs a deferred call whatever the outcome and [forEach] is
      a [range] loop.  The helpers of the suite whose code is not under
      [src/] are the operations of the class [Harness]; the polls for a
      catalog, a subscription and a cluster service version are
      [fetchObject].  Each test function is one definition, statement by
      statement, with the line of every assertion; the Ginkgo suite is the
      tree of its nodes.  The lemmas on runs ([bind_FailNow],
      [require_Continue] and the like) and the tactics [test_stopped] and
      [tests_ok] take a run apart.  Theorems: where
      [TestPackageManifestLoading] can stop and which of its assertions
      cannot fail; where [TestCatalogLoadingBetweenRestarts] and the two
      rollout tests can stop, and that they panic only on a nil answer of
      a client or, for the update test, on a fetched catalog whose status
      has no config map reference ([rolloutPanic]); the outcome of the
      loop over the pods of the default catalog.

    ** Conventions

    Go [string]-typed enumerations ([SourceType], [ConditionStatus], the
    condition types and reasons, [SubscriptionState], [Approval]) are Rocq
    [string]s with the source's constants, because the Go types are open:
    any string inhabits them, and the code's behaviour on unlisted values is
    part of what is proved.  A Go slice is a [list]; indexed assignment is
    stdpp's [<[i:=x]>] and is only used at indices the loop has just read, so
    the out-of-range case cannot arise.  A pointer is an [option].  Record
    fields carry the Go field name after a short prefix naming the struct,
    since Rocq field names are global and [Type] is reserved.  A method that
    mutates its receiver returns the receiver's new value; a closure that
    assigns captured variables is a function on a state that holds them.

    ** Bounds

    [Poll] is bounded by the number of evaluations of the condition,
    [pollAttempts] = [pollDuration] / [pollInterval] = 300 for the suite's
    one-second interval and five-minute duration, and
    [packageServerAttempts] = 60 for the one-minute wait of
    [TestPackageManifestLoading].  Running out of it is the timeout the
    source reports ([ErrWaitTimeout]), so no theorem is conditional on the
    fuel being enough: the liveness theorems state the number of
    evaluations a run takes, and the timeout theorem what is returned when
    the bound is reached.  The walk [closure] of the resolver takes the
    number of entries of the visible catalogs as fuel; every round with work
    left adds an entry that was not there, so the fuel is enough
    ([closure_fuel]) and the internal error that stands for its exhaustion
    is never returned ([ResolvePlan_error]).  [schedule] takes one round per
    entry and reports a cycle when a round finds no entry ready, which
    happens exactly when no order exists ([topoOrder_is_Some]).  Every other
    definition is structurally recursive or not recursive.

    ** What is not modelled

    JSON tags and (de)serialisation, the generated deep-copy and client
    code, [TypeMeta]/[ObjectMeta] beyond kind, API version, name, namespace,
    UID and resource version, logging ([t.Log], [fmt.Println]), the text
    of a failed assertion beyond its line and message, and the wall clock:
    every operation that reads the clock takes the reading as an argument.
    Sharing of one condition slice between two status values (Go slices
    alias their backing array) is not modelled: [SetCondition] is a
    function of the status it is called on.  The YAML of a config map's
    data is not modelled.  The helpers of the suite that are not under
    [src/] ([createInternalCatalogSource], [createSubscriptionForCatalog]
    and the client calls) are operations of [Harness] with no
    implementation: the theorems on the scenarios hold for every cluster
    behind the interfaces, and no cluster that runs the reconciler and the
    resolver of this development behind [Harness] is built.  The package
    server has no code under [src/] and is not modelled.  The comparison
    of two [metav1.Time] values with [!=] (line 189 of catalog_e2e_test.go)
    compares structs, location pointer included; here it compares the
    clock readings.  Replica counts are unbounded integers: the code only
    compares them with 0 and 1.
    The Reconciliation Scheduler of the specification (section 4.6) has no
    code under [src/] and is not modelled; of the Catalog Health Reconciler
    the pass and the events of one key are modelled, its probing of the
    endpoint and its retry timing are inputs of the pass; of the resolver,
    the failures of the catalog transport are not modelled.  *)

From stdpp Require Import base tactics option list strings gmap.

Declare Scope olm_scope.
Delimit Scope olm_scope with olm.
#[local] Open Scope string_scope.
#[local] Open Scope list_scope.

(** ** Go run-time outcomes *)

Inductive GoPanic : Type :=
| NilPointerDereference
| IndexOutOfRange.

Inductive outcome (A : Type) : Type :=
| Returns (a : A)
| Panics (p : GoPanic).

Arguments Returns {A} a.
Arguments Panics {A} p.

#[export] Instance GoPanic_eq_dec : EqDecision GoPanic.
Proof. solve_decision. Defined.

#[export] Instance outcome_eq_dec `{EqDecision A} : EqDecision (outcome A).
Proof. solve_decision. Defined.

#[export] Instance outcome_ret : MRet outcome := @Returns.

#[export] Instance outcome_bind : MBind outcome := λ A B f m,
  match m with
  | Returns a => f a
  | Panics p => Panics p
  end.

#[export] Instance outcome_fmap : FMap outcome := λ A B f m,
  match m with
  | Returns a => Returns (f a)
  | Panics p => Panics p
  end.

(** [deref p] is [*p] for a pointer modelled as an option. *)
Definition deref {A : Type} (p : option A) : outcome A :=
  match p with
  | Some a => Returns a
  | None => Panics NilPointerDereference
  end.

Definition returns {A : Type} (m : outcome A) : Prop :=
  match m with
  | Returns _ => True
  | Panics _ => False
  end.

#[export] Instance returns_dec {A : Type} (m : outcome A) : Decision (returns m).
Proof. destruct m; simpl; apply _. Defined.

(** ** Time *)

(** [metav1.Time] as an integer clock reading; [time_After t u] is
    [t.After(u)]. *)
Definition Time : Type := Z.
Bind Scope Z_scope with Time.

Definition time_After (t u : Time) : bool := bool_decide (u < t)%Z.

(** The zero value of [metav1.Time], which a struct literal leaves in a time
    field it does not set. *)
Definition zeroTime : Time := 0%Z.

(** ** Lists searched by a merge key *)

Section keyed.
Context {A K : Type} `{Countable K} (key : A → K).

(** First element whose key is [k], with its index. *)
Definition find_key (k : K) (l : list A) : option (nat * A) :=
  list_find (λ a, key a = k) l.

Definition lookup_key (k : K) (l : list A) : option A :=
  snd <$> find_key k l.

(** The finite map a keyed list denotes: the first entry of a key shadows
    later ones. *)
Definition to_map_by (l : list A) : gmap K A :=
  list_to_map ((λ a, (key a, a)) <$> l).

Lemma find_key_nil k : find_key k [] = None.
Proof. reflexivity. Qed.

Lemma find_key_cons_eq k a l : key a = k → find_key k (a :: l) = Some (0, a).
Proof. intros Hk. unfold find_key. simpl. by rewrite decide_True. Qed.

Lemma find_key_cons_ne k a l :
  key a ≠ k → find_key k (a :: l) = prod_map S id <$> find_key k l.
Proof. intros Hk. unfold find_key. simpl. by rewrite decide_False. Qed.

Lemma lookup_key_cons_eq k a l : key a = k → lookup_key k (a :: l) = Some a.
Proof. intros Hk. unfold lookup_key. by rewrite find_key_cons_eq. Qed.

Lemma lookup_key_cons_ne k a l :
  key a ≠ k → lookup_key k (a :: l) = lookup_key k l.
Proof.
  intros Hk. unfold lookup_key. rewrite find_key_cons_ne by done.
  by destruct (find_key k l) as [[i x]|].
Qed.

Lemma lookup_key_Some_key k a l : lookup_key k l = Some a → key a = k.
Proof.
  unfold lookup_key, find_key.
  destruct (list_find _ l) as [[i x]|] eqn:E; [|done].
  intros [= ->]. by apply list_find_Some in E as (_ & ? & _).
Qed.

Lemma lookup_key_Some_elem_of k a l : lookup_key k l = Some a → a ∈ l.
Proof.
  unfold lookup_key, find_key.
  destruct (list_find _ l) as [[i x]|] eqn:E; [|done].
  intros [= ->]. apply list_find_Some in E as (E & _).
  by eapply list_elem_of_lookup_2.
Qed.

Lemma lookup_key_None k l : lookup_key k l = None ↔ k ∉ key <$> l.
Proof.
  induction l as [|a l IH]; [split; [intros _; apply not_elem_of_nil|done]|].
  rewrite fmap_cons, not_elem_of_cons.
  destruct (decide (key a = k)) as [Heq|Hne].
  - rewrite lookup_key_cons_eq by done. split; [done|]. by intros [? _].
  - rewrite lookup_key_cons_ne, IH by done. split; [|by intros [_ ?]].
    intros ?. split; [congruence|done].
Qed.

Lemma to_map_by_nil : to_map_by [] = ∅.
Proof. reflexivity. Qed.

Lemma to_map_by_cons a l : to_map_by (a :: l) = <[key a := a]> (to_map_by l).
Proof. reflexivity. Qed.

(** The map a list denotes is read with [lookup_key]. *)
Lemma lookup_to_map_by k l : to_map_by l !! k = lookup_key k l.
Proof.
  induction l as [|a l IH]; [done|].
  rewrite to_map_by_cons. destruct (decide (key a = k)) as [<-|Hne].
  - by rewrite lookup_insert_eq, lookup_key_cons_eq.
  - by rewrite lookup_insert_ne, lookup_key_cons_ne.
Qed.

Lemma lookup_key_app k l1 l2 :
  lookup_key k (l1 ++ l2) = from_option Some (lookup_key k l2) (lookup_key k l1).
Proof.
  induction l1 as [|a l1 IH]; [done|]. simpl.
  destruct (decide (key a = k)).
  - by rewrite !lookup_key_cons_eq.
  - by rewrite !lookup_key_cons_ne.
Qed.

Lemma to_map_by_snoc_fresh a l :
  lookup_key (key a) l = None → to_map_by (l ++ [a]) = <[key a := a]> (to_map_by l).
Proof.
  intros Hfresh. apply map_eq. intros k.
  rewrite lookup_to_map_by, lookup_key_app.
  destruct (decide (key a = k)) as [<-|Hne].
  - by rewrite lookup_insert_eq, Hfresh, lookup_key_cons_eq.
  - rewrite lookup_insert_ne, lookup_to_map_by, lookup_key_cons_ne by done.
    by destruct (lookup_key k l).
Qed.

Lemma find_key_Some k l i a :
  find_key k l = Some (i, a) → l !! i = Some a ∧ key a = k.
Proof. intros (? & ? & _)%list_find_Some. done. Qed.

Lemma find_key_lookup_key k l i a : find_key k l = Some (i, a) → lookup_key k l = Some a.
Proof. unfold lookup_key. by intros ->. Qed.

Lemma find_key_None k l : find_key k l = None ↔ lookup_key k l = None.
Proof. unfold lookup_key. by destruct (find_key k l). Qed.

Lemma lookup_key_find_key k l a :
  lookup_key k l = Some a → ∃ i, find_key k l = Some (i, a).
Proof.
  unfold lookup_key. destruct (find_key k l) as [[i b]|]; [|done].
  intros [= ->]. by exists i.
Qed.

(** Overwriting the first entry of key [k] by an entry of the same key:
    the keys are unchanged, and only the binding of [k] changes. *)
Lemma keys_insert_find k l i a x :
  find_key k l = Some (i, a) → key x = k → key <$> <[i:=x]> l = key <$> l.
Proof.
  intros [Hi Ha]%find_key_Some Hx. rewrite list_fmap_insert.
  apply list_insert_id. rewrite list_lookup_fmap, Hi. simpl. congruence.
Qed.

Lemma lookup_key_insert_find k k' l i a x :
  find_key k l = Some (i, a) → key x = k →
  lookup_key k' (<[i:=x]> l) = if decide (k' = k) then Some x else lookup_key k' l.
Proof.
  revert i. induction l as [|b l IH]; intros i Hf Hx; [done|].
  destruct (decide (key b = k)) as [Hb|Hb].
  - rewrite find_key_cons_eq in Hf by done. simplify_eq/=. case_decide.
    + by rewrite lookup_key_cons_eq.
    + by rewrite !lookup_key_cons_ne by congruence.
  - rewrite find_key_cons_ne in Hf by done.
    destruct (find_key k l) as [[j c]|] eqn:E; simplify_eq/=.
    specialize (IH j eq_refl eq_refl). destruct (decide (key b = k')).
    + rewrite !lookup_key_cons_eq by done. by rewrite decide_False by congruence.
    + by rewrite !lookup_key_cons_ne.
Qed.

Lemma find_key_insert_find k l i a x :
  find_key k l = Some (i, a) → key x = k → find_key k (<[i:=x]> l) = Some (i, x).
Proof.
  intros (Hi & _ & Hlt)%list_find_Some Hx. apply list_find_Some. split_and!.
  - apply list_lookup_insert_eq. by eapply lookup_lt_Some.
  - done.
  - intros j y Hj Hji. rewrite list_lookup_insert_ne in Hj by lia. eauto.
Qed.

Lemma find_key_snoc_fresh k l x :
  find_key k l = None → key x = k → find_key k (l ++ [x]) = Some (length l, x).
Proof.
  intros Hn Hx. apply list_find_Some. split_and!.
  - by rewrite lookup_app_r, Nat.sub_diag.
  - done.
  - intros j y Hj Hlt. rewrite lookup_app_l in Hj by done.
    eapply list_find_None, Forall_lookup_1 in Hn; eauto.
Qed.

Lemma to_map_by_insert_find k l i a x :
  find_key k l = Some (i, a) → key x = k →
  to_map_by (<[i:=x]> l) = <[k := x]> (to_map_by l).
Proof.
  intros Hf Hx. apply map_eq. intros k'.
  rewrite lookup_to_map_by, (lookup_key_insert_find k k' l i a x) by done.
  case_decide; subst.
  - by rewrite lookup_insert_eq.
  - by rewrite lookup_insert_ne, lookup_to_map_by.
Qed.

End keyed.

(** ** Lists without duplicates *)

(** Two elements of a list whose images are pairwise distinct are equal if
    their images are. *)
Lemma NoDup_fmap_elem_inj {A B} (f : A → B) (l : list A) x y :
  NoDup (f <$> l) → x ∈ l → y ∈ l → f x = f y → x = y.
Proof.
  induction l as [|a l IH]; intros Hnd Hx Hy Hf; [by apply elem_of_nil in Hx|].
  rewrite fmap_cons in Hnd. apply NoDup_cons in Hnd as [Ha Hnd].
  apply elem_of_cons in Hx as [->|Hx]; apply elem_of_cons in Hy as [->|Hy];
    [done| | |by apply IH].
  - destruct Ha. rewrite Hf. apply list_elem_of_fmap. eauto.
  - destruct Ha. rewrite <-Hf. apply list_elem_of_fmap. eauto.
Qed.

(** A duplicate-free list drawn from [k] is no longer than [k]. *)
Lemma NoDup_subseteq_length {A} (l k : list A) :
  NoDup l → l ⊆ k → (length l ≤ length k)%nat.
Proof. intros Hnd Hsub. by apply submseteq_length, NoDup_submseteq. Qed.

(** The head of a concatenation. *)
Lemma head_app_cases {A} (l k : list A) :
  head (l ++ k) = match head l with Some x => Some x | None => head k end.
Proof. by destruct l. Qed.

(** Every element of [l] has a partner in [k]: monotone in [k]. *)
Lemma Forall_Exists_mono {A B} (P : A → B → Prop) (l : list A) (k k' : list B) :
  k ⊆ k' → Forall (λ c, Exists (P c) k) l → Forall (λ c, Exists (P c) k') l.
Proof.
  intros Hsub Hall. eapply Forall_impl; [done|]. intros c.
  rewrite !Exists_exists. intros (p & Hp & Hc). exists p. split; [|done].
  by apply Hsub.
Qed.

(** ** Lexicographic order on pairs *)

Section lex.
Context {A B : Type} (RA : relation A) (RB : relation B).

(** [lex_le]: strictly below on the first component, or equal there and
    below on the second. *)
Definition lex_le (x y : A * B) : Prop :=
  (RA x.1 y.1 ∧ x.1 ≠ y.1) ∨ (x.1 = y.1 ∧ RB x.2 y.2).

#[export] Instance lex_le_dec `{EqDecision A} `{!RelDecision RA} `{!RelDecision RB} :
  RelDecision lex_le.
Proof. intros x y. unfold lex_le. apply _. Defined.

#[export] Instance lex_le_total `{EqDecision A} `{!Total RA} `{!Total RB} :
  Total lex_le.
Proof.
  intros [a b] [a' b']. unfold lex_le. simpl.
  destruct (decide (a = a')) as [->|Hne].
  - destruct (total RB b b'); auto.
  - destruct (total RA a a'); [left|right]; left; split; congruence.
Qed.

#[export] Instance lex_le_trans `{!PartialOrder RA} `{!Transitive RB} :
  Transitive lex_le.
Proof.
  intros [a b] [a' b'] [a'' b'']. unfold lex_le. simpl.
  intros [[H1 N1]|[-> H1]] [[H2 N2]|[-> H2]]; auto.
  - left. split; [by etrans|]. intros ->. apply N1. by apply (anti_symm RA).
  - right. split; [done|by etrans].
Qed.

#[export] Instance lex_le_anti_symm `{!AntiSymm (=) RA} `{!AntiSymm (=) RB} :
  AntiSymm (=) lex_le.
Proof.
  intros [a b] [a' b']. unfold lex_le. simpl.
  intros [[H1 N1]|[-> H1]] [[H2 N2]|[E H2]]; try done.
  - destruct N1. by apply (anti_symm RA).
  - f_equal. by apply (anti_symm RB).
Qed.

End lex.

(** ** Strings *)

(** [string_mem c s]: the character [c] occurs in [s]. *)
Fixpoint string_mem (c : Ascii.ascii) (s : string) : bool :=
  match s with
  | EmptyString => false
  | String d s' => if decide (c = d) then true else string_mem c s'
  end.

(** Two strings split at a separator that neither left part contains are
    equal only if their parts are. *)
Lemma append_sep_inj c x x' y y' :
  string_mem c x = false → string_mem c x' = false →
  x +:+ String c y = x' +:+ String c y' → x = x' ∧ y = y'.
Proof.
  revert x'. induction x as [|d x IH]; intros [|d' x']; simpl;
    intros Hx Hx' Heq.
  - by simplify_eq.
  - injection Heq as -> _. by rewrite decide_True in Hx'.
  - injection Heq as -> _. by rewrite decide_True in Hx.
  - injection Heq as -> Heq. case_decide; [done|].
    by destruct (IH x' Hx Hx' Heq) as [-> ->].
Qed.

Lemma string_length_app (x y : string) :
  String.length (x +:+ y) = String.length x + String.length y.
Proof. induction x as [|c x IH]; simpl; [done|]. by rewrite IH. Qed.

(** ** Automation *)

Create HintDb olm discriminated.
Create Rewrite HintDb olm_rw.

#[export] Hint Rewrite @find_key_nil : olm_rw.
#[export] Hint Rewrite @find_key_cons_eq @lookup_key_cons_eq using done : olm_rw.
#[export] Hint Rewrite @find_key_cons_ne @lookup_key_cons_ne using done : olm_rw.
#[export] Hint Rewrite @to_map_by_cons @lookup_to_map_by : olm_rw.

(** Case analysis on the first [decide] or [bool_decide] of the goal, then
    simplification of the equalities it yields. *)
Ltac olm_case :=
  repeat (case_decide || case_bool_decide); simplify_eq/=; try done.

(** Destruct an [outcome] or [option] scrutinised by the goal. *)
Ltac case_outcome :=
  repeat match goal with
  | |- context [match ?m with Returns _ => _ | Panics _ => _ end] =>
      destruct m eqn:?
  | |- context [mbind _ ?m] => destruct m eqn:?; simpl
  end; simplify_eq/=; try done.
