(* ===== verification/CatalogSourceTypes.v ===== *)
(** * CatalogSourceTypes: the data model of catalogsource_types.go

    Every struct and string-typed enumeration of
    [src/pkg/api/apis/operators/v1alpha1/catalogsource_types.go], field by
    field and in the source's order, with decidable equality and the field
    setters the operations of [Conditions] and [Address] use.  The Kubernetes
    types the file embeds ([TypeMeta], [ObjectMeta], [ConditionStatus]) and
    [Icon], which are declared outside [src/], carry the fields this
    repository reads. *)

From stdpp Require Import base tactics option list strings gmap.
From S2P Require Import Prelude.

#[local] Open Scope string_scope.
#[local] Open Scope list_scope.

(** ** Kubernetes types the file imports *)

(** [corev1.ConditionStatus]: a string type with three listed values. *)
Definition ConditionStatus : Type := string.
Definition ConditionTrue : ConditionStatus := "True".
Definition ConditionFalse : ConditionStatus := "False".
Definition ConditionUnknown : ConditionStatus := "Unknown".

(** [types.UID] *)
Definition UID : Type := string.

Record TypeMeta : Type := mkTypeMeta {
  tm_Kind : string;
  tm_APIVersion : string
}.

Record ObjectMeta : Type := mkObjectMeta {
  om_Name : string;
  om_Namespace : string;
  om_UID : UID;
  om_ResourceVersion : string
}.

Record Icon : Type := mkIcon {
  icon_Data : string;
  icon_MediaType : string
}.

(** ** Constants *)

Definition GroupName : string := "operators.coreos.com".
Definition operatorsGroupVersion : string := "v1alpha1".

Definition CatalogSourceCRDAPIVersion : string :=
  GroupName +:+ "/" +:+ operatorsGroupVersion.
Definition CatalogSourceKind : string := "CatalogSource".

(** ** SourceType *)

Definition SourceType : Type := string.
Definition SourceTypeInternal : SourceType := "internal".
Definition SourceTypeConfigmap : SourceType := "configmap".
Definition SourceTypeGrpc : SourceType := "grpc".

(** ** CatalogSourceSpec *)

Record CatalogSourceSpec : Type := mkCatalogSourceSpec {
  spec_SourceType : SourceType;
  spec_ConfigMap : string;
  spec_Address : string;
  spec_Image : string;
  spec_Secrets : list string;
  spec_DisplayName : string;
  spec_Description : string;
  spec_Publisher : string;
  spec_Icon : Icon
}.

(** ** RegistryServiceStatus *)

Record RegistryServiceStatus : Type := mkRegistryServiceStatus {
  rss_Protocol : string;
  rss_ServiceName : string;
  rss_ServiceNamespace : string;
  rss_Port : string;
  rss_CreatedAt : Time
}.

(** ** Conditions *)

Definition CatalogSourceConditionType : Type := string.
Definition CatalogSourceAvailable : CatalogSourceConditionType := "Available".

Definition CatalogSourceConditionReason : Type := string.
Definition CatalogSourceReasonInvalidType : CatalogSourceConditionReason :=
  "InvalidSourceType".
Definition CatalogSourceReasonConfigMapNotFound : CatalogSourceConditionReason :=
  "ConfigMapNotFound".
Definition CatalogSourceReasonRegistryHealthy : CatalogSourceConditionReason :=
  "RegistryHealthy".

Record CatalogSourceCondition : Type := mkCatalogSourceCondition {
  cond_Type : CatalogSourceConditionType;
  cond_Status : ConditionStatus;
  cond_LastUpdateTime : Time;
  cond_LastTransitionTime : Time;
  cond_Reason : CatalogSourceConditionReason;
  cond_Message : string
}.

(** ** ConfigMapResourceReference *)

Record ConfigMapResourceReference : Type := mkConfigMapResourceReference {
  cmr_Name : string;
  cmr_Namespace : string;
  cmr_UID : UID;
  cmr_ResourceVersion : string
}.

(** ** CatalogSourceStatus: the two pointer fields are options. *)

Record CatalogSourceStatus : Type := mkCatalogSourceStatus {
  status_ConfigMapResource : option ConfigMapResourceReference;
  status_RegistryServiceStatus : option RegistryServiceStatus;
  status_Conditions : list CatalogSourceCondition;
  status_LastSync : Time
}.

(** ** CatalogSource and CatalogSourceList *)

Record CatalogSource : Type := mkCatalogSource {
  cs_TypeMeta : TypeMeta;
  cs_ObjectMeta : ObjectMeta;
  cs_Spec : CatalogSourceSpec;
  cs_Status : CatalogSourceStatus
}.

Record CatalogSourceList : Type := mkCatalogSourceList {
  csl_TypeMeta : TypeMeta;
  csl_ResourceVersion : string;
  csl_Items : list CatalogSource
}.

(** ** Field assignment *)

Definition set_cond_LastUpdateTime (t : Time) (c : CatalogSourceCondition)
  : CatalogSourceCondition :=
  mkCatalogSourceCondition (cond_Type c) (cond_Status c) t
    (cond_LastTransitionTime c) (cond_Reason c) (cond_Message c).

Definition set_cond_LastTransitionTime (t : Time) (c : CatalogSourceCondition)
  : CatalogSourceCondition :=
  mkCatalogSourceCondition (cond_Type c) (cond_Status c) (cond_LastUpdateTime c)
    t (cond_Reason c) (cond_Message c).

Definition set_status_Conditions (conds : list CatalogSourceCondition)
  (s : CatalogSourceStatus) : CatalogSourceStatus :=
  mkCatalogSourceStatus (status_ConfigMapResource s)
    (status_RegistryServiceStatus s) conds (status_LastSync s).

Definition set_status_LastSync (t : Time) (s : CatalogSourceStatus)
  : CatalogSourceStatus :=
  mkCatalogSourceStatus (status_ConfigMapResource s)
    (status_RegistryServiceStatus s) (status_Conditions s) t.

Definition set_status_ConfigMapResource (r : option ConfigMapResourceReference)
  (s : CatalogSourceStatus) : CatalogSourceStatus :=
  mkCatalogSourceStatus r (status_RegistryServiceStatus s)
    (status_Conditions s) (status_LastSync s).

Definition set_status_RegistryServiceStatus (r : option RegistryServiceStatus)
  (s : CatalogSourceStatus) : CatalogSourceStatus :=
  mkCatalogSourceStatus (status_ConfigMapResource s) r
    (status_Conditions s) (status_LastSync s).

Definition set_cs_Status (st : CatalogSourceStatus) (c : CatalogSource)
  : CatalogSource :=
  mkCatalogSource (cs_TypeMeta c) (cs_ObjectMeta c) (cs_Spec c) st.

(** ** Decidable equality *)

#[export] Instance TypeMeta_eq_dec : EqDecision TypeMeta.
Proof. solve_decision. Defined.
#[export] Instance ObjectMeta_eq_dec : EqDecision ObjectMeta.
Proof. solve_decision. Defined.
#[export] Instance Icon_eq_dec : EqDecision Icon.
Proof. solve_decision. Defined.
#[export] Instance CatalogSourceSpec_eq_dec : EqDecision CatalogSourceSpec.
Proof. solve_decision. Defined.
#[export] Instance RegistryServiceStatus_eq_dec : EqDecision RegistryServiceStatus.
Proof. unfold Time. solve_decision. Defined.
#[export] Instance CatalogSourceCondition_eq_dec : EqDecision CatalogSourceCondition.
Proof. unfold Time. solve_decision. Defined.
#[export] Instance ConfigMapResourceReference_eq_dec :
  EqDecision ConfigMapResourceReference.
Proof. solve_decision. Defined.
#[export] Instance CatalogSourceStatus_eq_dec : EqDecision CatalogSourceStatus.
Proof. unfold Time. solve_decision. Defined.
#[export] Instance CatalogSource_eq_dec : EqDecision CatalogSource.
Proof. solve_decision. Defined.

(** ** Setter/getter equations *)

Lemma cond_Type_set_LastUpdateTime t c :
  cond_Type (set_cond_LastUpdateTime t c) = cond_Type c.
Proof. reflexivity. Qed.

Lemma cond_Type_set_LastTransitionTime t c :
  cond_Type (set_cond_LastTransitionTime t c) = cond_Type c.
Proof. reflexivity. Qed.

Lemma cond_Status_set_LastUpdateTime t c :
  cond_Status (set_cond_LastUpdateTime t c) = cond_Status c.
Proof. reflexivity. Qed.

Lemma cond_Status_set_LastTransitionTime t c :
  cond_Status (set_cond_LastTransitionTime t c) = cond_Status c.
Proof. reflexivity. Qed.

Lemma set_cond_LastTransitionTime_twice t u c :
  set_cond_LastTransitionTime t (set_cond_LastTransitionTime u c)
  = set_cond_LastTransitionTime t c.
Proof. reflexivity. Qed.

Lemma set_cond_LastTransitionTime_id c :
  set_cond_LastTransitionTime (cond_LastTransitionTime c) c = c.
Proof. by destruct c. Qed.

(** A status is its four fields. *)
Lemma CatalogSourceStatus_eq s s' :
  status_ConfigMapResource s = status_ConfigMapResource s' →
  status_RegistryServiceStatus s = status_RegistryServiceStatus s' →
  status_Conditions s = status_Conditions s' →
  status_LastSync s = status_LastSync s' →
  s = s'.
Proof. destruct s, s'; simpl; congruence. Qed.

#[export] Hint Rewrite cond_Type_set_LastUpdateTime
  cond_Type_set_LastTransitionTime cond_Status_set_LastUpdateTime
  cond_Status_set_LastTransitionTime set_cond_LastTransitionTime_twice
  set_cond_LastTransitionTime_id : olm_rw.
