(* ===== verification/Conditions.v ===== *)
(** * Conditions: the Condition Store of a CatalogSource status

    [SetCondition], [CatalogSourceConditionFailed] and
    [CatalogSourceConditionMet] of catalogsource_types.go.  The method reads
    the clock once ([now()]); here the reading is the argument [now].  Its
    [range] loop is [setConditionLoop], which carries the index [i] and the
    slice being assigned to, as the Go loop does.

    The abstract store is a finite map from condition type to condition
    ([spec_set]); [SetCondition_refines] shows that the slice a status holds,
    read through [to_map_by cond_Type], is updated as the map is.  The
    remaining theorems are the per-branch behaviour, the frame and length
    facts, the merge-key and timestamp invariants, what happens to a
    slice that already holds a type twice, and what a sequence of calls
    does to the length of the slice and to the transition times. *)

From stdpp Require Import base tactics option list strings gmap.
From S2P Require Import Prelude CatalogSourceTypes.

#[local] Open Scope string_scope.
#[local] Open Scope list_scope.

(** ** Operations *)

(** Lines 112-114: an unchanged status keeps the transition time of the
    entry it replaces. *)
Definition keepTransitionTime (existing cond : CatalogSourceCondition)
  : CatalogSourceCondition :=
  if decide (cond_Status existing = cond_Status cond)
  then set_cond_LastTransitionTime (cond_LastTransitionTime existing) cond
  else cond.

(** The [for i, existing := range s.Conditions] loop: [conds] is
    [s.Conditions], [rest] what is left to visit from index [i] on.  [None]
    is the loop running to its end. *)
Fixpoint setConditionLoop (conds : list CatalogSourceCondition) (i : nat)
  (rest : list CatalogSourceCondition) (cond : CatalogSourceCondition)
  : option (list CatalogSourceCondition * CatalogSourceCondition) :=
  match rest with
  | [] => None
  | existing :: rest' =>
      if decide (cond_Type existing ≠ cond_Type cond)
      then setConditionLoop conds (S i) rest' cond
      else
        let cond := keepTransitionTime existing cond in
        Some (<[i := cond]> conds, cond)
  end.

(** [func (s *CatalogSourceStatus) SetCondition(cond) CatalogSourceCondition]:
    the status after the call and the condition returned. *)
Definition SetCondition (now : Time) (s : CatalogSourceStatus)
  (cond : CatalogSourceCondition) : CatalogSourceStatus * CatalogSourceCondition :=
  let updated := now in
  let cond := set_cond_LastUpdateTime updated cond in
  let cond := set_cond_LastTransitionTime updated cond in
  match setConditionLoop (status_Conditions s) 0 (status_Conditions s) cond with
  | Some (conds, cond) => (set_status_Conditions conds s, cond)
  | None => (set_status_Conditions (status_Conditions s ++ [cond]) s, cond)
  end.

(** [err.Error()] on a nil [error] panics: the error is an option. *)
Definition CatalogSourceConditionFailed (cond : CatalogSourceConditionType)
  (reason : CatalogSourceConditionReason) (err : option string)
  : outcome CatalogSourceCondition :=
  msg ← deref err;
  mret (mkCatalogSourceCondition cond ConditionFalse zeroTime zeroTime reason msg).

Definition CatalogSourceConditionMet (cond : CatalogSourceConditionType)
  : CatalogSourceCondition :=
  mkCatalogSourceCondition cond ConditionTrue zeroTime zeroTime "" "".

(** ** Specification devices *)

(** The condition as [SetCondition] stamps it before the loop. *)
Definition stamped (now : Time) (cond : CatalogSourceCondition)
  : CatalogSourceCondition :=
  set_cond_LastTransitionTime now (set_cond_LastUpdateTime now cond).

(** The condition of type [ty] a status shows: the first of that type. *)
Definition conditionOf (ty : CatalogSourceConditionType) (s : CatalogSourceStatus)
  : option CatalogSourceCondition :=
  lookup_key cond_Type ty (status_Conditions s).

Definition conditionTypes (s : CatalogSourceStatus)
  : list CatalogSourceConditionType :=
  cond_Type <$> status_Conditions s.

(** The conditions of a status as the finite map they denote. *)
Definition conditionMap (s : CatalogSourceStatus)
  : gmap CatalogSourceConditionType CatalogSourceCondition :=
  to_map_by cond_Type (status_Conditions s).

(** The abstract store of the specification (section 4.1): lookup by type;
    an absent type is added with both times [now]; an unchanged status keeps
    the old transition time; a changed one refreshes both. *)
Definition spec_set (now : Time)
  (m : gmap CatalogSourceConditionType CatalogSourceCondition)
  (cond : CatalogSourceCondition)
  : gmap CatalogSourceConditionType CatalogSourceCondition * CatalogSourceCondition :=
  let transition :=
    match m !! cond_Type cond with
    | Some existing =>
        if decide (cond_Status existing = cond_Status cond)
        then cond_LastTransitionTime existing else now
    | None => now
    end in
  let applied :=
    set_cond_LastTransitionTime transition (set_cond_LastUpdateTime now cond) in
  (<[cond_Type cond := applied]> m, applied).

(** Every condition was last updated no earlier than it last changed
    status, and no later than [now]. *)
Definition times_ok (now : Time) (s : CatalogSourceStatus) : Prop :=
  Forall (λ c, (cond_LastTransitionTime c ≤ cond_LastUpdateTime c)%Z
               ∧ (cond_LastUpdateTime c ≤ now)%Z) (status_Conditions s).

#[export] Instance times_ok_dec now s : Decision (times_ok now s).
Proof. unfold times_ok. apply _. Defined.

(** A sequence of calls of [SetCondition], each at its clock reading. *)
Definition applyCalls (s : CatalogSourceStatus)
  (calls : list (Time * CatalogSourceCondition)) : CatalogSourceStatus :=
  foldl (λ s call, (SetCondition call.1 s call.2).1) s calls.

(** The clock readings of a sequence of calls never go back: the first is
    no earlier than [now0], and each is no earlier than the one before. *)
Fixpoint clocksFrom (now0 : Time) (calls : list (Time * CatalogSourceCondition))
  : Prop :=
  match calls with
  | [] => True
  | call :: calls => (now0 ≤ call.1)%Z ∧ clocksFrom call.1 calls
  end.

#[export] Instance clocksFrom_dec now0 calls : Decision (clocksFrom now0 calls).
Proof. revert now0. induction calls; intros; simpl; apply _. Defined.

(** The last call of a sequence for a condition type. *)
Definition lastCall (ty : CatalogSourceConditionType)
  (calls : list (Time * CatalogSourceCondition))
  : option (Time * CatalogSourceCondition) :=
  last (filter (λ call, cond_Type call.2 = ty) calls).

(** The set of the types a list names. *)
Definition typeSet (tys : list CatalogSourceConditionType) : gset string :=
  list_to_set tys.

(** ** Example data *)

Definition ex_failed : CatalogSourceCondition :=
  mkCatalogSourceCondition CatalogSourceAvailable ConditionFalse 3 3
    CatalogSourceReasonConfigMapNotFound "configmap not found".

Definition ex_stale : CatalogSourceCondition :=
  mkCatalogSourceCondition CatalogSourceAvailable ConditionTrue 1 1
    CatalogSourceReasonRegistryHealthy "".

Definition ex_met : CatalogSourceCondition :=
  CatalogSourceConditionMet CatalogSourceAvailable.

Definition ex_empty_status : CatalogSourceStatus :=
  mkCatalogSourceStatus None None [] zeroTime.

Definition ex_status : CatalogSourceStatus :=
  mkCatalogSourceStatus None None [ex_failed] 3.

(** A status whose slice holds the type [Available] twice. *)
Definition ex_status_dup : CatalogSourceStatus :=
  mkCatalogSourceStatus None None [ex_failed; ex_stale] 3.

(** ** The loop and its reference *)

Lemma setConditionLoop_find conds pre rest cond :
  conds = pre ++ rest →
  setConditionLoop conds (length pre) rest cond
  = (λ '(j, existing),
       let c := keepTransitionTime existing cond in
       (<[length pre + j := c]> conds, c))
    <$> find_key cond_Type (cond_Type cond) rest.
Proof.
  revert pre. induction rest as [|e rest IH]; intros pre ->; [done|].
  cbn [setConditionLoop]. case_decide as Hty.
  - rewrite find_key_cons_ne by done.
    specialize (IH (pre ++ [e])). rewrite length_app, Nat.add_1_r in IH.
    rewrite IH by (by rewrite <-app_assoc).
    destruct (find_key _ _ rest) as [[j x]|]; simpl; [|done].
    by rewrite Nat.add_succ_r.
  - rewrite find_key_cons_eq by done. simpl.
    by rewrite Nat.add_0_r.
Qed.

Lemma cond_Type_stamped now cond : cond_Type (stamped now cond) = cond_Type cond.
Proof. reflexivity. Qed.

Lemma cond_Status_stamped now cond :
  cond_Status (stamped now cond) = cond_Status cond.
Proof. reflexivity. Qed.

Lemma cond_Type_keepTransitionTime e cond :
  cond_Type (keepTransitionTime e cond) = cond_Type cond.
Proof. unfold keepTransitionTime. by case_decide. Qed.

Lemma cond_Status_keepTransitionTime e cond :
  cond_Status (keepTransitionTime e cond) = cond_Status cond.
Proof. unfold keepTransitionTime. by case_decide. Qed.

Lemma cond_LastUpdateTime_keepTransitionTime e cond :
  cond_LastUpdateTime (keepTransitionTime e cond) = cond_LastUpdateTime cond.
Proof. unfold keepTransitionTime. by case_decide. Qed.

#[export] Hint Rewrite cond_Type_stamped cond_Status_stamped
  cond_Type_keepTransitionTime cond_Status_keepTransitionTime
  cond_LastUpdateTime_keepTransitionTime : olm_rw.

(** [SetCondition] in terms of the first entry of the condition's type:
    overwrite it in place, or append when there is none. *)
Lemma SetCondition_find now s cond :
  SetCondition now s cond
  = match find_key cond_Type (cond_Type cond) (status_Conditions s) with
    | Some (i, existing) =>
        let applied := keepTransitionTime existing (stamped now cond) in
        (set_status_Conditions (<[i := applied]> (status_Conditions s)) s, applied)
    | None =>
        (set_status_Conditions (status_Conditions s ++ [stamped now cond]) s,
         stamped now cond)
    end.
Proof.
  unfold SetCondition.
  rewrite (setConditionLoop_find _ [] (status_Conditions s)) by done.
  fold (stamped now cond). rewrite cond_Type_stamped.
  by destruct (find_key _ _ _) as [[i e]|].
Qed.

Lemma find_key_SetCondition now s cond :
  ∃ i, find_key cond_Type (cond_Type cond)
         (status_Conditions (SetCondition now s cond).1)
       = Some (i, (SetCondition now s cond).2).
Proof.
  assert (∃ c, lookup_key cond_Type (cond_Type cond)
                 (status_Conditions (SetCondition now s cond).1) = Some c
               ∧ c = (SetCondition now s cond).2) as (c & Hc & ->);
    [|by apply lookup_key_find_key].
  rewrite SetCondition_find.
  destruct (find_key _ _ _) as [[i e]|] eqn:Hf; simpl; eexists; split; try done.
  - rewrite (lookup_key_insert_find cond_Type _ _ _ _ _ _ Hf)
      by by autorewrite with olm_rw.
    by rewrite decide_True.
  - apply find_key_None in Hf. rewrite lookup_key_app, Hf. simpl.
    by rewrite lookup_key_cons_eq.
Qed.

Lemma cond_Type_SetCondition now s cond :
  cond_Type (SetCondition now s cond).2 = cond_Type cond.
Proof.
  rewrite SetCondition_find. destruct (find_key _ _ _) as [[i e]|]; simpl;
    by autorewrite with olm_rw.
Qed.

Lemma cond_Status_SetCondition now s cond :
  cond_Status (SetCondition now s cond).2 = cond_Status cond.
Proof.
  rewrite SetCondition_find. destruct (find_key _ _ _) as [[i e]|]; simpl;
    by autorewrite with olm_rw.
Qed.

Lemma conditionTypes_SetCondition now s cond :
  conditionTypes (SetCondition now s cond).1
  = if decide (cond_Type cond ∈ conditionTypes s)
    then conditionTypes s else conditionTypes s ++ [cond_Type cond].
Proof.
  unfold conditionTypes. rewrite SetCondition_find.
  destruct (find_key _ _ _) as [[i e]|] eqn:Hf; simpl.
  - rewrite (keys_insert_find cond_Type _ _ _ _ _ Hf)
      by by autorewrite with olm_rw.
    rewrite decide_True; [done|]. apply dec_stable. intros Hin.
    apply (lookup_key_None cond_Type) in Hin.
    by rewrite (find_key_lookup_key _ _ _ _ _ Hf) in Hin.
  - apply find_key_None, lookup_key_None in Hf.
    by rewrite decide_False, fmap_app.
Qed.

(** ** Theorems *)

(** C1. [SetCondition] implements the abstract condition store: reading the
    status's condition slice as the map from type to condition it denotes,
    the call inserts what [spec_set] inserts and returns what it returns,
    whatever the slice held before (duplicated types included). *)
Theorem SetCondition_refines now s cond :
  (conditionMap (SetCondition now s cond).1, (SetCondition now s cond).2)
  = spec_set now (conditionMap s) cond.
Proof.
  unfold conditionMap, spec_set. rewrite SetCondition_find, lookup_to_map_by.
  destruct (find_key _ _ _) as [[i e]|] eqn:Hf; simpl.
  - rewrite (find_key_lookup_key _ _ _ _ _ Hf).
    rewrite (to_map_by_insert_find cond_Type _ _ _ _ _ Hf)
      by by autorewrite with olm_rw.
    unfold keepTransitionTime. rewrite cond_Status_stamped. by case_decide.
  - apply find_key_None in Hf. rewrite Hf.
    by rewrite to_map_by_snoc_fresh.
Qed.

(** C3. Re-applying a condition with the same type and the same status,
    at any later clock reading and with any reason or message, leaves the
    transition time where the first application put it. *)
Theorem SetCondition_reapply_keeps_transition now now' s cond cond' :
  cond_Type cond' = cond_Type cond →
  cond_Status cond' = cond_Status cond →
  cond_LastTransitionTime (SetCondition now' (SetCondition now s cond).1 cond').2
  = cond_LastTransitionTime (SetCondition now s cond).2.
Proof.
  intros Hty Hst. destruct (find_key_SetCondition now s cond) as [i Hf].
  rewrite <-Hty in Hf. rewrite (SetCondition_find now'), Hf. simpl.
  unfold keepTransitionTime. rewrite cond_Status_stamped, decide_True; [done|].
  by rewrite Hst, cond_Status_SetCondition.
Qed.

Lemma SetCondition_reapply_keeps_transition_witness :
  cond_LastTransitionTime
    (SetCondition 9 (SetCondition 7 ex_status ex_met).1 ex_met).2 = 7%Z.
Proof.
  by rewrite (SetCondition_reapply_keeps_transition 7 9 ex_status ex_met ex_met).
Defined.

(** C2. The timestamps of the condition [SetCondition] returns: the update
    time is always [now]; the transition time is that of the entry shown
    for the type when its status is unchanged, and [now] when the status
    changed or the type was absent.  Type, status, reason and message are
    the argument's. *)
Theorem SetCondition_timestamps now s cond :
  let applied := (SetCondition now s cond).2 in
  cond_LastUpdateTime applied = now
  ∧ cond_LastTransitionTime applied
    = match conditionOf (cond_Type cond) s with
      | Some existing =>
          if decide (cond_Status existing = cond_Status cond)
          then cond_LastTransitionTime existing else now
      | None => now
      end
  ∧ (cond_Type applied, cond_Status applied, cond_Reason applied,
     cond_Message applied)
    = (cond_Type cond, cond_Status cond, cond_Reason cond, cond_Message cond).
Proof.
  unfold conditionOf, lookup_key. rewrite SetCondition_find.
  destruct (find_key _ _ _) as [[i e]|]; simpl; [|done].
  unfold keepTransitionTime. rewrite cond_Status_stamped. by case_decide.
Qed.

(** ** Lemmas for the clients of the store *)

(** The fields of the status other than the conditions are not touched. *)
Lemma SetCondition_frame now s cond :
  status_ConfigMapResource (SetCondition now s cond).1 = status_ConfigMapResource s
  ∧ status_RegistryServiceStatus (SetCondition now s cond).1
    = status_RegistryServiceStatus s
  ∧ status_LastSync (SetCondition now s cond).1 = status_LastSync s.
Proof. rewrite SetCondition_find. by destruct (find_key _ _ _) as [[i e]|]. Qed.

(** [SetCondition] reads and writes the condition slice only. *)
Lemma SetCondition_ext now s s' cond :
  status_Conditions s = status_Conditions s' →
  status_Conditions (SetCondition now s cond).1
  = status_Conditions (SetCondition now s' cond).1.
Proof.
  intros Heq. rewrite !SetCondition_find, Heq.
  by destruct (find_key _ _ _) as [[i e]|].
Qed.

(** The applied condition is the stamped argument, up to the transition
    time of an entry of the slice with the same type and status. *)
Lemma SetCondition_applied_cases now s cond :
  (SetCondition now s cond).2 = stamped now cond
  ∨ ∃ e, e ∈ status_Conditions s ∧ cond_Status e = cond_Status cond
         ∧ (SetCondition now s cond).2
           = set_cond_LastTransitionTime (cond_LastTransitionTime e)
               (stamped now cond).
Proof.
  rewrite SetCondition_find.
  destruct (find_key _ _ _) as [[i e]|] eqn:Hf; simpl; [|by left].
  unfold keepTransitionTime. rewrite cond_Status_stamped.
  case_decide; [right|by left]. exists e. split_and!; [|done..].
  apply find_key_Some in Hf as [Hi _]. by eapply list_elem_of_lookup_2.
Qed.

Lemma cond_Reason_SetCondition now s cond :
  cond_Reason (SetCondition now s cond).2 = cond_Reason cond.
Proof.
  by destruct (SetCondition_applied_cases now s cond) as [->|(e & _ & _ & ->)].
Qed.

Lemma cond_Message_SetCondition now s cond :
  cond_Message (SetCondition now s cond).2 = cond_Message cond.
Proof.
  by destruct (SetCondition_applied_cases now s cond) as [->|(e & _ & _ & ->)].
Qed.

Lemma cond_LastUpdateTime_SetCondition now s cond :
  cond_LastUpdateTime (SetCondition now s cond).2 = now.
Proof.
  by destruct (SetCondition_applied_cases now s cond) as [->|(e & _ & _ & ->)].
Qed.

(** [SetCondition] introduces no duplicate type. *)
Lemma NoDup_conditionTypes_SetCondition now s cond :
  NoDup (conditionTypes s) → NoDup (conditionTypes (SetCondition now s cond).1).
Proof.
  intros Hnd. rewrite conditionTypes_SetCondition. case_decide; [done|].
  apply NoDup_app. split_and!; [done| |apply NoDup_singleton].
  by intros ty Hty ->%list_elem_of_singleton.
Qed.

(** A property of every condition of the slice survives [SetCondition] if
    the applied condition has it. *)
Lemma SetCondition_Forall (P : CatalogSourceCondition → Prop) now s cond :
  Forall P (status_Conditions s) → P (SetCondition now s cond).2 →
  Forall P (status_Conditions (SetCondition now s cond).1).
Proof.
  rewrite SetCondition_find.
  destruct (find_key _ _ _) as [[i e]|]; simpl; intros Hall HP.
  - by apply Forall_insert.
  - apply Forall_app. split; [done|]. by apply Forall_singleton.
Qed.

Lemma keepTransitionTime_idem e cond :
  keepTransitionTime (keepTransitionTime e cond) cond = keepTransitionTime e cond.
Proof.
  unfold keepTransitionTime at 2 3. case_decide.
  - unfold keepTransitionTime. by rewrite decide_True.
  - unfold keepTransitionTime. by rewrite decide_True, set_cond_LastTransitionTime_id.
Qed.

Lemma keepTransitionTime_self cond : keepTransitionTime cond cond = cond.
Proof.
  unfold keepTransitionTime. by rewrite decide_True, set_cond_LastTransitionTime_id.
Qed.

(** At a fixed clock reading [SetCondition] is idempotent. *)
Lemma SetCondition_idem now s cond :
  SetCondition now (SetCondition now s cond).1 cond = SetCondition now s cond.
Proof.
  rewrite (SetCondition_find now s).
  destruct (find_key _ _ (status_Conditions s)) as [[i e]|] eqn:Hf; simpl.
  - rewrite SetCondition_find. simpl.
    rewrite (find_key_insert_find cond_Type _ _ _ _ _ Hf)
      by by autorewrite with olm_rw.
    simpl. by rewrite list_insert_insert_eq, keepTransitionTime_idem.
  - rewrite SetCondition_find. simpl.
    rewrite (find_key_snoc_fresh cond_Type _ _ _ Hf) by done. simpl.
    rewrite keepTransitionTime_self.
    by rewrite list_insert_id by by rewrite lookup_app_r, Nat.sub_diag.
Qed.

(** ** Frames and invariants *)

(** C12. Lookup after set: the status shows the returned condition under the
    condition's own type, and shows what it showed before under every other
    type. *)
Theorem SetCondition_conditionOf now s cond ty :
  conditionOf ty (SetCondition now s cond).1
  = if decide (ty = cond_Type cond)
    then Some (SetCondition now s cond).2 else conditionOf ty s.
Proof.
  unfold conditionOf. rewrite SetCondition_find.
  destruct (find_key _ _ _) as [[i e]|] eqn:Hf; simpl.
  - by rewrite (lookup_key_insert_find cond_Type _ _ _ _ _ _ Hf)
      by by autorewrite with olm_rw.
  - apply find_key_None in Hf. rewrite lookup_key_app. case_decide; subst.
    + by rewrite Hf, lookup_key_cons_eq.
    + rewrite lookup_key_cons_ne by (simpl; congruence).
      by destruct (lookup_key _ ty (status_Conditions s)).
Qed.

(** C15. When the slice holds the condition's type, [SetCondition] overwrites
    the first entry of that type in place with the condition it returns:
    every other index, a later entry of the same type included, and the
    length of the slice are unchanged. *)
Theorem SetCondition_in_place now s cond i existing :
  find_key cond_Type (cond_Type cond) (status_Conditions s) = Some (i, existing) →
  status_Conditions (SetCondition now s cond).1
  = <[i := (SetCondition now s cond).2]> (status_Conditions s)
  ∧ (SetCondition now s cond).2 = keepTransitionTime existing (stamped now cond).
Proof. intros Hf. by rewrite SetCondition_find, Hf. Qed.

Lemma SetCondition_in_place_witness :
  status_Conditions (SetCondition 7 ex_status_dup ex_met).1
  = [mkCatalogSourceCondition CatalogSourceAvailable ConditionTrue 7 7 "" "";
     ex_stale].
Proof.
  by destruct (SetCondition_in_place 7 ex_status_dup ex_met 0 ex_failed eq_refl)
    as [-> ->].
Defined.

(** When no entry has the condition's type, [SetCondition] appends the
    condition with update time and transition time both [now], and returns
    it; the entries already there keep their places. *)
Theorem SetCondition_absent_appends now s cond :
  cond_Type cond ∉ conditionTypes s →
  SetCondition now s cond
  = (set_status_Conditions (status_Conditions s ++ [stamped now cond]) s,
     stamped now cond).
Proof.
  intros Hty%(lookup_key_None cond_Type)%find_key_None.
  by rewrite SetCondition_find, Hty.
Qed.

Lemma SetCondition_absent_appends_witness :
  SetCondition 7 ex_empty_status ex_met
  = (mkCatalogSourceStatus None None
       [mkCatalogSourceCondition CatalogSourceAvailable ConditionTrue 7 7 "" ""]
       zeroTime,
     mkCatalogSourceCondition CatalogSourceAvailable ConditionTrue 7 7 "" "").
Proof.
  apply (SetCondition_absent_appends 7 ex_empty_status ex_met).
  apply not_elem_of_nil.
Defined.

(** The entry shown for a type after a call: the returned condition for the
    call's own type, the entry shown before for any other. *)
Lemma conditionOf_SetCondition_own now s cond :
  conditionOf (cond_Type cond) (SetCondition now s cond).1
  = Some (SetCondition now s cond).2.
Proof.
  destruct (find_key_SetCondition now s cond) as [i Hf].
  by apply find_key_lookup_key in Hf.
Qed.

Lemma conditionOf_SetCondition_other now s cond ty :
  ty ≠ cond_Type cond →
  conditionOf ty (SetCondition now s cond).1 = conditionOf ty s.
Proof.
  intros Hty. unfold conditionOf. rewrite SetCondition_find.
  destruct (find_key _ _ _) as [[i e0]|] eqn:Hf; simpl.
  - rewrite (lookup_key_insert_find cond_Type _ _ _ _ _ _ Hf)
      by by autorewrite with olm_rw.
    by rewrite decide_False.
  - rewrite lookup_key_app, lookup_key_cons_ne by (simpl; congruence).
    by destruct (lookup_key _ ty (status_Conditions s)).
Qed.

Lemma applyCalls_snoc s calls now cond :
  applyCalls s (calls ++ [(now, cond)])
  = (SetCondition now (applyCalls s calls) cond).1.
Proof. unfold applyCalls. by rewrite foldl_app. Qed.

Lemma lastCall_snoc ty calls call :
  lastCall ty (calls ++ [call])
  = if decide (cond_Type call.2 = ty) then Some call else lastCall ty calls.
Proof.
  unfold lastCall. rewrite filter_app, filter_cons, filter_nil.
  case_decide; [by rewrite last_snoc|by rewrite app_nil_r].
Qed.

(** C16. Along a run of calls whose clock readings never go back, the
    transition time a status shows for a type never goes back either: if
    the entry shown at the start changed status no later than the first
    reading, the entry shown at the end changed status no earlier than it
    did; and if the two differ in status, the change is dated within the
    run.  A status change therefore strictly advances the transition time
    when the run starts after it; nothing of the kind holds when the clock
    goes back. *)
Theorem SetCondition_transition_monotone now1 s calls ty e :
  clocksFrom now1 calls →
  conditionOf ty s = Some e →
  (cond_LastTransitionTime e ≤ now1)%Z →
  ∃ e', conditionOf ty (applyCalls s calls) = Some e'
        ∧ (cond_LastTransitionTime e ≤ cond_LastTransitionTime e')%Z
        ∧ (cond_Status e' ≠ cond_Status e →
           (now1 ≤ cond_LastTransitionTime e')%Z).
Proof.
  revert now1 s e. induction calls as [|[now cond] calls IH];
    intros now1 s e Hclk He Hle; [by exists e|].
  destruct Hclk as [Hnow Hclk]. cbn [fst] in *.
  cbn [applyCalls foldl fst snd].
  fold (applyCalls (SetCondition now s cond).1 calls).
  destruct (decide (ty = cond_Type cond)) as [->|Hty].
  - pose proof (conditionOf_SetCondition_own now s cond) as He1.
    assert ((cond_LastTransitionTime e
             ≤ cond_LastTransitionTime (SetCondition now s cond).2 ≤ now)%Z
            ∧ (cond_Status (SetCondition now s cond).2 ≠ cond_Status e →
               cond_LastTransitionTime (SetCondition now s cond).2 = now))
      as [Hstep Hchg].
    { clear IH. unfold conditionOf, lookup_key in He.
      rewrite SetCondition_find.
      destruct (find_key _ _ _) as [[i e0]|]; simplify_eq/=.
      unfold keepTransitionTime. rewrite cond_Status_stamped.
      case_decide; simpl; [split; [lia|congruence]|split; [lia|done]]. }
    destruct (IH now _ _ Hclk He1) as (e' & He' & Hmono & Hlate); [lia|].
    exists e'. split_and!; [done|lia|]. intros Hst.
    destruct (decide (cond_Status e' = cond_Status (SetCondition now s cond).2))
      as [Heq|Hne]; [|specialize (Hlate Hne); lia].
    rewrite Heq in Hst. specialize (Hchg Hst). lia.
  - rewrite <-(conditionOf_SetCondition_other now s cond ty Hty) in He.
    destruct (IH now _ _ Hclk He) as (e' & He' & Hmono & Hlate); [lia|].
    exists e'. split_and!; [done..|]. intros Hst. specialize (Hlate Hst). lia.
Qed.

Lemma SetCondition_transition_monotone_witness :
  ∃ e', conditionOf CatalogSourceAvailable
          (applyCalls ex_status [(7%Z, ex_met); (9%Z, ex_met)]) = Some e'
        ∧ (3 ≤ cond_LastTransitionTime e')%Z
        ∧ (cond_Status e' ≠ ConditionFalse →
           (7 ≤ cond_LastTransitionTime e')%Z).
Proof.
  apply (SetCondition_transition_monotone 7 ex_status
           [(7%Z, ex_met); (9%Z, ex_met)] CatalogSourceAvailable ex_failed);
    [cbn; lia|reflexivity|cbn; lia].
Defined.

(** C17. Merge-key invariant: [SetCondition] neither introduces nor removes
    a duplicated condition type.  If no two conditions of a status share a
    type the same holds afterwards, and a status that holds a type twice
    still does. *)
Theorem SetCondition_types_NoDup now s cond :
  NoDup (conditionTypes (SetCondition now s cond).1) ↔ NoDup (conditionTypes s).
Proof.
  split; [|apply NoDup_conditionTypes_SetCondition].
  rewrite conditionTypes_SetCondition. case_decide; [done|].
  by intros (? & _)%NoDup_app.
Qed.

(** C18. Timestamp invariant: if every condition's transition time is no
    later than its update time and no update time is later than an earlier
    clock reading, the same holds at [now] after [SetCondition]. *)
Theorem SetCondition_times_ok now0 now s cond :
  times_ok now0 s → (now0 ≤ now)%Z → times_ok now (SetCondition now s cond).1.
Proof.
  unfold times_ok. intros Hok Hle. apply SetCondition_Forall.
  - eapply Forall_impl; [done|]. simpl. lia.
  - destruct (SetCondition_applied_cases now s cond) as [->|(e & He & _ & ->)];
      simpl; [lia|].
    eapply Forall_forall in Hok; [|done]. simpl in Hok. lia.
Qed.

Lemma SetCondition_times_ok_witness :
  times_ok 7 (SetCondition 7 ex_status ex_met).1.
Proof.
  apply (SetCondition_times_ok 3 7 ex_status ex_met); [|done].
  apply Forall_singleton. done.
Defined.

(** ** Growth *)

Lemma size_insert_fresh (x : string) (A : gset string) :
  x ∉ A → size ({[x]} ∪ A) = S (size A).
Proof.
  intros. rewrite size_union by set_solver. by rewrite size_singleton.
Qed.

Lemma typeSet_SetCondition now s cond :
  typeSet (conditionTypes (SetCondition now s cond).1)
  = typeSet (conditionTypes s) ∪ {[cond_Type cond]}.
Proof.
  unfold typeSet. rewrite conditionTypes_SetCondition. case_decide as Hin.
  - apply (elem_of_list_to_set (C := gset string)) in Hin. set_solver.
  - rewrite list_to_set_app_L. set_solver.
Qed.

Lemma length_SetCondition now s cond :
  length (status_Conditions (SetCondition now s cond).1)
  = (length (status_Conditions s)
     + (if decide (cond_Type cond ∈ conditionTypes s) then 0 else 1))%nat.
Proof.
  rewrite <-!(length_fmap cond_Type). fold (conditionTypes s).
  fold (conditionTypes (SetCondition now s cond).1).
  rewrite conditionTypes_SetCondition. case_decide; [lia|].
  by rewrite length_app.
Qed.

(** C13. The condition slice grows by the number of distinct new types
    and by nothing else: after any sequence of calls its length is the
    length it had plus the number of condition types among the calls that
    the status did not show.  So it never shrinks, and never grows by more
    than the number of calls. *)
Theorem SetCondition_growth s calls :
  length (status_Conditions (applyCalls s calls))
  = (length (status_Conditions s)
     + size (typeSet (cond_Type ∘ snd <$> calls) ∖ typeSet (conditionTypes s)))%nat
  ∧ (length (status_Conditions (applyCalls s calls))
     ≤ length (status_Conditions s) + length calls)%nat.
Proof.
  revert s. induction calls as [|[now cond] calls IH]; intros s.
  { cbn. replace (∅ ∖ typeSet (conditionTypes s)) with (∅ : gset string)
      by set_solver. rewrite size_empty. lia. }
  cbn [applyCalls foldl fst snd].
  fold (applyCalls (SetCondition now s cond).1 calls).
  destruct (IH (SetCondition now s cond).1) as [-> Hle].
  rewrite length_SetCondition, typeSet_SetCondition in *.
  assert (typeSet (cond_Type ∘ snd <$> (now, cond) :: calls)
          = {[cond_Type cond]} ∪ typeSet (cond_Type ∘ snd <$> calls)) as ->
    by done.
  set (T := typeSet (cond_Type ∘ snd <$> calls)) in *.
  set (S0 := typeSet (conditionTypes s)) in *. cbn [length].
  assert (cond_Type cond ∈ conditionTypes s ↔ cond_Type cond ∈ S0) as Hiff
    by (symmetry; apply elem_of_list_to_set).
  case_decide as Hin; rewrite Hiff in Hin.
  - replace (({[cond_Type cond]} ∪ T) ∖ S0) with (T ∖ (S0 ∪ {[cond_Type cond]}))
      by set_solver.
    lia.
  - replace (({[cond_Type cond]} ∪ T) ∖ S0)
      with ({[cond_Type cond]} ∪ T ∖ (S0 ∪ {[cond_Type cond]})).
    + rewrite (size_insert_fresh (cond_Type cond)) by set_solver. lia.
    + apply set_eq. intros x. destruct (decide (x = cond_Type cond)); set_solver.
Qed.

(** C14. The last call wins.  After any sequence of calls, the entry a
    status shows for a condition type carries the status, the reason and
    the message of the last call made for that type, and was updated at
    that call's clock reading; a type no call was made for shows what it
    showed before. *)
Theorem SetCondition_last_call s calls ty :
  match lastCall ty calls with
  | Some (now, cond) =>
      ∃ c, conditionOf ty (applyCalls s calls) = Some c
           ∧ cond_LastUpdateTime c = now
           ∧ (cond_Status c, cond_Reason c, cond_Message c)
             = (cond_Status cond, cond_Reason cond, cond_Message cond)
  | None => conditionOf ty (applyCalls s calls) = conditionOf ty s
  end.
Proof.
  induction calls as [|[now cond] calls IH] using rev_ind; [done|].
  rewrite lastCall_snoc, applyCalls_snoc. cbn [snd]. case_decide as Hty.
  - subst ty. eexists. split; [apply conditionOf_SetCondition_own|].
    by rewrite cond_LastUpdateTime_SetCondition, cond_Status_SetCondition,
      cond_Reason_SetCondition, cond_Message_SetCondition.
  - by rewrite conditionOf_SetCondition_other.
Qed.
