(* ===== verification/Address.v ===== *)
(** * Address: the registry endpoint of a CatalogSource

    The two [Address] methods of catalogsource_types.go:
    [RegistryServiceStatus_Address] formats the in-cluster service name and
    [CatalogSource_Address] prefers the explicit address of the spec.  The
    second dereferences the status's [RegistryServiceStatus] pointer, so it
    panics on a source with neither an address nor a registry service.

    [Resolve] is the Catalog Address Resolver of the specification
    (section 4.2), written from the specification, and [reasonOf] the
    reason constant of the source a failure of it is reported under; the
    theorems say exactly when the source's [CatalogSource_Address] panics,
    when it returns the endpoint the specification asks for, and exhibit the
    case where it does not (image and address both set).  [Resolve] tests
    the source type first, which section 4.2 leaves implicit. *)

From Stdlib Require Import Ascii.
From stdpp Require Import base tactics option list strings gmap.
From S2P Require Import Prelude CatalogSourceTypes.

#[local] Open Scope string_scope.
#[local] Open Scope list_scope.

(** ** Operations of the source *)

(** [func (s *RegistryServiceStatus) Address() string]; the receiver is a
    pointer, [None] when nil. *)
Definition RegistryServiceStatus_Address (s : option RegistryServiceStatus)
  : outcome string :=
  s ← deref s;
  mret (rss_ServiceName s +:+ "." +:+ rss_ServiceNamespace s
        +:+ ".svc.cluster.local:" +:+ rss_Port s).

(** [func (c *CatalogSource) Address() string] *)
Definition CatalogSource_Address (c : CatalogSource) : outcome string :=
  if decide (spec_Address (cs_Spec c) ≠ "")
  then mret (spec_Address (cs_Spec c))
  else RegistryServiceStatus_Address (status_RegistryServiceStatus (cs_Status c)).

(** ** The resolver of the specification *)

Inductive ErrorKind : Type :=
| InvalidSourceType
| ConfigMapNotFound.

#[export] Instance ErrorKind_eq_dec : EqDecision ErrorKind.
Proof. solve_decision. Defined.

(** The reason code a resolver failure is reported under. *)
Definition reasonOf (e : ErrorKind) : CatalogSourceConditionReason :=
  match e with
  | InvalidSourceType => CatalogSourceReasonInvalidType
  | ConfigMapNotFound => CatalogSourceReasonConfigMapNotFound
  end.

Inductive resolution : Type :=
| Endpoint (address : string)
| NotReady
| Failed (e : ErrorKind).

#[export] Instance resolution_eq_dec : EqDecision resolution.
Proof. solve_decision. Defined.

(** The endpoint of a service-backed registry, once the service exists. *)
Definition serviceEndpoint (status : CatalogSourceStatus) : resolution :=
  match RegistryServiceStatus_Address (status_RegistryServiceStatus status) with
  | Returns a => Endpoint a
  | Panics _ => NotReady
  end.

(** Section 4.2: image over address for an address/image-backed source, the
    registry service for a config-map-backed one; [configMapFound] says
    whether the named config map exists. *)
Definition Resolve (configMapFound : bool) (spec : CatalogSourceSpec)
  (status : CatalogSourceStatus) : resolution :=
  if decide (spec_SourceType spec = SourceTypeGrpc) then
    if decide (spec_Image spec ≠ "") then serviceEndpoint status
    else if decide (spec_Address spec ≠ "") then Endpoint (spec_Address spec)
    else Failed InvalidSourceType
  else if decide (spec_SourceType spec = SourceTypeConfigmap
                  ∨ spec_SourceType spec = SourceTypeInternal) then
    if decide (spec_ConfigMap spec = "") then Failed ConfigMapNotFound
    else if configMapFound then serviceEndpoint status
    else Failed ConfigMapNotFound
  else Failed InvalidSourceType.

(** ** Specification devices *)

(** Kubernetes service and namespace names are DNS labels: no dot. *)
Definition dotless (s : string) : bool := negb (string_mem "."%char s).

Definition service_wf (s : RegistryServiceStatus) : Prop :=
  dotless (rss_ServiceName s) ∧ dotless (rss_ServiceNamespace s).

#[export] Instance service_wf_dec s : Decision (service_wf s).
Proof. unfold service_wf. apply _. Defined.

(** ** Example data *)

Definition ex_service : RegistryServiceStatus :=
  mkRegistryServiceStatus "grpc" "mock-ocs" "olm" "50051" 2.

(** The same service recreated later: another record with the same address. *)
Definition ex_service_later : RegistryServiceStatus :=
  mkRegistryServiceStatus "grpc" "mock-ocs" "olm" "50051" 9.

Definition ex_meta : ObjectMeta := mkObjectMeta "mock-ocs" "olm" "uid-1" "41".

Definition ex_type : TypeMeta :=
  mkTypeMeta CatalogSourceKind CatalogSourceCRDAPIVersion.

Definition ex_spec (ty : SourceType) (cm addr img : string) : CatalogSourceSpec :=
  mkCatalogSourceSpec ty cm addr img [] "Mock" "" "" (mkIcon "" "").

Definition ex_catalog (ty : SourceType) (cm addr img : string)
  (svc : option RegistryServiceStatus) : CatalogSource :=
  mkCatalogSource ex_type ex_meta (ex_spec ty cm addr img)
    (mkCatalogSourceStatus None svc [] 2).

(** ** Lemmas *)

Lemma RegistryServiceStatus_Address_Some s :
  RegistryServiceStatus_Address (Some s)
  = Returns (rss_ServiceName s +:+ "." +:+ rss_ServiceNamespace s
             +:+ ".svc.cluster.local:" +:+ rss_Port s).
Proof. reflexivity. Qed.

Lemma RegistryServiceStatus_Address_None :
  RegistryServiceStatus_Address None = Panics NilPointerDereference.
Proof. reflexivity. Qed.

Lemma serviceEndpoint_Endpoint status ep :
  serviceEndpoint status = Endpoint ep ↔
  RegistryServiceStatus_Address (status_RegistryServiceStatus status) = Returns ep.
Proof.
  unfold serviceEndpoint.
  destruct (RegistryServiceStatus_Address _); split; congruence.
Qed.

#[export] Hint Rewrite RegistryServiceStatus_Address_Some
  RegistryServiceStatus_Address_None : olm_rw.

(** [Resolve] reads the registry service of the status and nothing else
    of it. *)
Lemma Resolve_service found spec status status' :
  status_RegistryServiceStatus status = status_RegistryServiceStatus status' →
  Resolve found spec status = Resolve found spec status'.
Proof. unfold Resolve, serviceEndpoint. by intros ->. Qed.

(** Every endpoint [Resolve] yields is the explicit address or the
    service's. *)
Lemma Resolve_Endpoint_cases found spec status ep :
  Resolve found spec status = Endpoint ep →
  (spec_Address spec = ep ∧ spec_Address spec ≠ "")
  ∨ RegistryServiceStatus_Address (status_RegistryServiceStatus status) = Returns ep.
Proof.
  unfold Resolve. intros Hr.
  repeat case_decide; try destruct found; simplify_eq;
    try (right; by apply serviceEndpoint_Endpoint); by left.
Qed.

(** ** Theorems *)

(** C4. [CatalogSource.Address] panics exactly on a source that has neither
    an explicit address nor a registry service status: the state of every
    config-map-backed or image-backed catalog before its first
    reconciliation. *)
Theorem CatalogSource_Address_panics_iff c :
  CatalogSource_Address c = Panics NilPointerDereference
  ↔ spec_Address (cs_Spec c) = ""
    ∧ status_RegistryServiceStatus (cs_Status c) = None.
Proof.
  unfold CatalogSource_Address. case_decide as He.
  - naive_solver.
  - destruct (status_RegistryServiceStatus _); naive_solver.
Qed.

(** C5. Whenever the resolver of the specification yields an endpoint,
    [CatalogSource.Address] returns without panicking, and it returns that
    endpoint exactly when the spec's address is empty or is the endpoint
    itself. *)
Theorem Resolve_endpoint_Address found c ep :
  Resolve found (cs_Spec c) (cs_Status c) = Endpoint ep →
  returns (CatalogSource_Address c)
  ∧ (CatalogSource_Address c = Returns ep
     ↔ spec_Address (cs_Spec c) = "" ∨ spec_Address (cs_Spec c) = ep).
Proof.
  intros Hr. unfold CatalogSource_Address. case_decide as He.
  - split; [done|]. split; [intros [= ->]; by right|]. intros [?| ->]; done.
  - apply Resolve_Endpoint_cases in Hr as [[_ ?]| ->]; [done|]. naive_solver.
Qed.

Lemma Resolve_endpoint_Address_witness :
  returns (CatalogSource_Address
             (ex_catalog SourceTypeConfigmap "cm" "" "" (Some ex_service)))
  ∧ (CatalogSource_Address
       (ex_catalog SourceTypeConfigmap "cm" "" "" (Some ex_service))
     = Returns "mock-ocs.olm.svc.cluster.local:50051"
     ↔ "" = "" ∨ "" = "mock-ocs.olm.svc.cluster.local:50051").
Proof.
  by apply (Resolve_endpoint_Address true
              (ex_catalog SourceTypeConfigmap "cm" "" "" (Some ex_service))).
Defined.

(** C19. Image does not take precedence over address in the source: for a
    grpc catalog with both an image and an address set and its registry
    service running, the resolver of the specification yields the service's
    endpoint, while [CatalogSource.Address] returns the explicit address. *)
Theorem CatalogSource_Address_ignores_image found c svc :
  spec_SourceType (cs_Spec c) = SourceTypeGrpc →
  spec_Image (cs_Spec c) ≠ "" →
  spec_Address (cs_Spec c) ≠ "" →
  status_RegistryServiceStatus (cs_Status c) = Some svc →
  Resolve found (cs_Spec c) (cs_Status c)
  = Endpoint (rss_ServiceName svc +:+ "." +:+ rss_ServiceNamespace svc
              +:+ ".svc.cluster.local:" +:+ rss_Port svc)
  ∧ CatalogSource_Address c = Returns (spec_Address (cs_Spec c)).
Proof.
  intros Hty Himg Haddr Hsvc. unfold Resolve, serviceEndpoint, CatalogSource_Address.
  by rewrite !decide_True, Hsvc by done.
Qed.

Lemma CatalogSource_Address_ignores_image_witness :
  Resolve true (ex_spec SourceTypeGrpc "" "registry.example:50051" "quay.io/img:v1")
    (mkCatalogSourceStatus None (Some ex_service) [] 2)
  = Endpoint "mock-ocs.olm.svc.cluster.local:50051"
  ∧ CatalogSource_Address
      (ex_catalog SourceTypeGrpc "" "registry.example:50051" "quay.io/img:v1"
         (Some ex_service))
    = Returns "registry.example:50051".
Proof.
  by apply (CatalogSource_Address_ignores_image true
              (ex_catalog SourceTypeGrpc "" "registry.example:50051"
                 "quay.io/img:v1" (Some ex_service)) ex_service).
Defined.

(** C20. The service endpoint identifies the service: two registry services
    whose names and namespaces are DNS labels have the same address only if
    they have the same name, namespace and port. *)
Theorem RegistryServiceStatus_Address_inj s1 s2 :
  service_wf s1 → service_wf s2 →
  RegistryServiceStatus_Address (Some s1) = RegistryServiceStatus_Address (Some s2) →
  rss_ServiceName s1 = rss_ServiceName s2
  ∧ rss_ServiceNamespace s1 = rss_ServiceNamespace s2
  ∧ rss_Port s1 = rss_Port s2.
Proof.
  unfold service_wf, dotless.
  intros [Hn1 Hs1] [Hn2 Hs2] [= Heq].
  apply negb_prop_elim, Is_true_false in Hn1, Hs1, Hn2, Hs2.
  apply append_sep_inj in Heq as [Hname Heq]; [|done..].
  apply append_sep_inj in Heq as [Hns Heq]; [|done..].
  by simplify_eq/=.
Qed.

Lemma RegistryServiceStatus_Address_inj_witness :
  rss_ServiceName ex_service = rss_ServiceName ex_service_later
  ∧ rss_ServiceNamespace ex_service = rss_ServiceNamespace ex_service_later
  ∧ rss_Port ex_service = rss_Port ex_service_later.
Proof.
  apply (RegistryServiceStatus_Address_inj ex_service ex_service_later);
    [split; exact I..|reflexivity].
Defined.
