(* ===== verification/Subscription.v ===== *)
(** * Subscription: the subscription object and its derived state

    The types, constants and [GetInstallPlanApproval] of
    [src/pkg/api/apis/subscription/v1alpha1/types.go].  [Spec] is a pointer
    in the source, so [GetInstallPlanApproval] on a subscription without a
    spec panics.

    The Subscription State Machine of the specification (section 4.4) is
    [computeState], a total function of the installed version, the channel
    head and the pending-plan flag into the source's four state constants;
    [syncSubscription] is one reconcile of a subscription's status with it,
    consulting [GetInstallPlanApproval] to decide whether the resolver is
    to be invoked.  Both are written from the specification; the theorems
    of this file are about the method of the source, and the lemmas on the
    state machine serve [Install]. *)

From stdpp Require Import base tactics option list strings gmap.
From S2P Require Import Prelude CatalogSourceTypes.

#[local] Open Scope string_scope.
#[local] Open Scope list_scope.

(** ** Constants *)

Definition GroupVersion : string := "v1alpha1".
Definition SubscriptionKind : string := "Subscription-v1".
Definition SubscriptionListKind : string := "SubscriptionList-v1".
Definition SubscriptionCRDName : string := "subscription-v1s".
Definition SubscriptionCRDAPIVersion : string := "app.coreos.com/v1alpha1".

(** ** SubscriptionState *)

Definition SubscriptionState : Type := string.
Definition SubscriptionStateNone : SubscriptionState := "".
Definition SubscriptionStateUpgradeAvailable : SubscriptionState :=
  "UpgradeAvailable".
Definition SubscriptionStateUpgradePending : SubscriptionState :=
  "UpgradePending".
Definition SubscriptionStateAtLatest : SubscriptionState := "AtLatestKnown".

(** ** installplan/v1alpha1.Approval *)

Definition Approval : Type := string.
Definition ApprovalAutomatic : Approval := "Automatic".
Definition ApprovalManual : Approval := "Manual".

(** ** Records *)

Record SubscriptionSpec : Type := mkSubscriptionSpec {
  sspec_CatalogSource : string;
  sspec_Package : string;
  sspec_Channel : string;
  sspec_StartingCSV : string;
  sspec_InstallPlanApproval : Approval
}.

Record InstallPlanReference : Type := mkInstallPlanReference {
  ipr_APIVersion : string;
  ipr_Kind : string;
  ipr_Name : string;
  ipr_UID : UID
}.

Record SubscriptionStatus : Type := mkSubscriptionStatus {
  sstatus_CurrentCSV : string;
  sstatus_Install : option InstallPlanReference;
  sstatus_State : SubscriptionState;
  sstatus_LastUpdated : Time
}.

Record Subscription : Type := mkSubscription {
  sub_TypeMeta : TypeMeta;
  sub_ObjectMeta : ObjectMeta;
  sub_Spec : option SubscriptionSpec;
  sub_Status : SubscriptionStatus
}.

Record SubscriptionList : Type := mkSubscriptionList {
  subl_TypeMeta : TypeMeta;
  subl_ResourceVersion : string;
  subl_Items : list Subscription
}.

#[export] Instance SubscriptionSpec_eq_dec : EqDecision SubscriptionSpec.
Proof. solve_decision. Defined.
#[export] Instance InstallPlanReference_eq_dec : EqDecision InstallPlanReference.
Proof. solve_decision. Defined.
#[export] Instance SubscriptionStatus_eq_dec : EqDecision SubscriptionStatus.
Proof. unfold Time. solve_decision. Defined.
#[export] Instance Subscription_eq_dec : EqDecision Subscription.
Proof. solve_decision. Defined.

(** ** Operations of the source *)

(** [func (s *Subscription) GetInstallPlanApproval() v1alpha1.Approval] *)
Definition GetInstallPlanApproval (s : Subscription) : outcome Approval :=
  spec ← deref (sub_Spec s);
  if decide (sspec_InstallPlanApproval spec = ApprovalManual)
  then mret ApprovalManual
  else mret ApprovalAutomatic.

(** ** The state machine of the specification (section 4.4) *)

(** [installed] is the currently-installed version, [head] the channel head
    when the catalog publishes one, [pending] whether an unapproved plan
    for the head already exists. *)
Definition computeState (installed : string) (head : option string)
  (pending : bool) : SubscriptionState :=
  if decide (installed = "") then
    match head with
    | Some _ => SubscriptionStateUpgradeAvailable
    | None => SubscriptionStateNone
    end
  else if decide (head = Some installed) then SubscriptionStateAtLatest
  else if pending then SubscriptionStateUpgradePending
  else SubscriptionStateUpgradeAvailable.

(** What one reconcile of a subscription decides: the status to write and
    whether the resolver is to generate (and auto-approve) a plan. *)
Record syncResult : Type := mkSyncResult {
  sync_Status : SubscriptionStatus;
  sync_InvokeResolver : bool
}.

Definition set_sstatus_State (now : Time) (st : SubscriptionState)
  (s : SubscriptionStatus) : SubscriptionStatus :=
  mkSubscriptionStatus (sstatus_CurrentCSV s) (sstatus_Install s) st now.

(** One reconcile: recompute the state from the observed inputs, refresh
    the last-updated time, keep the installed-plan reference, and ask for
    the resolver only when an upgrade is available under automatic
    approval. *)
Definition syncSubscription (now : Time) (head : option string) (pending : bool)
  (s : Subscription) : outcome syncResult :=
  approval ← GetInstallPlanApproval s;
  let state := computeState (sstatus_CurrentCSV (sub_Status s)) head pending in
  mret (mkSyncResult (set_sstatus_State now state (sub_Status s))
          (bool_decide (state = SubscriptionStateUpgradeAvailable
                        ∧ approval = ApprovalAutomatic))).

Definition set_sub_Status (st : SubscriptionStatus) (s : Subscription)
  : Subscription :=
  mkSubscription (sub_TypeMeta s) (sub_ObjectMeta s) (sub_Spec s) st.

(** ** Specification devices *)

Definition validState (st : SubscriptionState) : Prop :=
  st ∈ [SubscriptionStateNone; SubscriptionStateUpgradeAvailable;
        SubscriptionStateUpgradePending; SubscriptionStateAtLatest].

#[export] Instance validState_dec st : Decision (validState st).
Proof. unfold validState. apply _. Defined.

(** ** Example data *)

Definition ex_sub_spec (approval : Approval) : SubscriptionSpec :=
  mkSubscriptionSpec "mock-ocs-main" "nginx" "stable" "" approval.

Definition ex_sub (approval : Approval) (installed : string) : Subscription :=
  mkSubscription (mkTypeMeta SubscriptionKind SubscriptionCRDAPIVersion)
    (mkObjectMeta "sub-1" "test" "uid-s" "7")
    (Some (ex_sub_spec approval))
    (mkSubscriptionStatus installed None SubscriptionStateNone 1).

Definition ex_sub_nospec : Subscription :=
  mkSubscription (mkTypeMeta SubscriptionKind SubscriptionCRDAPIVersion)
    (mkObjectMeta "sub-1" "test" "uid-s" "7") None
    (mkSubscriptionStatus "" None SubscriptionStateNone 1).

(** ** The approval mode *)

(** C6. [GetInstallPlanApproval] on a subscription with a spec returns one
    of the two approval constants, and returns [Manual] exactly when the
    spec says exactly ["Manual"]: the empty string and every other spelling
    mean automatic approval. *)
Theorem GetInstallPlanApproval_normalises s spec :
  sub_Spec s = Some spec →
  ∃ a, GetInstallPlanApproval s = Returns a
       ∧ (a = ApprovalManual ∨ a = ApprovalAutomatic)
       ∧ (a = ApprovalManual ↔ sspec_InstallPlanApproval spec = ApprovalManual).
Proof.
  unfold GetInstallPlanApproval. intros ->. simpl. case_decide.
  - eexists. by split_and!; [|left|].
  - eexists. by split_and!; [|right|].
Qed.

Lemma GetInstallPlanApproval_normalises_witness :
  ∃ a, GetInstallPlanApproval (ex_sub "manual" "") = Returns a
       ∧ (a = ApprovalManual ∨ a = ApprovalAutomatic)
       ∧ (a = ApprovalManual ↔ "manual" = ApprovalManual).
Proof.
  exact (GetInstallPlanApproval_normalises (ex_sub "manual" "")
           (ex_sub_spec "manual") eq_refl).
Defined.

(** C23. [GetInstallPlanApproval] panics with a nil dereference exactly when
    the subscription has no spec. *)
Theorem GetInstallPlanApproval_panics_iff s :
  GetInstallPlanApproval s = Panics NilPointerDereference ↔ sub_Spec s = None.
Proof.
  unfold GetInstallPlanApproval. destruct (sub_Spec s) as [spec|]; simpl; [|done].
  by case_decide.
Qed.

(** ** The state machine *)

Lemma GetInstallPlanApproval_Some s spec :
  sub_Spec s = Some spec →
  GetInstallPlanApproval s
  = Returns (if decide (sspec_InstallPlanApproval spec = ApprovalManual)
             then ApprovalManual else ApprovalAutomatic).
Proof. unfold GetInstallPlanApproval. intros ->. simpl. by case_decide. Qed.

Lemma syncSubscription_Some now head pending s spec :
  sub_Spec s = Some spec →
  syncSubscription now head pending s
  = let state := computeState (sstatus_CurrentCSV (sub_Status s)) head pending in
    Returns (mkSyncResult (set_sstatus_State now state (sub_Status s))
               (bool_decide (state = SubscriptionStateUpgradeAvailable
                             ∧ sspec_InstallPlanApproval spec ≠ ApprovalManual))).
Proof.
  intros Hs. unfold syncSubscription.
  rewrite (GetInstallPlanApproval_Some _ _ Hs). simpl. do 2 f_equal.
  apply bool_decide_ext. case_decide; naive_solver.
Qed.

Lemma computeState_cases installed head pending :
  computeState installed head pending
  = if decide (installed = "") then
      if decide (head = None) then SubscriptionStateNone
      else SubscriptionStateUpgradeAvailable
    else if decide (head = Some installed) then SubscriptionStateAtLatest
    else if pending then SubscriptionStateUpgradePending
    else SubscriptionStateUpgradeAvailable.
Proof. unfold computeState. by destruct head; repeat case_decide. Qed.

(** Reconciling is idempotent: a second reconcile of the subscription
    as the first one left it, under the same observed inputs and at any
    later clock reading, writes the same state and takes the same decision;
    only the last-updated time moves. *)
Theorem syncSubscription_idempotent now now' head pending s spec :
  sub_Spec s = Some spec →
  ∃ r r', syncSubscription now head pending s = Returns r
          ∧ syncSubscription now' head pending (set_sub_Status (sync_Status r) s)
            = Returns r'
          ∧ sync_Status r' = set_sstatus_State now'
                               (sstatus_State (sync_Status r)) (sync_Status r)
          ∧ sync_InvokeResolver r' = sync_InvokeResolver r.
Proof.
  intros Hs. rewrite (syncSubscription_Some _ _ _ _ _ Hs).
  eexists _, _. split; [done|].
  by rewrite (syncSubscription_Some _ _ _ _ spec).
Qed.

Lemma syncSubscription_idempotent_witness :
  ∃ r r', syncSubscription 5 (Some "v2") true (ex_sub ApprovalManual "v1")
          = Returns r
          ∧ syncSubscription 9 (Some "v2") true
              (set_sub_Status (sync_Status r) (ex_sub ApprovalManual "v1"))
            = Returns r'
          ∧ sync_Status r' = set_sstatus_State 9
                               (sstatus_State (sync_Status r)) (sync_Status r)
          ∧ sync_InvokeResolver r' = sync_InvokeResolver r.
Proof.
  exact (syncSubscription_idempotent 5 9 (Some "v2") true
           (ex_sub ApprovalManual "v1") (ex_sub_spec ApprovalManual) eq_refl).
Defined.
