(* ===== verification/Reconciler.v ===== *)
(** * Reconciler: the Catalog Health Reconciler

    Section 4.3 of the specification: the state machine that keeps the
    status of one CatalogSource current.  No reconciler is under [src/]; the
    pass is written from the specification, on top of the operations of the
    source it is specified to use: [SetCondition] with the constructors
    [CatalogSourceConditionFailed] and [CatalogSourceConditionMet] for the
    conditions, and the resolver of [Address] for the endpoint.

    One pass ([syncCatalog]) reads an [Observation] of the cluster (the
    clock, the backing config map, the registry service and whether its
    endpoint answers) and computes a full replacement status.  The
    reconciler's memory for a key is the identity it recorded at its last
    pass; a different identity under the same name is a replacement, and the
    old status is dropped before anything is merged.  [step] is the
    transition relation of one key: a pass, a change of the spec by the
    owner, or the deletion of the object and the creation of another one
    under the same name, which may arrive with the old status copied onto
    it.  The invariants are proved by induction on the runs of [step]. *)

From stdpp Require Import base tactics option list strings gmap.
From S2P Require Import Prelude CatalogSourceTypes Conditions Address.

#[local] Open Scope string_scope.
#[local] Open Scope list_scope.
#[local] Open Scope Z_scope.

(** ** Data *)

Inductive Phase : Type :=
| Unsynced
| Resolving
| Healthy
| Replaced.

#[export] Instance Phase_eq_dec : EqDecision Phase.
Proof. solve_decision. Defined.

(** The backing config map as the cache shows it: the fields the status
    reference records. *)
Record ConfigMap : Type := mkConfigMap {
  cmap_Name : string;
  cmap_Namespace : string;
  cmap_UID : UID;
  cmap_ResourceVersion : string
}.

#[export] Instance ConfigMap_eq_dec : EqDecision ConfigMap.
Proof. solve_decision. Defined.

(** What one pass observes. *)
Record Observation : Type := mkObservation {
  obs_now : Time;
  obs_ConfigMap : option ConfigMap;
  obs_Service : option RegistryServiceStatus;
  obs_Reachable : bool
}.

(** What one pass decides: the phase, the replacement status and the
    identity recorded for the key. *)
Record PassResult : Type := mkPassResult {
  pass_Phase : Phase;
  pass_Status : CatalogSourceStatus;
  pass_Recorded : UID
}.

#[export] Instance PassResult_eq_dec : EqDecision PassResult.
Proof. solve_decision. Defined.

(** ** The pass *)

(** The status of an object no pass has touched. *)
Definition emptyStatus : CatalogSourceStatus :=
  mkCatalogSourceStatus None None [] zeroTime.

Definition configMapReference (cm : ConfigMap) : ConfigMapResourceReference :=
  mkConfigMapResourceReference (cmap_Name cm) (cmap_Namespace cm) (cmap_UID cm)
    (cmap_ResourceVersion cm).

(** Same name, different stable identity than the one recorded. *)
Definition detectReplaced (recorded : option UID) (cs : CatalogSource) : bool :=
  match recorded with
  | Some uid => bool_decide (uid ≠ om_UID (cs_ObjectMeta cs))
  | None => false
  end.

(** The status a pass starts from: the object's, unless the object replaces
    the one recorded. *)
Definition startStatus (recorded : option UID) (cs : CatalogSource)
  : CatalogSourceStatus :=
  if detectReplaced recorded cs then emptyStatus else cs_Status cs.

Definition configMapBacked (spec : CatalogSourceSpec) : bool :=
  bool_decide (spec_SourceType spec = SourceTypeConfigmap
               ∨ spec_SourceType spec = SourceTypeInternal).

(** The text of a resolver error. *)
Definition errorText (e : ErrorKind) (spec : CatalogSourceSpec) : string :=
  match e with
  | InvalidSourceType => "unknown source type: " +:+ spec_SourceType spec
  | ConfigMapNotFound => "failed to get catalog config map " +:+ spec_ConfigMap spec
  end.

(** [Available=True] with the reason [RegistryHealthy]. *)
Definition healthyCondition : CatalogSourceCondition :=
  let met := CatalogSourceConditionMet CatalogSourceAvailable in
  mkCatalogSourceCondition (cond_Type met) (cond_Status met)
    (cond_LastUpdateTime met) (cond_LastTransitionTime met)
    CatalogSourceReasonRegistryHealthy (cond_Message met).

(** What the pass records of the cluster before it resolves: the registry
    service, once it exists. *)
Definition observeService (obs : Observation) (status : CatalogSourceStatus)
  : CatalogSourceStatus :=
  set_status_RegistryServiceStatus (obs_Service obs) status.

(** The healthy branch: config-map reference (for a config-map-backed
    source), condition, last-sync stamp. *)
Definition markHealthy (obs : Observation) (spec : CatalogSourceSpec)
  (status : CatalogSourceStatus) : CatalogSourceStatus :=
  let status :=
    if configMapBacked spec
    then set_status_ConfigMapResource (configMapReference <$> obs_ConfigMap obs)
           status
    else status in
  let status := (SetCondition (obs_now obs) status healthyCondition).1 in
  set_status_LastSync (obs_now obs) status.

(** The failure branch: [Available=False] under the resolver's reason. *)
Definition markFailed (obs : Observation) (spec : CatalogSourceSpec)
  (e : ErrorKind) (status : CatalogSourceStatus) : outcome CatalogSourceStatus :=
  cond ← CatalogSourceConditionFailed CatalogSourceAvailable (reasonOf e)
           (Some (errorText e spec));
  mret (SetCondition (obs_now obs) status cond).1.

(** One pass over one CatalogSource. *)
Definition syncCatalog (recorded : option UID) (obs : Observation)
  (cs : CatalogSource) : outcome PassResult :=
  let uid := om_UID (cs_ObjectMeta cs) in
  let status := observeService obs (startStatus recorded cs) in
  match Resolve (bool_decide (is_Some (obs_ConfigMap obs))) (cs_Spec cs) status with
  | Failed e =>
      status ← markFailed obs (cs_Spec cs) e status;
      mret (mkPassResult Resolving status uid)
  | NotReady => mret (mkPassResult Resolving status uid)
  | Endpoint _ =>
      if obs_Reachable obs
      then mret (mkPassResult Healthy (markHealthy obs (cs_Spec cs) status) uid)
      else mret (mkPassResult Resolving status uid)
  end.

(** ** The state of one key and its transitions *)

(** The object as the cluster stores it; the phase and the identity the
    reconciler holds for the key; the clock reading of the last event.
    [ks_Created] (when the stored object was created) and [ks_Retired] (the
    identities of the objects deleted under the key) are not read by the
    reconciler: the invariants are stated with them. *)
Record KeyState : Type := mkKeyState {
  ks_Object : CatalogSource;
  ks_Phase : Phase;
  ks_Recorded : option UID;
  ks_Clock : Time;
  ks_Created : Time;
  ks_Retired : list UID
}.

(** A fresh object under its key: no status, nothing recorded. *)
Definition initKey (cs : CatalogSource) (now : Time) : KeyState :=
  mkKeyState (set_cs_Status emptyStatus cs) Unsynced None now now [].

(** Writing the result of a pass. *)
Definition writePass (st : KeyState) (obs : Observation) (r : PassResult)
  : KeyState :=
  mkKeyState (set_cs_Status (pass_Status r) (ks_Object st)) (pass_Phase r)
    (Some (pass_Recorded r)) (obs_now obs) (ks_Created st) (ks_Retired st).

(** One reconciliation of the key: the pass and the write.  A pass that
    panics writes nothing. *)
Definition reconcileKey (obs : Observation) (st : KeyState) : KeyState :=
  match syncCatalog (ks_Recorded st) obs (ks_Object st) with
  | Returns r => writePass st obs r
  | Panics _ => st
  end.

(** The phase the reconciler is in when it looks at the key. *)
Definition observedPhase (st : KeyState) : Phase :=
  if detectReplaced (ks_Recorded st) (ks_Object st) then Replaced
  else match ks_Recorded st with
       | None => Unsynced
       | Some _ => ks_Phase st
       end.

(** The owner changes the spec of the object. *)
Definition setSpec (spec : CatalogSourceSpec) (cs : CatalogSource) : CatalogSource :=
  mkCatalogSource (cs_TypeMeta cs) (cs_ObjectMeta cs) spec (cs_Status cs).

(** The owner deletes the object and creates one under the same name: a new
    identity, and either no status or ([carry]) the status of the old
    object copied onto the new one. *)
Definition recreate (uid : UID) (spec : CatalogSourceSpec) (carry : bool)
  (cs : CatalogSource) : CatalogSource :=
  let meta := cs_ObjectMeta cs in
  mkCatalogSource (cs_TypeMeta cs)
    (mkObjectMeta (om_Name meta) (om_Namespace meta) uid (om_ResourceVersion meta))
    spec (if carry then cs_Status cs else emptyStatus).

Definition setSpecKey (spec : CatalogSourceSpec) (st : KeyState) : KeyState :=
  mkKeyState (setSpec spec (ks_Object st)) (ks_Phase st) (ks_Recorded st)
    (ks_Clock st) (ks_Created st) (ks_Retired st).

Definition recreateKey (uid : UID) (spec : CatalogSourceSpec) (carry : bool)
  (now : Time) (st : KeyState) : KeyState :=
  mkKeyState (recreate uid spec carry (ks_Object st)) (ks_Phase st)
    (ks_Recorded st) now now
    (om_UID (cs_ObjectMeta (ks_Object st)) :: ks_Retired st).

(** The events of a key: a pass at a clock reading no earlier than the
    last event; a change of spec; a replacement by an object whose identity
    was never used under the key. *)
Inductive step : KeyState → KeyState → Prop :=
| step_reconcile obs st :
    ks_Clock st ≤ obs_now obs →
    step st (reconcileKey obs st)
| step_setSpec spec st :
    step st (setSpecKey spec st)
| step_recreate uid spec carry now st :
    uid ≠ om_UID (cs_ObjectMeta (ks_Object st)) →
    (uid ∉ ks_Retired st) →
    ks_Clock st ≤ now →
    step st (recreateKey uid spec carry now st).

(** Runs, built at the end so that induction follows the order of events. *)
Inductive steps : KeyState → KeyState → Prop :=
| steps_refl st : steps st st
| steps_snoc st st' st'' : steps st st' → step st' st'' → steps st st''.

(** ** Specification devices *)

(** The condition [Available=False] a resolver failure is reported as. *)
Definition failedCondition (e : ErrorKind) (spec : CatalogSourceSpec)
  : CatalogSourceCondition :=
  mkCatalogSourceCondition CatalogSourceAvailable ConditionFalse zeroTime zeroTime
    (reasonOf e) (errorText e spec).

(** The status a pass writes, as a function of the status it starts from. *)
Definition passStatus (obs : Observation) (spec : CatalogSourceSpec)
  (start : CatalogSourceStatus) : CatalogSourceStatus :=
  let status := observeService obs start in
  match Resolve (bool_decide (is_Some (obs_ConfigMap obs))) spec status with
  | Failed e => (SetCondition (obs_now obs) status (failedCondition e spec)).1
  | NotReady => status
  | Endpoint _ => if obs_Reachable obs then markHealthy obs spec status else status
  end.

Definition passPhase (obs : Observation) (spec : CatalogSourceSpec) : Phase :=
  match Resolve (bool_decide (is_Some (obs_ConfigMap obs))) spec
          (observeService obs emptyStatus) with
  | Endpoint _ => if obs_Reachable obs then Healthy else Resolving
  | _ => Resolving
  end.

(** The condition a status shows for [Available]. *)
Definition available (status : CatalogSourceStatus) : option CatalogSourceCondition :=
  conditionOf CatalogSourceAvailable status.

(** A status written since [created] and no later than [now]: no condition
    type twice; every condition changed status no earlier than [created],
    was updated no earlier than that and no later than [now]; the last
    sync, if there was one, lies between the two. *)
Definition status_ok (created now : Time) (status : CatalogSourceStatus) : Prop :=
  NoDup (conditionTypes status)
  ∧ Forall (λ c, created ≤ cond_LastTransitionTime c
                 ∧ cond_LastTransitionTime c ≤ cond_LastUpdateTime c
                 ∧ cond_LastUpdateTime c ≤ now) (status_Conditions status)
  ∧ (status_LastSync status = zeroTime
     ∨ created ≤ status_LastSync status ∧ status_LastSync status ≤ now).

#[export] Instance status_ok_dec created now status :
  Decision (status_ok created now status).
Proof. unfold status_ok. apply _. Defined.

(** What a status written by a healthy pass at [now] shows. *)
Definition healthy_shows (now : Time) (status : CatalogSourceStatus) : Prop :=
  (∃ c, available status = Some c
        ∧ cond_Status c = ConditionTrue
        ∧ cond_Reason c = CatalogSourceReasonRegistryHealthy)
  ∧ status_LastSync status = now.

(** The invariant of a key.  Until a pass has run under the key every
    object has an empty status; the identity recorded is the stored
    object's or a retired one; and once the stored object has been
    reconciled its status was written since the object was created. *)
Definition key_inv (st : KeyState) : Prop :=
  let uid := om_UID (cs_ObjectMeta (ks_Object st)) in
  let status := cs_Status (ks_Object st) in
  ks_Created st ≤ ks_Clock st
  ∧ (uid ∉ ks_Retired st)
  ∧ (ks_Recorded st = None → status = emptyStatus)
  ∧ (∀ u, ks_Recorded st = Some u → u = uid ∨ u ∈ ks_Retired st)
  ∧ (ks_Recorded st = Some uid →
     status_ok (ks_Created st) (ks_Clock st) status
     ∧ (ks_Phase st = Healthy → healthy_shows (ks_Clock st) status)).

(** ** Example data *)

Definition ex_configMap : ConfigMap := mkConfigMap "mock-ocs" "olm" "cm-uid-1" "100".

Definition ex_configMap' : ConfigMap := mkConfigMap "mock-ocs" "olm" "cm-uid-1" "101".

Definition ex_obs (now : Time) (cm : option ConfigMap) (reachable : bool)
  : Observation :=
  mkObservation now cm (Some ex_service) reachable.

Definition ex_internal : CatalogSource :=
  mkCatalogSource ex_type ex_meta (ex_spec SourceTypeInternal "mock-ocs" "" "")
    emptyStatus.

(** A run: the catalog is reconciled at 2, replaced at 3 by an object that
    carries the old status, and reconciled at 4 while its config map is
    missing. *)
Definition ex_key1 : KeyState :=
  reconcileKey (ex_obs 2 (Some ex_configMap) true) (initKey ex_internal 1).

Definition ex_key2 : KeyState :=
  recreateKey "uid-2" (ex_spec SourceTypeInternal "mock-ocs" "" "") true 3 ex_key1.

Definition ex_key3 : KeyState := reconcileKey (ex_obs 4 None true) ex_key2.

(** ** Lemmas on the pass *)

Lemma markFailed_Returns obs spec e status :
  markFailed obs spec e status
  = Returns (SetCondition (obs_now obs) status (failedCondition e spec)).1.
Proof. reflexivity. Qed.

(** The pass without the monad: it always returns. *)
Lemma syncCatalog_Returns recorded obs cs :
  syncCatalog recorded obs cs
  = let status := observeService obs (startStatus recorded cs) in
    let uid := om_UID (cs_ObjectMeta cs) in
    Returns
      match Resolve (bool_decide (is_Some (obs_ConfigMap obs))) (cs_Spec cs) status with
      | Failed e =>
          mkPassResult Resolving
            (SetCondition (obs_now obs) status (failedCondition e (cs_Spec cs))).1 uid
      | NotReady => mkPassResult Resolving status uid
      | Endpoint _ =>
          if obs_Reachable obs
          then mkPassResult Healthy (markHealthy obs (cs_Spec cs) status) uid
          else mkPassResult Resolving status uid
      end.
Proof.
  unfold syncCatalog. simpl. destruct (Resolve _ _ _); [|done..].
  by destruct (obs_Reachable obs).
Qed.

Lemma startStatus_same cs :
  startStatus (Some (om_UID (cs_ObjectMeta cs))) cs = cs_Status cs.
Proof. unfold startStatus. simpl. by rewrite bool_decide_eq_false_2 by auto. Qed.

Lemma startStatus_written status cs :
  startStatus (Some (om_UID (cs_ObjectMeta cs))) (set_cs_Status status cs) = status.
Proof. apply (startStatus_same (set_cs_Status status cs)). Qed.

Lemma startStatus_replaced uid cs :
  uid ≠ om_UID (cs_ObjectMeta cs) → startStatus (Some uid) cs = emptyStatus.
Proof. intros Hne. unfold startStatus. simpl. by rewrite bool_decide_eq_true_2. Qed.

(** ** Lemmas on [status_ok] *)

Lemma status_ok_empty created now : status_ok created now emptyStatus.
Proof. split_and!; [apply NoDup_nil_2|apply Forall_nil_2|by left]. Qed.

Lemma status_ok_mono created now now' status :
  status_ok created now status → now ≤ now' → status_ok created now' status.
Proof.
  intros (Hnd & Hall & Hsync) Hle. split_and!; [done| |lia].
  eapply Forall_impl; [done|]. simpl. lia.
Qed.

Lemma status_ok_observeService created now obs status :
  status_ok created now status → status_ok created now (observeService obs status).
Proof. done. Qed.

Lemma status_ok_SetCondition created now status cond :
  status_ok created now status → created ≤ now →
  status_ok created now (SetCondition now status cond).1.
Proof.
  intros (Hnd & Hall & Hsync) Hle. split_and!.
  - by apply NoDup_conditionTypes_SetCondition.
  - apply SetCondition_Forall; [done|].
    destruct (SetCondition_applied_cases now status cond)
      as [->|(e & He & _ & ->)]; simpl; [lia|].
    eapply Forall_forall in Hall; [|done]. simpl in Hall. lia.
  - by rewrite (proj2 (proj2 (SetCondition_frame now status cond))).
Qed.

Lemma status_ok_markHealthy created obs spec status :
  status_ok created (obs_now obs) status → created ≤ obs_now obs →
  status_ok created (obs_now obs) (markHealthy obs spec status).
Proof.
  intros Hok Hle. unfold markHealthy.
  match goal with
  | |- context [SetCondition ?now ?s ?c] =>
      assert (status_ok created now (SetCondition now s c).1) as (Hnd & Hall & _)
  end.
  { apply status_ok_SetCondition; [|done]. by destruct (configMapBacked spec). }
  split_and!; [done..|]. right. simpl. lia.
Qed.

Lemma healthy_shows_markHealthy obs spec status :
  healthy_shows (obs_now obs) (markHealthy obs spec status).
Proof.
  unfold healthy_shows, markHealthy, available, conditionOf. split; [|done].
  match goal with
  | |- context [SetCondition ?now ?s ?c] =>
      destruct (find_key_SetCondition now s c) as [i Hf];
      exists (SetCondition now s c).2
  end.
  split_and!.
  - by apply find_key_lookup_key in Hf.
  - by rewrite cond_Status_SetCondition.
  - by rewrite cond_Reason_SetCondition.
Qed.

(** The result of a pass from a status that is in order is in order, and a
    healthy result shows it. *)
Lemma syncCatalog_ok created recorded obs cs r :
  syncCatalog recorded obs cs = Returns r →
  status_ok created (obs_now obs) (startStatus recorded cs) →
  created ≤ obs_now obs →
  pass_Recorded r = om_UID (cs_ObjectMeta cs)
  ∧ status_ok created (obs_now obs) (pass_Status r)
  ∧ (pass_Phase r = Healthy → healthy_shows (obs_now obs) (pass_Status r)).
Proof.
  rewrite syncCatalog_Returns. simpl. intros [= <-] Hok Hle.
  apply (status_ok_observeService _ _ obs) in Hok.
  destruct (Resolve _ _ _); [destruct (obs_Reachable obs)|..]; simpl;
    split_and!; try done.
  - by apply status_ok_markHealthy.
  - intros _. apply healthy_shows_markHealthy.
  - by apply status_ok_SetCondition.
Qed.

(** ** Lemmas on the key *)

(** The status a pass starts from is in order whenever the key is. *)
Lemma key_inv_startStatus st now :
  key_inv st → ks_Clock st ≤ now →
  status_ok (ks_Created st) now (startStatus (ks_Recorded st) (ks_Object st)).
Proof.
  intros (Hc & _ & Hnone & _ & Hsome) Hle.
  destruct (ks_Recorded st) as [u|] eqn:Hrec.
  - destruct (decide (u = om_UID (cs_ObjectMeta (ks_Object st)))) as [->|Hne].
    + rewrite startStatus_same. eapply status_ok_mono; [by apply Hsome|done].
    + rewrite startStatus_replaced by done. apply status_ok_empty.
  - unfold startStatus. simpl. rewrite Hnone by done. apply status_ok_empty.
Qed.

Lemma key_inv_init cs now : key_inv (initKey cs now).
Proof.
  unfold key_inv, initKey. simpl.
  split_and!; [done|apply not_elem_of_nil|done..].
Qed.

Lemma key_inv_step st st' : key_inv st → step st st' → key_inv st'.
Proof.
  intros Hinv Hstep. destruct Hstep as [obs st Hle|spec st|uid spec carry now st Hne Hfresh Hle].
  - pose proof (key_inv_startStatus st _ Hinv Hle) as Hstart.
    destruct Hinv as (Hc & Hret & _). unfold reconcileKey.
    destruct (syncCatalog _ _ _) as [r|] eqn:Hr;
      [|by rewrite syncCatalog_Returns in Hr].
    apply (syncCatalog_ok (ks_Created st)) in Hr as (Hrec & Hok & Hh);
      [|done|lia].
    unfold key_inv, writePass. simpl. rewrite Hrec.
    split_and!; [lia|done|done|by intros u [= <-]; left|done].
  - done.
  - destruct Hinv as (Hc & Hret & Hnone & Hsome & _). unfold key_inv. simpl.
    split_and!.
    + done.
    + by intros [?|?]%elem_of_cons.
    + intros Hrec. rewrite (Hnone Hrec). by destruct carry.
    + intros u Hu. right. apply elem_of_cons.
      destruct (Hsome u Hu) as [->|?]; auto.
    + intros Hu. destruct (Hsome uid Hu) as [?|?]; done.
Qed.

(** ** Lemmas on re-running a pass *)

Lemma markHealthy_fields obs spec status :
  status_ConfigMapResource (markHealthy obs spec status)
  = (if configMapBacked spec then configMapReference <$> obs_ConfigMap obs
     else status_ConfigMapResource status)
  ∧ status_RegistryServiceStatus (markHealthy obs spec status)
    = status_RegistryServiceStatus status
  ∧ status_Conditions (markHealthy obs spec status)
    = status_Conditions (SetCondition (obs_now obs) status healthyCondition).1
  ∧ status_LastSync (markHealthy obs spec status) = obs_now obs.
Proof.
  unfold markHealthy. set (s := if configMapBacked spec then _ else status).
  cbn [set_status_LastSync status_ConfigMapResource status_RegistryServiceStatus
       status_Conditions status_LastSync].
  destruct (SetCondition_frame (obs_now obs) s healthyCondition) as (-> & -> & _).
  rewrite (SetCondition_ext (obs_now obs) s status healthyCondition)
    by (unfold s; by destruct (configMapBacked spec)).
  unfold s. by destruct (configMapBacked spec).
Qed.

Lemma markHealthy_idem obs spec status :
  markHealthy obs spec (markHealthy obs spec status) = markHealthy obs spec status.
Proof.
  destruct (markHealthy_fields obs spec status) as (Hcm & Hsvc & Hconds & Hsync).
  destruct (markHealthy_fields obs spec (markHealthy obs spec status))
    as (Hcm' & Hsvc' & Hconds' & Hsync').
  apply CatalogSourceStatus_eq; [|congruence| |congruence].
  - rewrite Hcm', Hcm. by destruct (configMapBacked spec).
  - rewrite Hconds', Hconds.
    rewrite (SetCondition_ext _ (markHealthy obs spec status)
               (SetCondition (obs_now obs) status healthyCondition).1) by done.
    by rewrite SetCondition_idem.
Qed.

Lemma observeService_idem obs status :
  status_RegistryServiceStatus status = obs_Service obs →
  observeService obs status = status.
Proof. intros Hs. by apply CatalogSourceStatus_eq. Qed.

Lemma syncCatalog_pass recorded obs cs :
  syncCatalog recorded obs cs
  = Returns (mkPassResult (passPhase obs (cs_Spec cs))
               (passStatus obs (cs_Spec cs) (startStatus recorded cs))
               (om_UID (cs_ObjectMeta cs))).
Proof.
  rewrite syncCatalog_Returns. unfold passPhase, passStatus. simpl.
  rewrite (Resolve_service _ _ (observeService obs emptyStatus)
             (observeService obs (startStatus recorded cs))) by done.
  destruct (Resolve _ _ _); [|done..]. by destruct (obs_Reachable obs).
Qed.

Lemma passStatus_service obs spec start :
  status_RegistryServiceStatus (passStatus obs spec start) = obs_Service obs.
Proof.
  unfold passStatus. destruct (Resolve _ _ _); [destruct (obs_Reachable obs)|..];
    try done.
  - by rewrite (proj1 (proj2 (markHealthy_fields _ _ _))).
  - by rewrite (proj1 (proj2 (SetCondition_frame _ _ _))).
Qed.

Lemma passStatus_idem obs spec start :
  passStatus obs spec (passStatus obs spec start) = passStatus obs spec start.
Proof.
  unfold passStatus at 1.
  rewrite observeService_idem by apply passStatus_service.
  rewrite (Resolve_service _ _ _ (observeService obs start))
    by by rewrite passStatus_service.
  unfold passStatus.
  destruct (Resolve _ _ _); [destruct (obs_Reachable obs)|..]; try done.
  - apply markHealthy_idem.
  - match goal with
    | |- context [SetCondition ?now ?s ?c] => by rewrite (SetCondition_idem now s c)
    end.
Qed.

Lemma reconcileKey_eq obs st :
  reconcileKey obs st
  = mkKeyState
      (set_cs_Status
         (passStatus obs (cs_Spec (ks_Object st))
            (startStatus (ks_Recorded st) (ks_Object st)))
         (ks_Object st))
      (passPhase obs (cs_Spec (ks_Object st)))
      (Some (om_UID (cs_ObjectMeta (ks_Object st))))
      (obs_now obs) (ks_Created st) (ks_Retired st).
Proof. unfold reconcileKey. by rewrite syncCatalog_pass. Qed.

Lemma steps_ex_key3 : steps (initKey ex_internal 1) ex_key3.
Proof.
  eapply steps_snoc; [eapply steps_snoc; [eapply steps_snoc|]|].
  - apply steps_refl.
  - by apply (step_reconcile (ex_obs 2 (Some ex_configMap) true)).
  - apply (step_recreate "uid-2" (ex_spec SourceTypeInternal "mock-ocs" "" "")
             true 3 ex_key1); [done| |done].
    apply not_elem_of_nil.
  - by apply (step_reconcile (ex_obs 4 None true)).
Qed.

(** The invariant holds along every run. *)
Lemma key_inv_steps st st' : steps st st' → key_inv st → key_inv st'.
Proof.
  induction 1 as [|st st' st'' _ IH Hstep]; [done|].
  intros Hinv. eapply key_inv_step; [by apply IH|done].
Qed.

(** ** Theorems *)

(** C10. Invariant of a key.  In every state a key reaches from a fresh
    object, by passes, changes of spec and replacements in any order: the
    identity recorded is the stored object's or a retired one; and once the
    stored object has been reconciled, its status holds no condition type
    twice, every condition changed status no earlier than the object was
    created and was updated between its transition and the last pass, the
    last sync lies in the object's lifetime, and in phase [Healthy] the
    status shows [Available=True] for the reason [RegistryHealthy] with the
    last sync at the last pass. *)
Theorem steps_key_inv cs now st : steps (initKey cs now) st → key_inv st.
Proof. intros Hrun. eapply key_inv_steps; [done|apply key_inv_init]. Qed.

Lemma steps_key_inv_witness : key_inv ex_key3.
Proof. exact (steps_key_inv ex_internal 1 ex_key3 steps_ex_key3). Defined.

(** The recorded identity of a reachable key never is an identity that has
    not been used under the key yet. *)
Lemma key_inv_recorded_fresh st uid u :
  key_inv st → uid ≠ om_UID (cs_ObjectMeta (ks_Object st)) →
  uid ∉ ks_Retired st → ks_Recorded st = Some u → u ≠ uid.
Proof.
  intros (_ & _ & _ & Hsome & _) Hne Hfresh Hrec ->.
  by destruct (Hsome _ Hrec) as [?|?].
Qed.

(** C11. A replacement carries nothing over.  When the object of a key is
    deleted and another is created under its name, the reconciler finds the
    key in phase [Replaced] (or [Unsynced], if it never ran a pass for the
    key), and the first pass over the new object writes the status a pass
    writes onto an empty status, whatever the old object's status was and
    even if it was copied onto the new object. *)
Theorem recreate_drops_status cs now st uid spec carry now' obs :
  steps (initKey cs now) st →
  uid ≠ om_UID (cs_ObjectMeta (ks_Object st)) →
  uid ∉ ks_Retired st →
  observedPhase (recreateKey uid spec carry now' st)
  = match ks_Recorded st with Some _ => Replaced | None => Unsynced end
  ∧ cs_Status (ks_Object (reconcileKey obs (recreateKey uid spec carry now' st)))
    = passStatus obs spec emptyStatus.
Proof.
  intros Hinv%key_inv_steps Hne Hfresh; [|apply key_inv_init].
  pose proof (key_inv_recorded_fresh st uid) as Hrec.
  rewrite reconcileKey_eq. unfold observedPhase, detectReplaced. simpl.
  destruct (ks_Recorded st) as [u|] eqn:Hu.
  - rewrite bool_decide_eq_true_2 by eauto. split; [done|]. f_equal.
    apply startStatus_replaced. eauto.
  - split; [done|]. f_equal. unfold startStatus. simpl.
    destruct Hinv as (_ & _ & Hnone & _). rewrite Hnone by done.
    by destruct carry.
Qed.

Lemma recreate_drops_status_witness :
  observedPhase ex_key2 = Replaced
  ∧ cs_Status (ks_Object ex_key3)
    = passStatus (ex_obs 4 None true)
        (ex_spec SourceTypeInternal "mock-ocs" "" "") emptyStatus.
Proof.
  apply (recreate_drops_status ex_internal 1 ex_key1 "uid-2"
           (ex_spec SourceTypeInternal "mock-ocs" "" "") true 3).
  - eapply steps_snoc; [apply steps_refl|].
    by apply (step_reconcile (ex_obs 2 (Some ex_configMap) true)).
  - done.
  - apply not_elem_of_nil.
Defined.

(** C21. A healthy pass.  When the resolver yields an endpoint and the
    endpoint answers, the pass returns phase [Healthy]; the status it
    writes has the last sync at the clock reading, whether or not anything
    changed; it records the registry service observed and, for a
    config-map-backed source, the reference of the config map observed
    (name, namespace, identity, revision); and it shows [Available=True]
    for the reason [RegistryHealthy], updated at the clock reading. *)
Theorem syncCatalog_healthy recorded obs cs ep :
  Resolve (bool_decide (is_Some (obs_ConfigMap obs))) (cs_Spec cs)
    (observeService obs (startStatus recorded cs)) = Endpoint ep →
  obs_Reachable obs = true →
  ∃ r, syncCatalog recorded obs cs = Returns r
       ∧ pass_Phase r = Healthy
       ∧ status_LastSync (pass_Status r) = obs_now obs
       ∧ status_RegistryServiceStatus (pass_Status r) = obs_Service obs
       ∧ status_ConfigMapResource (pass_Status r)
         = (if configMapBacked (cs_Spec cs)
            then configMapReference <$> obs_ConfigMap obs
            else status_ConfigMapResource (startStatus recorded cs))
       ∧ ∃ c, available (pass_Status r) = Some c
              ∧ cond_Status c = ConditionTrue
              ∧ cond_Reason c = CatalogSourceReasonRegistryHealthy
              ∧ cond_LastUpdateTime c = obs_now obs.
Proof.
  intros Hr Hreach. rewrite syncCatalog_Returns. simpl. rewrite Hr, Hreach.
  eexists. split; [done|]. simpl.
  destruct (markHealthy_fields obs (cs_Spec cs)
              (observeService obs (startStatus recorded cs)))
    as (Hcm & Hsvc & Hconds & Hsync).
  split_and!; [done..|].
  unfold available, conditionOf. rewrite Hconds.
  destruct (find_key_SetCondition (obs_now obs)
              (observeService obs (startStatus recorded cs)) healthyCondition)
    as [i Hf].
  eexists. split; [by apply find_key_lookup_key in Hf|].
  by rewrite cond_Status_SetCondition, cond_Reason_SetCondition,
       cond_LastUpdateTime_SetCondition.
Qed.

Lemma syncCatalog_healthy_witness :
  ∃ r, syncCatalog None (ex_obs 2 (Some ex_configMap) true) ex_internal = Returns r
       ∧ pass_Phase r = Healthy
       ∧ status_LastSync (pass_Status r) = 2
       ∧ status_RegistryServiceStatus (pass_Status r) = Some ex_service
       ∧ status_ConfigMapResource (pass_Status r)
         = Some (mkConfigMapResourceReference "mock-ocs" "olm" "cm-uid-1" "100")
       ∧ ∃ c, available (pass_Status r) = Some c
              ∧ cond_Status c = ConditionTrue
              ∧ cond_Reason c = CatalogSourceReasonRegistryHealthy
              ∧ cond_LastUpdateTime c = 2.
Proof.
  exact (syncCatalog_healthy None (ex_obs 2 (Some ex_configMap) true) ex_internal
           "mock-ocs.olm.svc.cluster.local:50051" eq_refl eq_refl).
Defined.

(** C22. A failed pass.  When the resolver fails, the pass returns (it
    never hands [CatalogSourceConditionFailed] a nil error) in phase
    [Resolving]; the status shows [Available=False] under the resolver's
    reason with the error's text; last sync and config-map reference are
    those the pass started from. *)
Theorem syncCatalog_failed recorded obs cs e :
  Resolve (bool_decide (is_Some (obs_ConfigMap obs))) (cs_Spec cs)
    (observeService obs (startStatus recorded cs)) = Failed e →
  ∃ r, syncCatalog recorded obs cs = Returns r
       ∧ pass_Phase r = Resolving
       ∧ status_LastSync (pass_Status r)
         = status_LastSync (startStatus recorded cs)
       ∧ status_ConfigMapResource (pass_Status r)
         = status_ConfigMapResource (startStatus recorded cs)
       ∧ ∃ c, available (pass_Status r) = Some c
              ∧ cond_Status c = ConditionFalse
              ∧ cond_Reason c = reasonOf e
              ∧ cond_Message c = errorText e (cs_Spec cs).
Proof.
  intros Hr. rewrite syncCatalog_Returns. simpl. rewrite Hr.
  eexists. split; [done|]. simpl.
  destruct (SetCondition_frame (obs_now obs)
              (observeService obs (startStatus recorded cs))
              (failedCondition e (cs_Spec cs))) as (Hcm & _ & Hsync).
  split_and!; [done..|].
  destruct (find_key_SetCondition (obs_now obs)
              (observeService obs (startStatus recorded cs))
              (failedCondition e (cs_Spec cs))) as [i Hf].
  eexists. split; [by apply find_key_lookup_key in Hf|].
  by rewrite cond_Status_SetCondition, cond_Reason_SetCondition,
       cond_Message_SetCondition.
Qed.

Lemma syncCatalog_failed_witness :
  ∃ r, syncCatalog (ks_Recorded ex_key2) (ex_obs 4 None true) (ks_Object ex_key2)
       = Returns r
       ∧ pass_Phase r = Resolving
       ∧ status_LastSync (pass_Status r) = zeroTime
       ∧ status_ConfigMapResource (pass_Status r) = None
       ∧ ∃ c, available (pass_Status r) = Some c
              ∧ cond_Status c = ConditionFalse
              ∧ cond_Reason c = CatalogSourceReasonConfigMapNotFound
              ∧ cond_Message c = "failed to get catalog config map mock-ocs".
Proof.
  exact (syncCatalog_failed (ks_Recorded ex_key2) (ex_obs 4 None true)
           (ks_Object ex_key2) ConfigMapNotFound eq_refl).
Defined.

(** C9. Reconciliation is level-triggered: running the pass again on the
    state it wrote, under the same observation, changes nothing. *)
Theorem reconcileKey_idempotent obs st :
  reconcileKey obs (reconcileKey obs st) = reconcileKey obs st.
Proof.
  rewrite (reconcileKey_eq obs (reconcileKey obs st)), (reconcileKey_eq obs st).
  cbn [ks_Object ks_Recorded ks_Created ks_Retired].
  rewrite startStatus_written. cbn [set_cs_Status cs_Spec cs_ObjectMeta].
  by rewrite passStatus_idem.
Qed.
