(* ===== verification/Wait.v ===== *)
(** * Wait: bounded polling

    [wait.Poll(interval, timeout, condition)] as the end-to-end helpers use
    it.  The library is not under [src/]; it is modelled from its contract
    (and section 5 of the specification: a bounded poll with a fixed
    interval and a fixed maximum duration, whose expiry is a reported
    failure).  The condition is a closure: it reads the world and assigns
    captured variables, so it is a function on a state that holds both.
    Between two evaluations the world moves by [tick] (one poll interval of
    cluster activity).  [attempts] is the number of evaluations that fit in
    the poll duration; it is the program's own bound, so running out of it
    is the timeout of the source and not an artefact of the model.  The
    library may evaluate the condition once more when the duration
    expires; every lemma here is stated for an arbitrary [attempts], so
    it covers both counts. *)

From stdpp Require Import base tactics option list strings gmap.
From S2P Require Import Prelude.

#[local] Open Scope string_scope.
#[local] Open Scope list_scope.
#[local] Open Scope nat_scope.

(** ** Errors *)

Inductive error : Type :=
| ErrWaitTimeout
| ErrNotFound
| ErrOther (msg : string).

#[export] Instance error_eq_dec : EqDecision error.
Proof. solve_decision. Defined.

(** [errors.IsNotFound] *)
Definition IsNotFound (e : error) : bool := bool_decide (e = ErrNotFound).

(** ** Poll *)

(** [pollInterval] and [pollDuration] of the end-to-end suite, in seconds. *)
Definition pollInterval : Z := 1.
Definition pollDuration : Z := 300.
Definition pollAttempts : nat := Z.to_nat (pollDuration / pollInterval).

(** A condition's verdict: [(done, err)]. *)
Definition verdict : Type := bool * option error.

(** What [Poll] returns for a decisive verdict. *)
Definition verdict_error (v : verdict) : option error :=
  match v with
  | (_, Some e) => Some e
  | (_, None) => None
  end.

Section poll.
Context {St : Type} (tick : St → St).

Definition ConditionFunc : Type := St → St * verdict.

Fixpoint Poll (attempts : nat) (condition : ConditionFunc) (s : St)
  : St * option error :=
  match attempts with
  | 0 => (s, Some ErrWaitTimeout)
  | S n =>
      let '(s, (ok, err)) := condition (tick s) in
      match err with
      | Some e => (s, Some e)
      | None => if ok then (s, None) else Poll n condition s
      end
  end.

(** The state after [k] evaluations of the condition, whatever they said. *)
Fixpoint pollState (condition : ConditionFunc) (k : nat) (s : St) : St :=
  match k with
  | 0 => s
  | S k => pollState condition k (condition (tick s)).1
  end.

(** The verdict of evaluation number [k] (from 0). *)
Definition pollVerdict (condition : ConditionFunc) (k : nat) (s : St) : verdict :=
  (condition (tick (pollState condition k s))).2.

Lemma pollState_S condition k s :
  pollState condition (S k) s
  = (condition (tick (pollState condition k s))).1.
Proof. revert s. induction k as [|k IH]; intros s; [done|]. apply (IH _). Qed.

Lemma pollVerdict_S condition k s :
  pollVerdict condition (S k) s
  = pollVerdict condition k (condition (tick s)).1.
Proof. reflexivity. Qed.

Lemma Poll_S_undecided n condition s :
  pollVerdict condition 0 s = (false, None) →
  Poll (S n) condition s = Poll n condition (condition (tick s)).1.
Proof.
  unfold pollVerdict. simpl. destruct (condition (tick s)) as [s' [ok err]].
  by intros [= -> ->].
Qed.

Lemma Poll_S_decided n condition s :
  pollVerdict condition 0 s ≠ (false, None) →
  Poll (S n) condition s
  = ((condition (tick s)).1, verdict_error (pollVerdict condition 0 s)).
Proof.
  unfold pollVerdict. simpl. destruct (condition (tick s)) as [s' [ok [e|]]];
    [done|]. by destruct ok.
Qed.

(** [Poll] stops at the first decisive evaluation. *)
Lemma Poll_first_decisive n condition s k :
  k < n →
  (∀ j, j < k → pollVerdict condition j s = (false, None)) →
  pollVerdict condition k s ≠ (false, None) →
  Poll n condition s
  = (pollState condition (S k) s, verdict_error (pollVerdict condition k s)).
Proof.
  revert n s. induction k as [|k IH]; intros [|n] s Hlt Hund Hdec; try lia.
  - by rewrite Poll_S_decided.
  - rewrite Poll_S_undecided by (apply Hund; lia).
    rewrite (IH n); [done|lia| |done].
    intros j Hj. rewrite <-pollVerdict_S. apply Hund. lia.
Qed.

(** [Poll] times out when every evaluation in the bound is undecided. *)
Lemma Poll_timeout n condition s :
  (∀ j, j < n → pollVerdict condition j s = (false, None)) →
  Poll n condition s = (pollState condition n s, Some ErrWaitTimeout).
Proof.
  revert s. induction n as [|n IH]; intros s Hund; [done|].
  rewrite Poll_S_undecided by (apply Hund; lia).
  rewrite IH; [done|]. intros j Hj. rewrite <-pollVerdict_S. apply Hund. lia.
Qed.

(** Every run of [Poll] is one of the two. *)
Lemma Poll_cases n condition s :
  (∃ k, k < n
        ∧ (∀ j, j < k → pollVerdict condition j s = (false, None))
        ∧ pollVerdict condition k s ≠ (false, None)
        ∧ Poll n condition s
          = (pollState condition (S k) s,
             verdict_error (pollVerdict condition k s)))
  ∨ ((∀ j, j < n → pollVerdict condition j s = (false, None))
     ∧ Poll n condition s = (pollState condition n s, Some ErrWaitTimeout)).
Proof.
  revert s. induction n as [|n IH]; intros s.
  - right. split; [intros; lia|done].
  - destruct (decide (pollVerdict condition 0 s = (false, None))) as [Hu|Hd].
    + rewrite Poll_S_undecided by done.
      destruct (IH (condition (tick s)).1) as [(k & Hk & Hund & Hdec & ->)|[Hund ->]].
      * left. exists (S k). split_and!; [lia| |done|done].
        intros [|j] Hj; [done|]. rewrite pollVerdict_S. apply Hund. lia.
      * right. split; [|done].
        intros [|j] Hj; [done|]. rewrite pollVerdict_S. apply Hund. lia.
    + left. exists 0. split_and!; [lia|intros; lia|done|by apply Poll_S_decided].
Qed.

(** A poll that returns no error ended on an evaluation that said
    [(true, nil)]. *)
Lemma Poll_nil_inv n condition s s' :
  Poll n condition s = (s', None) →
  ∃ k, k < n ∧ s' = pollState condition (S k) s
       ∧ pollVerdict condition k s = (true, None).
Proof.
  intros HP. destruct (Poll_cases n condition s)
    as [(k & Hk & _ & Hdec & Heq)|[_ Heq]]; rewrite Heq in HP; [|done].
  exists k. injection HP as <- Hv. split_and!; [done..|].
  destruct (pollVerdict condition k s) as [[] [e|]]; naive_solver.
Qed.

(** A poll that returns an error either timed out or passes on the error of
    one of its evaluations. *)
Lemma Poll_error_inv n condition s s' e :
  Poll n condition s = (s', Some e) →
  e = ErrWaitTimeout ∨ ∃ k, k < n ∧ (pollVerdict condition k s).2 = Some e.
Proof.
  intros HP. destruct (Poll_cases n condition s)
    as [(k & Hk & _ & Hdec & Heq)|[_ Heq]]; rewrite Heq in HP;
    [|left; congruence].
  right. exists k. split; [done|]. injection HP as _ Hv.
  by destruct (pollVerdict condition k s) as [? [?|]].
Qed.

End poll.
