(* ===== verification/E2E.v ===== *)
(** * E2E: the helpers of the end-to-end suite

    [packageManifestHasStatus] and [fetchPackageManifest] of
    packagemanifest_e2e_test.go, [getOperatorDeployment] and
    [rescaleDeployment] of catalog_e2e_test.go, and the two predicates the
    catalog scenarios poll for.  The helpers talk to a cluster through
    client interfaces; here a cluster is any type [W] with an instance of
    [PackageManifestClient] or [ClientInterface], and the passage of one
    poll interval is a function [tick] on it.  The closures the helpers hand
    to [wait.Poll] assign captured variables ([fetched], [err]); those are
    the second component of the polled state.

    [SimCluster] is an instance of [ClientInterface]: a set of deployments
    whose controller moves the observed replica count one step towards the
    requested one per tick.  [SimPackages] and [SimOutage] are instances of
    [PackageManifestClient]: a server that starts serving a manifest at a
    given time, and one that breaks at a given time.  The theorems are
    stated against the interfaces; the simulated clusters provide runs on
    which their hypotheses hold. *)

From stdpp Require Import base tactics option list strings gmap.
From S2P Require Import Prelude CatalogSourceTypes Wait.

#[local] Open Scope string_scope.
#[local] Open Scope list_scope.
#[local] Open Scope nat_scope.

(** ** The package manifest the aggregated API serves *)

Record PackageChannel : Type := mkPackageChannel {
  pc_Name : string;
  pc_CurrentCSV : string;
  pc_CurrentCSVDesc : string
}.

Record PackageManifestStatus : Type := mkPackageManifestStatus {
  pms_CatalogSource : string;
  pms_CatalogSourceNamespace : string;
  pms_PackageName : string;
  pms_Channels : list PackageChannel;
  pms_DefaultChannel : string
}.

Record PackageManifest : Type := mkPackageManifest {
  pm_Name : string;
  pm_Status : PackageManifestStatus
}.

#[export] Instance PackageChannel_eq_dec : EqDecision PackageChannel.
Proof. solve_decision. Defined.
#[export] Instance PackageManifestStatus_eq_dec : EqDecision PackageManifestStatus.
Proof. solve_decision. Defined.
#[export] Instance PackageManifest_eq_dec : EqDecision PackageManifest.
Proof. solve_decision. Defined.

(** [packageManifestCheckFunc]: a predicate on a manifest pointer. *)
Definition packageManifestCheckFunc : Type := option PackageManifest → bool.

(** The part of the package-server client the helper calls:
    [PackageManifests(namespace).Get(name, ...)]. *)
Class PackageManifestClient (W : Type) : Type := {
  PackageManifests_Get :
    W → string → string → option PackageManifest * option error
}.

(** ** packagemanifest_e2e_test.go *)

Definition packageManifestHasStatus : packageManifestCheckFunc := λ pm,
  match pm with
  | None => false
  | Some pm =>
      if decide (pms_PackageName (pm_Status pm) = "") then false else true
  end.

(** The variables [fetched] and [err] the polling closure assigns. *)
Record fetchVars : Type := mkFetchVars {
  fv_fetched : option PackageManifest;
  fv_err : option error
}.

Section fetch.
Context {W : Type} `{!PackageManifestClient W} (tick : W → W).

(** The closure handed to [wait.Poll] (lines 37-44). *)
Definition fetchCondition (namespace name : string)
  (check : packageManifestCheckFunc) : @ConditionFunc (W * fetchVars) :=
  λ '(w, _),
    let '(fetched, err) := PackageManifests_Get w namespace name in
    let vars := mkFetchVars fetched err in
    match err with
    | Some e =>
        if negb (IsNotFound e) then ((w, vars), (true, err))
        else ((w, vars), (check fetched, None))
    | None => ((w, vars), (check fetched, None))
    end.

(** One poll interval passes in the cluster; the captured variables stay. *)
Definition fetchTick : W * fetchVars → W * fetchVars :=
  λ '(w, vars), (tick w, vars).

(** [fetchPackageManifest]: the world after the call, and the pair
    [(fetched, err)] it returns. *)
Definition fetchPackageManifest (attempts : nat) (namespace name : string)
  (check : packageManifestCheckFunc) (w : W)
  : W * (option PackageManifest * option error) :=
  let '((w, vars), err) :=
    Poll fetchTick attempts (fetchCondition namespace name check)
      (w, mkFetchVars None None) in
  (w, (fv_fetched vars, err)).

End fetch.

(** ** Deployments and the operator client *)

(** [appsv1.Deployment]: name, namespace, [Spec.Replicas] (a pointer to an
    int32) and [Status.Replicas]. *)
Record Deployment : Type := mkDeployment {
  dep_Namespace : string;
  dep_Name : string;
  dep_SpecReplicas : option Z;
  dep_StatusReplicas : Z
}.

#[export] Instance Deployment_eq_dec : EqDecision Deployment.
Proof. solve_decision. Defined.

Definition set_dep_SpecReplicas (r : option Z) (d : Deployment) : Deployment :=
  mkDeployment (dep_Namespace d) (dep_Name d) r (dep_StatusReplicas d).

Definition set_dep_StatusReplicas (r : Z) (d : Deployment) : Deployment :=
  mkDeployment (dep_Namespace d) (dep_Name d) (dep_SpecReplicas d) r.

(** [labels.Set], as the list of its pairs in key order. *)
Definition labelSet : Type := list (string * string).

(** [labels.Set.String], which [%v] prints: the pairs [key=value], sorted,
    joined by commas. *)
Definition Set_String (ls : labelSet) : string :=
  String.concat "," ((λ '(k, v), k +:+ "=" +:+ v) <$> ls).

(** The part of [operatorclient.ClientInterface] the helpers call.
    [ListDeploymentsWithLabels] returns a list pointer and an error;
    [UpdateDeployment] the latest deployment, whether it changed, and an
    error; [GetDeployment] a deployment pointer and an error. *)
Class ClientInterface (W : Type) : Type := {
  ListDeploymentsWithLabels :
    W → string → labelSet → option (list Deployment) * option error;
  UpdateDeployment :
    W → Deployment → W * (option Deployment * bool * option error);
  GetDeployment : W → string → string → option Deployment * option error
}.

(** ** catalog_e2e_test.go *)

Section operator.
Context {W : Type} `{!ClientInterface W} (tick : W → W).

Definition getOperatorDeployment (w : W) (namespace : string)
  (operatorLabels : labelSet) : option Deployment * option error :=
  let '(deployments, err) := ListDeploymentsWithLabels w namespace operatorLabels in
  let failure :=
    ErrOther ("Error getting single operator deployment for label: "
              +:+ Set_String operatorLabels) in
  match err, deployments with
  | None, Some items =>
      if decide (length items ≠ 1) then (None, Some failure)
      else (items !! 0, None)
  | _, _ => (None, Some failure)
  end.

(** The closure [waitForScaleup]; [deployment] and [replicas] are the
    captured variables as they stand when the poll runs.  Line 318 reads
    [fetchedDeployment.Status.Replicas] without a nil check: on a nil
    deployment beside a nil error the closure panics.  The panic ends the
    poll; it is recorded in the second component of the polled state. *)
Definition waitForScaleup (deployment : Deployment) (replicas : Z)
  : @ConditionFunc (W * option GoPanic) :=
  λ '(w, _),
    let '(fetchedDeployment, err) :=
      GetDeployment w (dep_Namespace deployment) (dep_Name deployment) in
    match err, fetchedDeployment with
    | Some e, _ => ((w, None), (true, Some e))
    | None, Some fetched =>
        if decide (dep_StatusReplicas fetched = replicas)
        then ((w, None), (true, None))
        else ((w, None), (false, None))
    | None, None => ((w, Some NilPointerDereference), (true, None))
    end.

(** One poll interval passes in the cluster. *)
Definition scaleTick : W * option GoPanic → W * option GoPanic :=
  λ '(w, p), (tick w, p).

(** [wait.Poll(pollInterval, pollDuration, waitForScaleup)] (lines 326 and
    340): the error of the poll, or the panic of the closure. *)
Definition pollScaleup (attempts : nat) (deployment : Deployment)
  (replicas : Z) (w : W) : outcome (W * option error) :=
  let '((w, p), err) :=
    Poll scaleTick attempts (waitForScaleup deployment replicas) (w, None) in
  match p with
  | Some p => Panics p
  | None => Returns (w, err)
  end.

(** One [UpdateDeployment] with its guard: the deployment to go on with, or
    the failure. *)
Definition updateOrFail (w : W) (deployment : Deployment) (msg : string)
  : W * (error + Deployment) :=
  let '(w, (deployment, updated, err)) := UpdateDeployment w deployment in
  match err, updated, deployment with
  | None, true, Some d => (w, inr d)
  | _, _, _ => (w, inl (ErrOther msg))
  end.

(** [rescaleDeployment]: scale to 0, wait, scale to 1, wait.  The
    deployment is a pointer; writing its [Spec.Replicas] when it is nil
    panics, and so does a poll whose closure does.  Line 307 stores the address of the local [replicas] in the
    caller's deployment, and line 308 rebinds [deployment] to the object the
    client returns: from then on the caller's object shows whatever
    [replicas] holds, which is what [arg] computes.  The result is the
    cluster, the caller's deployment as the call leaves it, and the error
    returned. *)
Definition rescaleDeployment (attempts : nat) (deployment : option Deployment)
  (w : W) : outcome (W * Deployment * option error) :=
  d ← deref deployment;
  let arg := λ replicas : Z, set_dep_SpecReplicas (Some replicas) d in
  let replicas := 0%Z in
  let '(w, r) := updateOrFail w (arg replicas) "Failed to scale down deployment" in
  match r with
  | inl e => mret (w, arg replicas, Some e)
  | inr d =>
      '(w, err) ← pollScaleup attempts d replicas w;
      match err with
      | Some e => mret (w, arg replicas, Some e)
      | None =>
          let replicas := 1%Z in
          let d := set_dep_SpecReplicas (Some replicas) d in
          let '(w, r) := updateOrFail w d "Failed to scale up deployment" in
          match r with
          | inl e => mret (w, arg replicas, Some e)
          | inr d =>
              '(w, err) ← pollScaleup attempts d replicas w;
              mret (w, arg replicas, err)
          end
      end
  end.

End operator.

(** The predicates the catalog scenarios poll for. *)

(** TestCatalogLoadingBetweenRestarts: [cs.Status.LastSync.After(...)]. *)
Definition lastSyncAfter (initial cs : CatalogSource) : bool :=
  if time_After (status_LastSync (cs_Status cs))
       (status_LastSync (cs_Status initial))
  then true else false.

(** TestConfigMapUpdateTriggersRegistryPodRollout:
    [catalog.Status.LastSync != fetchedInitialCatalog.Status.LastSync]. *)
Definition lastSyncChanged (initial catalog : CatalogSource) : bool :=
  if decide (status_LastSync (cs_Status catalog)
             ≠ status_LastSync (cs_Status initial))
  then true else false.

(** ** Specification devices *)

(** The verdict the polling closure of [fetchPackageManifest] reaches on a
    given answer of the client. *)
Definition fetchVerdict (check : packageManifestCheckFunc)
  (answer : option PackageManifest * option error) : verdict :=
  match answer.2 with
  | Some e => if negb (IsNotFound e) then (true, Some e) else (check answer.1, None)
  | None => (check answer.1, None)
  end.

(** The server answered without an error other than not-found. *)
Definition answerOk (answer : option PackageManifest * option error) : bool :=
  match answer.2 with
  | Some e => IsNotFound e
  | None => true
  end.

(** The verdict [waitForScaleup] reaches on an answer of [GetDeployment],
    and the panic it raises. *)
Definition scaleVerdict (replicas : Z)
  (answer : option Deployment * option error) : verdict :=
  match answer with
  | (_, Some e) => (true, Some e)
  | (Some fetched, None) =>
      (bool_decide (dep_StatusReplicas fetched = replicas), None)
  | (None, None) => (true, None)
  end.

Definition scalePanic (answer : option Deployment * option error)
  : option GoPanic :=
  match answer with
  | (None, None) => Some NilPointerDereference
  | _ => None
  end.

(** The deployment is read without error and shows a replica count that
    satisfies [P]. *)
Definition shows (P : Z → Prop) (answer : option Deployment * option error)
  : Prop :=
  ∃ fetched, answer = (Some fetched, None) ∧ P (dep_StatusReplicas fetched).

(** [scalesWithin tick w d r k]: polled once per tick from [w], the
    deployment [d] is first seen with [r] replicas at evaluation [k], and
    every read before or at [k] returns a deployment and no error. *)
Definition scalesWithin {W : Type} `{!ClientInterface W} (tick : W → W)
  (w : W) (d : Deployment) (r : Z) (k : nat) : Prop :=
  (∀ j, j < k →
     shows (λ n, n ≠ r)
       (GetDeployment (Nat.iter (S j) tick w) (dep_Namespace d) (dep_Name d)))
  ∧ shows (λ n, n = r)
      (GetDeployment (Nat.iter (S k) tick w) (dep_Namespace d) (dep_Name d)).

(** ** A simulated cluster *)

Record SimCluster : Type := mkSimCluster {
  sim_deployments : list Deployment
}.

Definition dep_key (d : Deployment) : string * string :=
  (dep_Namespace d, dep_Name d).

(** The deployment controller: one replica towards the requested count (one
    when the spec leaves it out). *)
Definition sim_step (d : Deployment) : Deployment :=
  let want := default 1%Z (dep_SpecReplicas d) in
  let have := dep_StatusReplicas d in
  if decide (have < want)%Z then set_dep_StatusReplicas (have + 1) d
  else if decide (want < have)%Z then set_dep_StatusReplicas (have - 1) d
  else d.

Definition sim_tick (w : SimCluster) : SimCluster :=
  mkSimCluster (sim_step <$> sim_deployments w).

Definition sim_update (w : SimCluster) (d : Deployment)
  : SimCluster * (option Deployment * bool * option error) :=
  match find_key dep_key (dep_key d) (sim_deployments w) with
  | Some (i, old) =>
      let new := set_dep_SpecReplicas (dep_SpecReplicas d) old in
      (mkSimCluster (<[i := new]> (sim_deployments w)),
       (Some new, bool_decide (new ≠ old), None))
  | None => (w, (None, false, Some ErrNotFound))
  end.

Definition sim_get (w : SimCluster) (namespace name : string)
  : option Deployment * option error :=
  match lookup_key dep_key (namespace, name) (sim_deployments w) with
  | Some d => (Some d, None)
  | None => (None, Some ErrNotFound)
  end.

#[export] Instance SimCluster_client : ClientInterface SimCluster := {
  ListDeploymentsWithLabels w namespace _ :=
    (Some (filter (λ d, dep_Namespace d = namespace) (sim_deployments w)), None);
  UpdateDeployment := sim_update;
  GetDeployment := sim_get
}.

(** A package server that starts serving a manifest at a given time. *)
Record SimPackages : Type := mkSimPackages {
  simp_now : nat;
  simp_ready_at : nat;
  simp_manifest : PackageManifest
}.

#[export] Instance SimPackages_client : PackageManifestClient SimPackages := {
  PackageManifests_Get w _ name :=
    if decide (simp_ready_at w ≤ simp_now w ∧ pm_Name (simp_manifest w) = name)
    then (Some (simp_manifest w), None)
    else (Some (mkPackageManifest "" (mkPackageManifestStatus "" "" "" [] "")),
          Some ErrNotFound)
}.

Definition simp_tick (w : SimPackages) : SimPackages :=
  mkSimPackages (S (simp_now w)) (simp_ready_at w) (simp_manifest w).

(** A package server that answers not-found until it breaks. *)
Record SimOutage : Type := mkSimOutage {
  simo_now : nat;
  simo_breaks_at : nat
}.

#[export] Instance SimOutage_client : PackageManifestClient SimOutage := {
  PackageManifests_Get w _ _ :=
    if decide (simo_breaks_at w ≤ simo_now w)
    then (None, Some (ErrOther "connection refused"))
    else (None, Some ErrNotFound)
}.

Definition simo_tick (w : SimOutage) : SimOutage :=
  mkSimOutage (S (simo_now w)) (simo_breaks_at w).

(** ** Example data *)

Definition ex_manifest : PackageManifest :=
  mkPackageManifest "nginx"
    (mkPackageManifestStatus "mock-ocs" "test" "nginx"
       [mkPackageChannel "stable" "nginx-stable" ""] "stable").

Definition ex_packages : SimPackages := mkSimPackages 0 3 ex_manifest.

Definition ex_operator : Deployment :=
  mkDeployment "olm" "catalog-operator" (Some 1%Z) 1.

Definition ex_cluster : SimCluster :=
  mkSimCluster [mkDeployment "olm" "olm-operator" (Some 1%Z) 1; ex_operator].

(** A deployment that is already scaled down. *)
Definition ex_idle : Deployment := mkDeployment "olm" "idle" (Some 0%Z) 0.

Definition ex_idle_cluster : SimCluster := mkSimCluster [ex_idle].

(** A deployment that takes five intervals to scale down. *)
Definition ex_busy : Deployment := mkDeployment "olm" "busy" (Some 5%Z) 5.

Definition ex_busy_cluster : SimCluster := mkSimCluster [ex_busy].

(** ** Lemmas on [fetchPackageManifest] *)

Section fetch_lemmas.
Context {W : Type} `{!PackageManifestClient W} (tick : W → W).
Context (namespace name : string) (check : packageManifestCheckFunc).

Lemma fetchTick_pair w vars : fetchTick tick (w, vars) = (tick w, vars).
Proof. reflexivity. Qed.

Lemma fetchCondition_eq w vars :
  fetchCondition namespace name check (w, vars)
  = ((w, mkFetchVars (PackageManifests_Get w namespace name).1
           (PackageManifests_Get w namespace name).2),
     fetchVerdict check (PackageManifests_Get w namespace name)).
Proof.
  unfold fetchCondition, fetchVerdict.
  destruct (PackageManifests_Get w namespace name) as [fetched [e|]]; simpl;
    [|done]. by destruct (IsNotFound e).
Qed.

Lemma fetch_pollState k w vars :
  pollState (fetchTick tick) (fetchCondition namespace name check) (S k) (w, vars)
  = (Nat.iter (S k) tick w,
     mkFetchVars (PackageManifests_Get (Nat.iter (S k) tick w) namespace name).1
       (PackageManifests_Get (Nat.iter (S k) tick w) namespace name).2).
Proof.
  induction k as [|k IH]; rewrite pollState_S; [cbn [pollState]|rewrite IH];
    by rewrite fetchTick_pair, fetchCondition_eq.
Qed.

Lemma fetch_pollVerdict k w vars :
  pollVerdict (fetchTick tick) (fetchCondition namespace name check) k (w, vars)
  = fetchVerdict check (PackageManifests_Get (Nat.iter (S k) tick w) namespace name).
Proof.
  unfold pollVerdict. destruct k as [|k]; [cbn [pollState]|rewrite fetch_pollState];
    by rewrite fetchTick_pair, fetchCondition_eq.
Qed.

Lemma fetchVerdict_not_NotFound answer :
  (fetchVerdict check answer).2 ≠ Some ErrNotFound.
Proof. unfold fetchVerdict. by destruct answer as [f [[]|]]. Qed.

Lemma fetchVerdict_true_nil answer :
  fetchVerdict check answer = (true, None) → check answer.1 = true.
Proof.
  unfold fetchVerdict. destruct answer as [f [e|]]; simpl; [|congruence].
  destruct (IsNotFound e); simpl; congruence.
Qed.

Lemma fetchVerdict_ok answer :
  answerOk answer = true → fetchVerdict check answer = (check answer.1, None).
Proof.
  unfold fetchVerdict, answerOk. destruct answer as [f [e|]]; simpl; [|done].
  by intros ->.
Qed.

End fetch_lemmas.

(** ** Theorems *)

(** C7. [fetchPackageManifest] never reports success on a manifest that
    fails the check, and never reports a not-found error: when the error it
    returns is nil the manifest it returns passed [check], and a not-found
    answer of the server only ever surfaces as a timeout. *)
Theorem fetchPackageManifest_sound {W : Type} `{!PackageManifestClient W}
  (tick : W → W) attempts namespace name check (w w' : W) pm err :
  fetchPackageManifest tick attempts namespace name check w = (w', (pm, err)) →
  err ≠ Some ErrNotFound ∧ (err = None → check pm = true).
Proof.
  unfold fetchPackageManifest.
  destruct (Poll _ _ _ _) as [[w0 vars] e] eqn:HP. intros [= <- <- <-]. split.
  - intros ->. apply Poll_error_inv in HP as [?|(k & _ & Hk)]; [done|].
    rewrite fetch_pollVerdict in Hk. by apply fetchVerdict_not_NotFound in Hk.
  - intros ->. apply Poll_nil_inv in HP as (k & _ & Hs & Hv).
    rewrite fetch_pollState in Hs. rewrite fetch_pollVerdict in Hv.
    simplify_eq/=. by apply fetchVerdict_true_nil in Hv.
Qed.

Lemma fetchPackageManifest_sound_witness :
  (None : option error) ≠ Some ErrNotFound
  ∧ ((None : option error) = None
     → packageManifestHasStatus (Some ex_manifest) = true).
Proof.
  exact (fetchPackageManifest_sound simp_tick pollAttempts "test" "nginx"
           packageManifestHasStatus ex_packages _ _ _ eq_refl).
Defined.

(** What the scenarios use of [fetchPackageManifest]: with a nil error the
    manifest passed the check. *)
Lemma fetchPackageManifest_nil_check {W : Type} `{!PackageManifestClient W}
  (tick : W → W) attempts namespace name check (w w' : W) pm :
  fetchPackageManifest tick attempts namespace name check w = (w', (pm, None)) →
  check pm = true.
Proof.
  unfold fetchPackageManifest.
  destruct (Poll _ _ _ _) as [[w0 vars] e] eqn:HP. intros [= <- <- ->].
  apply Poll_nil_inv in HP as (k & _ & Hs & Hv).
  rewrite fetch_pollState in Hs. rewrite fetch_pollVerdict in Hv.
  simplify_eq/=. by apply fetchVerdict_true_nil in Hv.
Qed.

(** C28. If the server first serves a manifest that passes the check at the
    [k]-th poll, with [k] within the bound, and until then answered without
    a hard error, [fetchPackageManifest] returns that manifest and a nil
    error after exactly [k+1] poll intervals. *)
Theorem fetchPackageManifest_available {W : Type} `{!PackageManifestClient W}
  (tick : W → W) attempts namespace name check (w : W) k :
  k < attempts →
  (∀ j, j ≤ k →
     answerOk (PackageManifests_Get (Nat.iter (S j) tick w) namespace name) = true) →
  (∀ j, j < k →
     check (PackageManifests_Get (Nat.iter (S j) tick w) namespace name).1 = false) →
  check (PackageManifests_Get (Nat.iter (S k) tick w) namespace name).1 = true →
  fetchPackageManifest tick attempts namespace name check w
  = (Nat.iter (S k) tick w,
     ((PackageManifests_Get (Nat.iter (S k) tick w) namespace name).1, None)).
Proof.
  intros Hk Hok Hnot Hready. unfold fetchPackageManifest.
  rewrite (Poll_first_decisive _ _ _ _ k Hk).
  - rewrite fetch_pollState, fetch_pollVerdict, fetchVerdict_ok by (apply Hok; lia).
    by rewrite Hready.
  - intros j Hj. rewrite fetch_pollVerdict, fetchVerdict_ok by (apply Hok; lia).
    by rewrite Hnot.
  - rewrite fetch_pollVerdict, fetchVerdict_ok by (apply Hok; lia).
    by rewrite Hready.
Qed.

Lemma fetchPackageManifest_available_witness :
  fetchPackageManifest simp_tick pollAttempts "test" "nginx"
    packageManifestHasStatus ex_packages
  = (mkSimPackages 3 3 ex_manifest, (Some ex_manifest, None)).
Proof.
  rewrite (fetchPackageManifest_available simp_tick pollAttempts "test" "nginx"
             packageManifestHasStatus ex_packages 2).
  - reflexivity.
  - vm_compute. lia.
  - intros [|[|[|j]]] Hj; [reflexivity..|lia].
  - intros [|[|j]] Hj; [reflexivity..|lia].
  - reflexivity.
Defined.

(** C29. If within the bound the server never serves a manifest that passes
    the check and never fails hard, [fetchPackageManifest] returns the
    timeout error together with whatever the last poll fetched, which need
    not be nil. *)
Theorem fetchPackageManifest_timeout {W : Type} `{!PackageManifestClient W}
  (tick : W → W) attempts namespace name check (w : W) :
  (∀ j, j < attempts →
     answerOk (PackageManifests_Get (Nat.iter (S j) tick w) namespace name) = true
     ∧ check (PackageManifests_Get (Nat.iter (S j) tick w) namespace name).1
       = false) →
  fetchPackageManifest tick attempts namespace name check w
  = (Nat.iter attempts tick w,
     (match attempts with
      | 0 => None
      | S _ => (PackageManifests_Get (Nat.iter attempts tick w) namespace name).1
      end, Some ErrWaitTimeout)).
Proof.
  intros Hnot. unfold fetchPackageManifest. rewrite Poll_timeout.
  - destruct attempts; [done|]. by rewrite fetch_pollState.
  - intros j Hj. destruct (Hnot j Hj) as [Hok Hch].
    by rewrite fetch_pollVerdict, fetchVerdict_ok, Hch.
Qed.

Lemma fetchPackageManifest_timeout_witness :
  fetchPackageManifest simp_tick 2 "test" "nginx" packageManifestHasStatus
    ex_packages
  = (mkSimPackages 2 3 ex_manifest,
     (Some (mkPackageManifest "" (mkPackageManifestStatus "" "" "" [] "")),
      Some ErrWaitTimeout)).
Proof.
  rewrite (fetchPackageManifest_timeout simp_tick 2 "test" "nginx"
             packageManifestHasStatus ex_packages); [reflexivity|].
  intros [|[|j]] Hj; [split; reflexivity..|lia].
Defined.

(** C30. A hard error of the server ends the poll at once.  If the server
    answers the [k]-th poll, with [k] within the bound, with an error other
    than not-found, having until then answered without such an error and
    without a manifest that passes the check, [fetchPackageManifest]
    returns that error, and whatever the server returned beside it, after
    exactly [k+1] poll intervals, whatever the check says of it. *)
Theorem fetchPackageManifest_hard_error {W : Type} `{!PackageManifestClient W}
  (tick : W → W) attempts namespace name check (w : W) k e :
  k < attempts →
  (∀ j, j < k →
     answerOk (PackageManifests_Get (Nat.iter (S j) tick w) namespace name) = true
     ∧ check (PackageManifests_Get (Nat.iter (S j) tick w) namespace name).1
       = false) →
  (PackageManifests_Get (Nat.iter (S k) tick w) namespace name).2 = Some e →
  IsNotFound e = false →
  fetchPackageManifest tick attempts namespace name check w
  = (Nat.iter (S k) tick w,
     ((PackageManifests_Get (Nat.iter (S k) tick w) namespace name).1, Some e)).
Proof.
  intros Hk Hnot Herr Hhard. unfold fetchPackageManifest.
  assert (fetchVerdict check
            (PackageManifests_Get (Nat.iter (S k) tick w) namespace name)
          = (true, Some e)) as Hv
    by (unfold fetchVerdict; by rewrite Herr, Hhard).
  rewrite (Poll_first_decisive _ _ _ _ k Hk).
  - by rewrite fetch_pollState, fetch_pollVerdict, Hv.
  - intros j Hj. destruct (Hnot j Hj) as [Hok Hch].
    by rewrite fetch_pollVerdict, fetchVerdict_ok, Hch.
  - by rewrite fetch_pollVerdict, Hv.
Qed.

Lemma fetchPackageManifest_hard_error_witness :
  fetchPackageManifest simo_tick pollAttempts "test" "nginx"
    packageManifestHasStatus (mkSimOutage 0 3)
  = (mkSimOutage 3 3, (None, Some (ErrOther "connection refused"))).
Proof.
  rewrite (fetchPackageManifest_hard_error simo_tick pollAttempts "test" "nginx"
             packageManifestHasStatus (mkSimOutage 0 3) 2
             (ErrOther "connection refused")).
  - reflexivity.
  - vm_compute. lia.
  - intros [|[|j]] Hj; [split; reflexivity..|lia].
  - reflexivity.
  - reflexivity.
Defined.

(** ** Lemmas on [rescaleDeployment] *)

Section operator_lemmas.
Context {W : Type} `{!ClientInterface W} (tick : W → W).

Lemma waitForScaleup_eq d r w p :
  waitForScaleup d r (w, p)
  = ((w, scalePanic (GetDeployment w (dep_Namespace d) (dep_Name d))),
     scaleVerdict r (GetDeployment w (dep_Namespace d) (dep_Name d))).
Proof.
  unfold waitForScaleup, scaleVerdict, scalePanic.
  destruct (GetDeployment _ _ _) as [[f|] [e|]]; simpl; try done.
  case_bool_decide; case_decide; congruence || reflexivity.
Qed.

Lemma scale_pollState d r k w p :
  pollState (scaleTick tick) (waitForScaleup d r) (S k) (w, p)
  = (Nat.iter (S k) tick w,
     scalePanic (GetDeployment (Nat.iter (S k) tick w)
                   (dep_Namespace d) (dep_Name d))).
Proof.
  induction k as [|k IH]; rewrite pollState_S; [cbn [pollState]|rewrite IH];
    cbn [scaleTick]; by rewrite waitForScaleup_eq.
Qed.

Lemma scale_pollVerdict d r k w p :
  pollVerdict (scaleTick tick) (waitForScaleup d r) k (w, p)
  = scaleVerdict r
      (GetDeployment (Nat.iter (S k) tick w) (dep_Namespace d) (dep_Name d)).
Proof.
  unfold pollVerdict.
  destruct k as [|k]; [cbn [pollState]|rewrite scale_pollState];
    cbn [scaleTick]; by rewrite waitForScaleup_eq.
Qed.

Lemma scaleVerdict_shows r answer :
  scaleVerdict r answer = (true, None) ∧ scalePanic answer = None
  ↔ shows (λ n, n = r) answer.
Proof.
  unfold shows. destruct answer as [[f|] [e|]]; simpl;
    try case_bool_decide; naive_solver.
Qed.

Lemma scaleVerdict_undecided r answer :
  scaleVerdict r answer = (false, None) ↔ shows (λ n, n ≠ r) answer.
Proof.
  unfold shows. destruct answer as [[f|] [e|]]; simpl;
    try case_bool_decide; naive_solver.
Qed.

(** A deployment that scales within the bound ends the poll with no error
    after [k+1] intervals. *)
Lemma pollScaleup_scalesWithin attempts w d r k :
  k < attempts → scalesWithin tick w d r k →
  pollScaleup tick attempts d r w = Returns (Nat.iter (S k) tick w, None).
Proof.
  intros Hk [Hne Heq]. apply scaleVerdict_shows in Heq as [Hv Hp].
  unfold pollScaleup. rewrite (Poll_first_decisive _ _ _ _ k Hk).
  - by rewrite scale_pollState, scale_pollVerdict, Hv, Hp.
  - intros j Hj. rewrite scale_pollVerdict. by apply scaleVerdict_undecided, Hne.
  - by rewrite scale_pollVerdict, Hv.
Qed.

(** A deployment that is not seen at [r] replicas within the bound, no
    read failing, ends the poll with the timeout. *)
Lemma pollScaleup_timeout attempts w d r :
  (∀ j, j < attempts →
     shows (λ n, n ≠ r)
       (GetDeployment (Nat.iter (S j) tick w) (dep_Namespace d) (dep_Name d))) →
  pollScaleup tick attempts d r w
  = Returns (Nat.iter attempts tick w, Some ErrWaitTimeout).
Proof.
  intros Hne. unfold pollScaleup. rewrite Poll_timeout.
  - destruct attempts as [|n]; [done|]. rewrite scale_pollState.
    destruct (Hne n) as (f & -> & _); [lia|done].
  - intros j Hj. rewrite scale_pollVerdict. by apply scaleVerdict_undecided, Hne.
Qed.

(** The state a poll ends in: the cluster after some number of intervals,
    and the panic of the last evaluation, if it panicked. *)
Lemma pollScaleup_state attempts w d r w' p err :
  Poll (scaleTick tick) attempts (waitForScaleup d r) (w, None) = ((w', p), err) →
  p = None
  ∨ ∃ k, k < attempts ∧ w' = Nat.iter (S k) tick w
         ∧ GetDeployment w' (dep_Namespace d) (dep_Name d) = (None, None).
Proof.
  intros HP. assert (∃ k, k ≤ attempts
                          ∧ (w', p) = pollState (scaleTick tick)
                                        (waitForScaleup d r) k (w, None))
    as (k & Hk & Hs).
  { destruct (Poll_cases (scaleTick tick) attempts (waitForScaleup d r) (w, None))
      as [(k & Hk & _ & _ & Heq)|[_ Heq]]; rewrite Heq in HP.
    - exists (S k). split; [lia|congruence].
    - exists attempts. split; [lia|congruence]. }
  destruct k as [|k]; [left; by injection Hs|]. rewrite scale_pollState in Hs.
  injection Hs as -> ->. unfold scalePanic.
  destruct (GetDeployment _ _ _) as [[f|] [e|]] eqn:Hg; try (by left).
  right. exists k. split_and!; [lia|done..].
Qed.

(** A poll for [r] replicas that ends with no error ends on a world whose
    deployment shows [r] replicas. *)
Lemma pollScaleup_nil attempts w w' d r :
  pollScaleup tick attempts d r w = Returns (w', None) →
  shows (λ n, n = r) (GetDeployment w' (dep_Namespace d) (dep_Name d)).
Proof.
  unfold pollScaleup.
  destruct (Poll _ _ _ _) as [[w0 p] err] eqn:HP. destruct p; [done|].
  intros [= -> ->].
  apply Poll_nil_inv in HP as (k & _ & Hs & Hv).
  rewrite scale_pollState in Hs. rewrite scale_pollVerdict in Hv.
  injection Hs as -> Hp. by apply scaleVerdict_shows.
Qed.

(** A poll panics only on a nil deployment beside a nil error. *)
Lemma pollScaleup_Panics attempts w d r p :
  pollScaleup tick attempts d r w = Panics p →
  ∃ k, k < attempts
       ∧ GetDeployment (Nat.iter (S k) tick w) (dep_Namespace d) (dep_Name d)
         = (None, None).
Proof.
  unfold pollScaleup.
  destruct (Poll _ _ _ _) as [[w0 q] err] eqn:HP. destruct q; [|done].
  intros _. apply pollScaleup_state in HP as [?|(k & Hk & -> & Hg)]; [done|].
  by exists k.
Qed.

End operator_lemmas.

Lemma updateOrFail_ok {W : Type} `{!ClientInterface W} (w : W) d msg w' d' :
  UpdateDeployment w d = (w', (Some d', true, None)) →
  updateOrFail w d msg = (w', inr d').
Proof. unfold updateOrFail. by intros ->. Qed.

Lemma updateOrFail_inr {W : Type} `{!ClientInterface W} (w : W) d msg w' d' :
  updateOrFail w d msg = (w', inr d') →
  UpdateDeployment w d = (w', (Some d', true, None)).
Proof.
  unfold updateOrFail.
  destruct (UpdateDeployment w d) as [w0 [[[d0|] []] [e|]]]; naive_solver.
Qed.

Lemma updateOrFail_inl {W : Type} `{!ClientInterface W} (w : W) d msg w' e :
  updateOrFail w d msg = (w', inl e) →
  e = ErrOther msg ∧ w' = (UpdateDeployment w d).1
  ∧ ∀ d', (UpdateDeployment w d).2 ≠ (Some d', true, None).
Proof.
  unfold updateOrFail.
  destruct (UpdateDeployment w d) as [w0 [[[d0|] []] [e0|]]]; naive_solver.
Qed.

(** C8. Postcondition of [rescaleDeployment]: whenever it returns a nil
    error, the deployment the client returned for the scale-up update is
    read from the cluster it leaves, without error, at exactly one replica;
    and the caller's deployment, to which the code only ever assigned the
    address of [replicas], requests one replica. *)
Theorem rescaleDeployment_post {W : Type} `{!ClientInterface W} (tick : W → W)
  attempts deployment (w w' : W) arg :
  rescaleDeployment tick attempts deployment w = Returns (w', arg, None) →
  (∃ d0, deployment = Some d0 ∧ arg = set_dep_SpecReplicas (Some 1%Z) d0)
  ∧ ∃ w2 d1 w3 d fetched,
      UpdateDeployment w2 (set_dep_SpecReplicas (Some 1%Z) d1)
      = (w3, (Some d, true, None))
      ∧ GetDeployment w' (dep_Namespace d) (dep_Name d) = (Some fetched, None)
      ∧ dep_StatusReplicas fetched = 1%Z.
Proof.
  unfold rescaleDeployment. destruct deployment as [d|]; [simpl|done].
  destruct (updateOrFail w _ _) as [w1 [e|d1]]; [done|].
  destruct (pollScaleup tick attempts d1 0 w1) as [[w2 [e|]]|]; [done| |done].
  simpl. destruct (updateOrFail w2 _ _) as [w3 [e|d3]] eqn:Hup; [done|].
  destruct (pollScaleup tick attempts d3 1 w3) as [[w4 err]|] eqn:HP; [|done].
  intros [= -> <- ->]. split; [by eexists|].
  apply updateOrFail_inr in Hup.
  apply pollScaleup_nil in HP as (fetched & Hget & Hone).
  by exists w2, d1, w3, d3, fetched.
Qed.

Lemma rescaleDeployment_post_witness :
  (∃ d0, Some ex_operator = Some d0
         ∧ ex_operator = set_dep_SpecReplicas (Some 1%Z) d0)
  ∧ ∃ w2 d1 w3 d fetched,
      UpdateDeployment w2 (set_dep_SpecReplicas (Some 1%Z) d1)
      = (w3, (Some d, true, None))
      ∧ GetDeployment ex_cluster (dep_Namespace d) (dep_Name d)
        = (Some fetched, None)
      ∧ dep_StatusReplicas fetched = 1%Z.
Proof.
  exact (rescaleDeployment_post sim_tick pollAttempts (Some ex_operator)
           ex_cluster ex_cluster ex_operator eq_refl).
Defined.

(** C31. [getOperatorDeployment] returns a deployment and a nil error
    exactly when the listing succeeds with exactly one item, which is then
    the deployment returned; in every other case it returns nil and the
    error that names the labels. *)
Theorem getOperatorDeployment_single {W : Type} `{!ClientInterface W}
  (w : W) namespace operatorLabels :
  (∀ d, getOperatorDeployment w namespace operatorLabels = (Some d, None)
        ↔ ListDeploymentsWithLabels w namespace operatorLabels = (Some [d], None))
  ∧ ((∀ d, ListDeploymentsWithLabels w namespace operatorLabels ≠ (Some [d], None))
     → getOperatorDeployment w namespace operatorLabels
       = (None, Some (ErrOther
                        ("Error getting single operator deployment for label: "
                         +:+ Set_String operatorLabels)))).
Proof.
  unfold getOperatorDeployment.
  destruct (ListDeploymentsWithLabels _ _ _) as [[[|d0 [|d1 items]]|] [e|]];
    simpl; split; try (intros d; split; congruence); try done.
  intros Hne. by destruct (Hne d0).
Qed.

(** C32. Liveness of [rescaleDeployment]: if both updates are accepted and
    the deployment is seen at zero and then at one replica within the poll
    bound, the helper returns a nil error, having waited exactly as long as
    the two scalings took, and the caller's deployment requests one
    replica. *)
Theorem rescaleDeployment_live {W : Type} `{!ClientInterface W} (tick : W → W)
  attempts (d d1 d3 : Deployment) (w w1 w3 : W) k0 k1 :
  UpdateDeployment w (set_dep_SpecReplicas (Some 0%Z) d)
  = (w1, (Some d1, true, None)) →
  k0 < attempts → scalesWithin tick w1 d1 0 k0 →
  UpdateDeployment (Nat.iter (S k0) tick w1) (set_dep_SpecReplicas (Some 1%Z) d1)
  = (w3, (Some d3, true, None)) →
  k1 < attempts → scalesWithin tick w3 d3 1 k1 →
  rescaleDeployment tick attempts (Some d) w
  = Returns (Nat.iter (S k1) tick w3, set_dep_SpecReplicas (Some 1%Z) d, None).
Proof.
  intros Hup0 Hk0 Hs0 Hup1 Hk1 Hs1. unfold rescaleDeployment. simpl.
  rewrite (updateOrFail_ok _ _ _ _ _ Hup0).
  rewrite (pollScaleup_scalesWithin _ _ _ _ _ k0) by done. simpl.
  rewrite (updateOrFail_ok _ _ _ _ _ Hup1).
  by rewrite (pollScaleup_scalesWithin _ _ _ _ _ k1).
Qed.

Lemma rescaleDeployment_live_witness :
  rescaleDeployment sim_tick pollAttempts (Some ex_operator) ex_cluster
  = Returns (ex_cluster, ex_operator, None).
Proof.
  refine (eq_trans
            (rescaleDeployment_live sim_tick pollAttempts ex_operator _ _
               ex_cluster _ _ 0 0 eq_refl _ _ eq_refl _ _) _).
  - vm_compute. lia.
  - split; [intros j Hj; lia|by eexists].
  - vm_compute. lia.
  - split; [intros j Hj; lia|by eexists].
  - reflexivity.
Defined.

(** C33. Failures of [rescaleDeployment] before any polling: a nil
    deployment panics; and if the first update is not accepted (an error, a
    nil result, or no change reported, as for a deployment already at zero
    replicas) the helper returns "Failed to scale down deployment", leaves
    the cluster as that update left it, and leaves the caller's deployment
    requesting zero replicas. *)
Theorem rescaleDeployment_scale_down_fails {W : Type} `{!ClientInterface W}
  (tick : W → W) attempts (w : W) :
  rescaleDeployment tick attempts None w = Panics NilPointerDereference
  ∧ ∀ d, (∀ d', (UpdateDeployment w (set_dep_SpecReplicas (Some 0%Z) d)).2
                ≠ (Some d', true, None)) →
         rescaleDeployment tick attempts (Some d) w
         = Returns ((UpdateDeployment w (set_dep_SpecReplicas (Some 0%Z) d)).1,
                    set_dep_SpecReplicas (Some 0%Z) d,
                    Some (ErrOther "Failed to scale down deployment")).
Proof.
  split; [done|]. intros d Hne. unfold rescaleDeployment. simpl.
  destruct (updateOrFail w _ _) as [w1 [e|d1]] eqn:Hu.
  - apply updateOrFail_inl in Hu as (-> & -> & _). reflexivity.
  - apply updateOrFail_inr in Hu. exfalso. apply (Hne d1). by rewrite Hu.
Qed.

Lemma rescaleDeployment_scale_down_fails_witness :
  rescaleDeployment sim_tick pollAttempts (Some ex_idle) ex_idle_cluster
  = Returns (ex_idle_cluster, ex_idle,
             Some (ErrOther "Failed to scale down deployment")).
Proof.
  rewrite (proj2 (rescaleDeployment_scale_down_fails sim_tick pollAttempts
                    ex_idle_cluster) ex_idle); [reflexivity|].
  intros d'. vm_compute. congruence.
Defined.

(** C34. A scale-down that does not finish in time.  If the first update is
    accepted and the deployment is not seen at zero replicas within the
    bound, no read failing, [rescaleDeployment] returns the timeout error
    after exactly the bound.  It makes no further update: the cluster is
    left as the polling left it, with the deployment requested at zero
    replicas, and so is the caller's object. *)
Theorem rescaleDeployment_scale_down_timeout {W : Type} `{!ClientInterface W}
  (tick : W → W) attempts (d d1 : Deployment) (w w1 : W) :
  UpdateDeployment w (set_dep_SpecReplicas (Some 0%Z) d)
  = (w1, (Some d1, true, None)) →
  (∀ j, j < attempts →
     ∃ fetched,
       GetDeployment (Nat.iter (S j) tick w1) (dep_Namespace d1) (dep_Name d1)
       = (Some fetched, None)
       ∧ dep_StatusReplicas fetched ≠ 0%Z) →
  rescaleDeployment tick attempts (Some d) w
  = Returns (Nat.iter attempts tick w1, set_dep_SpecReplicas (Some 0%Z) d,
             Some ErrWaitTimeout).
Proof.
  intros Hup Hnot. unfold rescaleDeployment. simpl.
  by rewrite (updateOrFail_ok _ _ _ _ _ Hup), pollScaleup_timeout.
Qed.

Lemma rescaleDeployment_scale_down_timeout_witness :
  rescaleDeployment sim_tick 2 (Some ex_busy) ex_busy_cluster
  = Returns (mkSimCluster [mkDeployment "olm" "busy" (Some 0%Z) 3],
             set_dep_SpecReplicas (Some 0%Z) ex_busy, Some ErrWaitTimeout).
Proof.
  refine (eq_trans
            (rescaleDeployment_scale_down_timeout sim_tick 2 ex_busy _
               ex_busy_cluster _ eq_refl _) _).
  - intros [|[|j]] Hj; [by eexists..|lia].
  - reflexivity.
Defined.

(** ** What the scenarios use of the helpers *)

(** A deployment returned with a nil error is not nil. *)
Lemma getOperatorDeployment_nil_Some {W : Type} `{!ClientInterface W}
  (w : W) namespace operatorLabels deployment :
  getOperatorDeployment w namespace operatorLabels = (deployment, None) →
  is_Some deployment.
Proof.
  unfold getOperatorDeployment.
  destruct (ListDeploymentsWithLabels _ _ _) as [[[|d0 [|d1 items]]|] [e|]];
    simpl; by intros [= <-].
Qed.

(** [rescaleDeployment] on a deployment panics only when the client
    answers a read of the polls with a nil deployment and a nil error. *)
Lemma rescaleDeployment_Some_Panics {W : Type} `{!ClientInterface W}
  (tick : W → W) attempts d (w : W) p :
  rescaleDeployment tick attempts (Some d) w = Panics p →
  ∃ w' namespace name, GetDeployment w' namespace name = (None, None).
Proof.
  unfold rescaleDeployment. simpl.
  destruct (updateOrFail w _ _) as [w1 [e|d1]]; [done|].
  destruct (pollScaleup tick attempts d1 0 w1) as [[w2 [e|]]|] eqn:HP1;
    [done| |apply pollScaleup_Panics in HP1 as (k & _ & Hg); eauto].
  simpl. destruct (updateOrFail w2 _ _) as [w3 [e|d3]]; [done|].
  destruct (pollScaleup tick attempts d3 1 w3) as [[w4 err]|] eqn:HP2; [done|].
  apply pollScaleup_Panics in HP2 as (k & _ & Hg). eauto.
Qed.
