(* ===== verification/Registry.v ===== *)
(** * Registry: catalog content and the fixtures of the scenarios

    The content a catalog publishes, as the end-to-end scenarios build it:
    [registry.PackageManifest] and [registry.PackageChannel] literals, custom
    resource definitions and cluster service versions made by the harness
    constructors [newCRD] and [newCSV], and the three keys of the backing
    config map.  The fixtures are functions of the names the scenarios draw
    with [genName].

    The types are those of the registry and API packages, which are not
    under src/: their fields are the ones the literals of the tests set.
    The package server that turns this content into served manifests is
    not modelled; [expectedStatus] is the status
    [TestPackageManifestLoading] compares what it serves with. *)

From stdpp Require Import base tactics option list strings gmap.
From S2P Require Import Prelude CatalogSourceTypes Wait E2E.

#[local] Open Scope string_scope.
#[local] Open Scope list_scope.

(** ** Catalog content *)

(** [registry.PackageChannel] *)
Record RegistryPackageChannel : Type := mkRegistryPackageChannel {
  rpc_Name : string;
  rpc_CurrentCSVName : string
}.

(** [registry.PackageManifest] *)
Record RegistryPackageManifest : Type := mkRegistryPackageManifest {
  rpm_PackageName : string;
  rpm_Channels : list RegistryPackageChannel;
  rpm_DefaultChannelName : string
}.

(** [apiextensions.CustomResourceDefinition]: its name and plural. *)
Record CustomResourceDefinition : Type := mkCustomResourceDefinition {
  crd_Name : string;
  crd_Plural : string
}.

(** [v1alpha1.ClusterServiceVersion]: the arguments of [newCSV]. *)
Record ClusterServiceVersion : Type := mkClusterServiceVersion {
  csv_Name : string;
  csv_Namespace : string;
  csv_Replaces : string;
  csv_Version : string;
  csv_OwnedCRDs : list CustomResourceDefinition;
  csv_RequiredCRDs : list CustomResourceDefinition;
  csv_Strategy : string
}.

#[export] Instance RegistryPackageChannel_eq_dec : EqDecision RegistryPackageChannel.
Proof. solve_decision. Defined.
#[export] Instance RegistryPackageManifest_eq_dec : EqDecision RegistryPackageManifest.
Proof. solve_decision. Defined.
#[export] Instance CustomResourceDefinition_eq_dec : EqDecision CustomResourceDefinition.
Proof. solve_decision. Defined.
#[export] Instance ClusterServiceVersion_eq_dec : EqDecision ClusterServiceVersion.
Proof. solve_decision. Defined.

(** The harness constructors. *)
Definition newCRD (plural : string) : CustomResourceDefinition :=
  mkCustomResourceDefinition (plural +:+ ".cluster.com") plural.

(** [newNginxInstallStrategy(name, nil, nil)]: the strategy is known by the
    name of its deployment. *)
Definition newNginxInstallStrategy (name : string) : string := name.

Definition newCSV (name namespace replaces version : string)
  (owned required : list CustomResourceDefinition) (namedStrategy : string)
  : ClusterServiceVersion :=
  mkClusterServiceVersion name namespace replaces version owned required
    namedStrategy.

(** What [createInternalCatalogSource] is given, and what the three keys of
    the config map hold ([ConfigMapPackageName], [ConfigMapCRDName],
    [ConfigMapCSVName]). *)
Record CatalogContent : Type := mkCatalogContent {
  cc_Packages : list RegistryPackageManifest;
  cc_CRDs : list CustomResourceDefinition;
  cc_CSVs : list ClusterServiceVersion
}.

#[export] Instance CatalogContent_eq_dec : EqDecision CatalogContent.
Proof. solve_decision. Defined.

(** ** Fixtures of catalog_e2e_test.go *)

(** TestCatalogLoadingBetweenRestarts, lines 29-45. *)
Definition stableChannel : string := "stable".

Definition packageStable (packageName : string) : string :=
  packageName +:+ "-stable".

Definition manifests (packageName : string) : list RegistryPackageManifest :=
  [mkRegistryPackageManifest packageName
     [mkRegistryPackageChannel stableChannel (packageStable packageName)]
     stableChannel].

Definition csv (testNamespace packageName crdPlural strategyName : string)
  : ClusterServiceVersion :=
  let crd := newCRD crdPlural in
  let namedStrategy := newNginxInstallStrategy strategyName in
  newCSV (packageStable packageName) testNamespace "" "0.1.0" [crd] []
    namedStrategy.

(** TestConfigMapUpdateTriggersRegistryPodRollout and
    TestConfigMapReplaceTriggersRegistryPodRollout, lines 105-146 and
    220-261. *)
Definition mainPackageStable (mainPackageName : string) : string :=
  mainPackageName +:+ "-stable".

Definition dependentPackageStable (dependentPackageName : string) : string :=
  dependentPackageName +:+ "-stable".

Definition dependentCRD (crdPlural : string) : CustomResourceDefinition :=
  newCRD crdPlural.

Definition mainCSV (testNamespace mainPackageName crdPlural strategyName : string)
  : ClusterServiceVersion :=
  newCSV (mainPackageStable mainPackageName) testNamespace "" "0.1.0" []
    [dependentCRD crdPlural] (newNginxInstallStrategy strategyName).

Definition dependentCSV
  (testNamespace dependentPackageName crdPlural strategyName : string)
  : ClusterServiceVersion :=
  newCSV (dependentPackageStable dependentPackageName) testNamespace "" "0.1.0"
    [dependentCRD crdPlural] [] (newNginxInstallStrategy strategyName).

Definition mainManifests (mainPackageName : string) : list RegistryPackageManifest :=
  [mkRegistryPackageManifest mainPackageName
     [mkRegistryPackageChannel stableChannel (mainPackageStable mainPackageName)]
     stableChannel].

Definition dependentManifests (dependentPackageName : string)
  : list RegistryPackageManifest :=
  [mkRegistryPackageManifest dependentPackageName
     [mkRegistryPackageChannel stableChannel
        (dependentPackageStable dependentPackageName)]
     stableChannel].

(** The names one run of the two scenarios draws. *)
Record rolloutNames : Type := mkRolloutNames {
  rn_testNamespace : string;
  rn_mainPackageName : string;
  rn_dependentPackageName : string;
  rn_crdPlural : string;
  rn_mainStrategy : string;
  rn_dependentStrategy : string
}.

(** The content the catalog is created with (line 149 and line 264). *)
Definition initialContent (n : rolloutNames) : CatalogContent :=
  mkCatalogContent (mainManifests (rn_mainPackageName n)) []
    [mainCSV (rn_testNamespace n) (rn_mainPackageName n) (rn_crdPlural n)
       (rn_mainStrategy n)].

(** The content after the config map update (lines 164-182), which is also
    the content of the catalog created in place of the first (line 282). *)
Definition updatedContent (n : rolloutNames) : CatalogContent :=
  mkCatalogContent
    (mainManifests (rn_mainPackageName n)
     ++ dependentManifests (rn_dependentPackageName n))
    [dependentCRD (rn_crdPlural n)]
    [mainCSV (rn_testNamespace n) (rn_mainPackageName n) (rn_crdPlural n)
       (rn_mainStrategy n);
     dependentCSV (rn_testNamespace n) (rn_dependentPackageName n)
       (rn_crdPlural n) (rn_dependentStrategy n)].

(** ** Fixtures of packagemanifest_e2e_test.go *)

(** [packagev1.CreateCSVDescription]: what the package server shows of a
    cluster service version; of the description the model keeps the
    version. *)
Definition CreateCSVDescription (c : ClusterServiceVersion) : string :=
  csv_Version c.

(** The status [TestPackageManifestLoading] expects (lines 125-137). *)
Definition expectedStatus (catalogSourceName testNamespace packageName : string)
  (csv : ClusterServiceVersion) : PackageManifestStatus :=
  mkPackageManifestStatus catalogSourceName testNamespace packageName
    [mkPackageChannel stableChannel (packageStable packageName)
       (CreateCSVDescription csv)]
    stableChannel.

(** ** Example data *)

Definition ex_names : rolloutNames :=
  mkRolloutNames "test" "nginx-a1" "nginxdep-b2" "ins-c3" "dep-d4" "dep-e5".
