(* ===== verification/Resolver.v ===== *)
(** * Resolver: the Dependency Resolver

    Section 4.5 of the specification.  No resolver is under [src/]; the
    algorithm is written from the specification over the catalog content of
    [Registry], which is what the scenarios of catalog_e2e_test.go publish:
    a cluster service version is a version entry, the custom resource
    definitions it owns and requires are its capability types.

    [ResolvePlan] builds the visible catalog set ([visibleCatalogs]), finds
    the root entry ([rootEntry]), collects the entries its requirements
    reach ([closure], breadth first, one round per unit of fuel), rejects a
    capability owned by two packages ([findConflict]) and orders the
    entries providers first ([topoOrder]: the least entry, by package and
    version, among those whose requirements are already provided).

    The fuel of [closure] is the number of entries the visible catalogs
    publish; [closure_fuel] shows it is never exhausted.  [schedule] runs
    once per entry. *)

From stdpp Require Import base tactics option list strings gmap sorting.
From S2P Require Import Prelude CatalogSourceTypes Wait E2E Registry.

#[local] Open Scope string_scope.
#[local] Open Scope list_scope.
#[local] Open Scope nat_scope.

(** ** Data *)

(** A catalog as the resolver sees it: its key, whether the reconciler
    keeps it healthy, and what it publishes. *)
Record Catalog : Type := mkCatalog {
  cat_Name : string;
  cat_Namespace : string;
  cat_Healthy : bool;
  cat_Content : CatalogContent
}.

(** A version entry: a cluster service version with the catalog and the
    package that publish it. *)
Record VersionEntry : Type := mkVersionEntry {
  ve_Catalog : string;
  ve_Package : string;
  ve_CSV : ClusterServiceVersion
}.

#[export] Instance Catalog_eq_dec : EqDecision Catalog.
Proof. solve_decision. Defined.
#[export] Instance VersionEntry_eq_dec : EqDecision VersionEntry.
Proof. solve_decision. Defined.

Inductive ResolutionError : Type :=
| UnsatisfiableDependency (c : CustomResourceDefinition)
| OwnershipConflict (c : CustomResourceDefinition)
| DependencyCycle
| TargetNotFound
| InternalError.

#[export] Instance ResolutionError_eq_dec : EqDecision ResolutionError.
Proof. solve_decision. Defined.

(** The plan: the entries in the order they are to be materialised, the
    custom resource definitions they need, and the approval flag. *)
Record InstallationPlan : Type := mkInstallationPlan {
  plan_Entries : list VersionEntry;
  plan_CRDs : list CustomResourceDefinition;
  plan_Approved : bool
}.

#[export] Instance InstallationPlan_eq_dec : EqDecision InstallationPlan.
Proof. solve_decision. Defined.

Definition owned (e : VersionEntry) : list CustomResourceDefinition :=
  csv_OwnedCRDs (ve_CSV e).

Definition required (e : VersionEntry) : list CustomResourceDefinition :=
  csv_RequiredCRDs (ve_CSV e).

(** ** Step 1: the visible catalogs *)

Definition visibleCatalogs (namespace globalNamespace : string)
  (cats : list Catalog) : list Catalog :=
  let locals :=
    filter (λ c, cat_Healthy c = true ∧ cat_Namespace c = namespace) cats in
  let globals :=
    filter (λ c, cat_Healthy c = true ∧ cat_Namespace c = globalNamespace
                 ∧ cat_Namespace c ≠ namespace
                 ∧ cat_Name c ∉ cat_Name <$> locals) cats in
  locals ++ globals.

(** The package that publishes a cluster service version: the first whose
    channels name it. *)
Definition packageOf (content : CatalogContent) (csvName : string) : string :=
  default ""
    ((rpm_PackageName ∘ snd)
       <$> list_find (λ m, csvName ∈ rpc_CurrentCSVName <$> rpm_Channels m)
             (cc_Packages content)).

Definition entriesOf (cat : Catalog) : list VersionEntry :=
  (λ c, mkVersionEntry (cat_Name cat) (packageOf (cat_Content cat) (csv_Name c)) c)
    <$> cc_CSVs (cat_Content cat).

Definition allEntries (visible : list Catalog) : list VersionEntry :=
  visible ≫= entriesOf.

(** ** Step 2: the root *)

Definition rootEntry (visible : list Catalog)
  (targetCatalog targetPackage targetChannel : string)
  (startingVersion : option string) : option VersionEntry :=
  cat ← lookup_key cat_Name targetCatalog visible;
  m ← lookup_key rpm_PackageName targetPackage (cc_Packages (cat_Content cat));
  version ← match startingVersion with
            | Some v => Some v
            | None => rpc_CurrentCSVName
                        <$> lookup_key rpc_Name targetChannel (rpm_Channels m)
            end;
  lookup_key (csv_Name ∘ ve_CSV) version (entriesOf cat).

(** ** Step 3: the entries the requirements reach *)

Definition owners (all : list VersionEntry) (c : CustomResourceDefinition)
  : list VersionEntry :=
  filter (λ e, c ∈ owned e) all.

(** The provider chosen for a capability: the first owner in the order of
    the visible catalogs. *)
Definition provider (all : list VersionEntry) (c : CustomResourceDefinition)
  : option VersionEntry :=
  head (owners all c).

(** The providers of a list of capabilities, or the first one nobody
    owns. *)
Fixpoint providers (all : list VersionEntry) (cs : list CustomResourceDefinition)
  : CustomResourceDefinition + list VersionEntry :=
  match cs with
  | [] => inr []
  | c :: cs =>
      match provider all c with
      | None => inl c
      | Some p =>
          match providers all cs with
          | inl c' => inl c'
          | inr ps => inr (p :: ps)
          end
      end
  end.

Definition fresh (acc frontier : list VersionEntry) : list VersionEntry :=
  remove_dups (filter (λ e, e ∉ acc) frontier).

(** Breadth first: the entries of the frontier that are new join the
    accumulated set, and their providers are the next frontier. *)
Fixpoint closure (all : list VersionEntry) (fuel : nat)
  (frontier acc : list VersionEntry) : ResolutionError + list VersionEntry :=
  match fresh acc frontier with
  | [] => inr acc
  | new =>
      match fuel with
      | 0 => inl InternalError
      | S fuel =>
          match providers all (new ≫= required) with
          | inl c => inl (UnsatisfiableDependency c)
          | inr ps => closure all fuel ps (acc ++ new)
          end
      end
  end.

(** ** Step 3, second half: one owner per capability *)

(** A capability that two of the entries, of different packages, own. *)
Definition conflicting (selected : list VersionEntry) (c : CustomResourceDefinition)
  : Prop :=
  Exists (λ e1, Exists (λ e2, ve_Package e1 ≠ ve_Package e2
                              ∧ c ∈ owned e1 ∧ c ∈ owned e2) selected) selected.

#[export] Instance conflicting_dec selected c : Decision (conflicting selected c).
Proof. unfold conflicting. apply _. Defined.

Definition findConflict (selected : list VersionEntry)
  : option CustomResourceDefinition :=
  snd <$> list_find (conflicting selected) (selected ≫= owned).

(** ** Steps 4 and 5: cycles and order *)

(** The order that breaks ties: package name, then version. *)
Definition entry_key (e : VersionEntry) : string * string :=
  (ve_Package e, csv_Version (ve_CSV e)).

Definition entry_le (e1 e2 : VersionEntry) : Prop :=
  lex_le String.le String.le (entry_key e1) (entry_key e2).

#[export] Instance entry_le_dec : RelDecision entry_le.
Proof. intros e1 e2. unfold entry_le. apply _. Defined.

(** An entry can be materialised once everything it requires is owned by
    an entry already emitted. *)
Definition ready (emitted : list VersionEntry) (e : VersionEntry) : Prop :=
  Forall (λ c, Exists (λ p, c ∈ owned p) emitted) (required e).

#[export] Instance ready_dec emitted e : Decision (ready emitted e).
Proof. unfold ready. apply _. Defined.

(** [n] rounds: each emits the first ready entry of [remaining].  [None]
    when entries remain and none is ready. *)
Fixpoint schedule (n : nat) (remaining emitted : list VersionEntry)
  : option (list VersionEntry) :=
  match n with
  | 0 => match remaining with [] => Some emitted | _ => None end
  | S n =>
      match list_find (ready emitted) remaining with
      | Some (i, e) => schedule n (delete i remaining) (emitted ++ [e])
      | None => match remaining with [] => Some emitted | _ => None end
      end
  end.

Definition topoOrder (selected : list VersionEntry) : option (list VersionEntry) :=
  schedule (length selected) (merge_sort entry_le selected) [].

(** ** Step 6: the plan *)

Definition ResolvePlan (cats : list Catalog) (namespace globalNamespace : string)
  (targetCatalog targetPackage targetChannel : string)
  (startingVersion : option string) (automatic : bool)
  : ResolutionError + InstallationPlan :=
  let visible := visibleCatalogs namespace globalNamespace cats in
  let all := allEntries visible in
  match rootEntry visible targetCatalog targetPackage targetChannel
          startingVersion with
  | None => inl TargetNotFound
  | Some root =>
      match closure all (length all) [root] [] with
      | inl e => inl e
      | inr selected =>
          match findConflict selected with
          | Some c => inl (OwnershipConflict c)
          | None =>
              match topoOrder selected with
              | None => inl DependencyCycle
              | Some entries =>
                  inr (mkInstallationPlan entries
                         (remove_dups (entries ≫= λ e, owned e ++ required e))
                         automatic)
              end
          end
      end
  end.

(** ** Specification devices *)

(** Providers before the entries that require their capabilities. *)
Definition topological (entries : list VersionEntry) : Prop :=
  ∀ i e, entries !! i = Some e → ready (take i entries) e.

(** The recursive reading of [topological], relative to what has been
    emitted already. *)
Fixpoint topo_from (emitted entries : list VersionEntry) : Prop :=
  match entries with
  | [] => True
  | e :: entries => ready emitted e ∧ topo_from (emitted ++ [e]) entries
  end.

(** A set of entries that some order materialises. *)
Definition orderable (selected : list VersionEntry) : Prop :=
  ∃ entries, entries ≡ₚ selected ∧ topological entries.

(** The requirements of the accumulated entries are owned within the
    accumulated entries and the frontier. *)
Definition provided (frontier acc : list VersionEntry) : Prop :=
  Forall (λ e, Forall (λ c, Exists (λ p, c ∈ owned p) (acc ++ frontier))
                 (required e)) acc.

(** [e] requires a capability that, within the set, only [p] owns. *)
Definition requires_from (selected : list VersionEntry) (e p : VersionEntry)
  : Prop :=
  e ∈ selected
  ∧ ∃ c, c ∈ required e ∧ c ∈ owned p
         ∧ ∀ q, q ∈ selected → c ∈ owned q → q = p.

(** Every requirement of an entry of the set has an owner in the set. *)
Definition closed (selected : list VersionEntry) : Prop :=
  Forall (λ e, Forall (λ c, Exists (λ p, c ∈ owned p) selected) (required e))
    selected.

#[export] Instance closed_dec selected : Decision (closed selected).
Proof. unfold closed. apply _. Defined.

(** ** Example data: the catalogs of the rollout scenarios *)

Definition ex_catalog_initial : Catalog :=
  mkCatalog "mock-ocs-main" "test" true (initialContent ex_names).

Definition ex_catalog_updated : Catalog :=
  mkCatalog "mock-ocs-main" "test" true (updatedContent ex_names).

Definition ex_main : VersionEntry :=
  mkVersionEntry "mock-ocs-main" "nginx-a1"
    (mainCSV "test" "nginx-a1" "ins-c3" "dep-d4").

Definition ex_dependent : VersionEntry :=
  mkVersionEntry "mock-ocs-main" "nginxdep-b2"
    (dependentCSV "test" "nginxdep-b2" "ins-c3" "dep-e5").

(** ** Lemmas on order *)

Lemma ready_mono emitted emitted' e :
  emitted ⊆ emitted' → ready emitted e → ready emitted' e.
Proof.
  intros Hsub. by apply Forall_Exists_mono.
Qed.

Lemma topo_from_mono emitted emitted' entries :
  emitted ⊆ emitted' → topo_from emitted entries → topo_from emitted' entries.
Proof.
  revert emitted emitted'.
  induction entries as [|e entries IH]; intros E E' Hsub; [done|].
  intros [Hr Ht]. split; [by eapply ready_mono|].
  eapply IH; [|done]. set_solver.
Qed.

Lemma topo_from_lookup emitted entries :
  topo_from emitted entries
  ↔ ∀ i e, entries !! i = Some e → ready (emitted ++ take i entries) e.
Proof.
  revert emitted. induction entries as [|e entries IH]; intros E; simpl.
  - split; [by intros _ i e|done].
  - rewrite IH. split.
    + intros [Hr Ht] [|i] x Hx; simplify_eq/=; [by rewrite app_nil_r|].
      rewrite cons_middle, (assoc_L (++)). by apply Ht.
    + intros Hall. split; [rewrite <-(app_nil_r E); by apply (Hall 0)|].
      intros i x Hx. specialize (Hall (S i) x Hx). simpl in Hall.
      by rewrite cons_middle, (assoc_L (++)) in Hall.
Qed.

Lemma topological_topo_from entries : topological entries ↔ topo_from [] entries.
Proof. by rewrite topo_from_lookup. Qed.

(** Taking a ready entry out of an order and emitting it first leaves an
    order. *)
Lemma topo_from_delete emitted entries k e :
  topo_from emitted entries → entries !! k = Some e → ready emitted e →
  topo_from (emitted ++ [e]) (delete k entries).
Proof.
  revert emitted k. induction entries as [|o entries IH]; intros E k; [done|].
  intros [Ho Ht] Hk He. destruct k as [|k]; simplify_eq/=; [done|]. split.
  - eapply ready_mono; [|done]. set_solver.
  - eapply topo_from_mono; [|apply (IH (E ++ [o]) k); [done..|]].
    + set_solver.
    + eapply ready_mono; [|done]. set_solver.
Qed.

(** What [schedule] returns extends what was emitted by an order of what
    remained. *)
Lemma schedule_Some n remaining emitted out :
  schedule n remaining emitted = Some out →
  ∃ tail, out = emitted ++ tail ∧ tail ≡ₚ remaining ∧ topo_from emitted tail.
Proof.
  revert remaining emitted.
  induction n as [|n IH]; intros remaining emitted; simpl.
  - destruct remaining; [|done]. intros [= <-]. exists []. by rewrite app_nil_r.
  - destruct (list_find _ remaining) as [[i e]|] eqn:Hf.
    + intros (tail & -> & Hperm & Ht)%IH.
      apply list_find_Some in Hf as (Hi & Hr & _).
      exists (e :: tail). split_and!; [by rewrite <-(assoc_L (++))| |done].
      by rewrite Hperm, <-delete_Permutation.
    + destruct remaining; [|done]. intros [= <-]. exists [].
      by rewrite app_nil_r.
Qed.

(** [schedule] finds an order whenever there is one. *)
Lemma schedule_is_Some n remaining emitted order :
  length remaining ≤ n → order ≡ₚ remaining → topo_from emitted order →
  is_Some (schedule n remaining emitted).
Proof.
  revert remaining emitted order.
  induction n as [|n IH]; intros remaining emitted order Hn Hperm Ht; simpl.
  - destruct remaining; [done|simpl in Hn; lia].
  - destruct (list_find _ remaining) as [[i e]|] eqn:Hf.
    + apply list_find_Some in Hf as (Hi & Hr & _).
      assert (e ∈ order) as [k Hk]%list_elem_of_lookup_1.
      { rewrite Hperm. by eapply list_elem_of_lookup_2. }
      apply (IH _ _ (delete k order)).
      * rewrite length_delete by done. lia.
      * apply (Permutation_cons_inv (a := e)).
        by rewrite <-!delete_Permutation.
      * by apply topo_from_delete.
    + destruct remaining as [|r remaining]; [done|]. exfalso.
      destruct order as [|o order]; [by apply Permutation_nil_cons in Hperm|].
      destruct Ht as [Ho _]. apply list_find_None in Hf.
      eapply Forall_forall in Hf; [by apply Hf|]. rewrite <-Hperm. set_solver.
Qed.

#[export] Instance entry_le_trans : Transitive entry_le.
Proof. intros x y z. unfold entry_le. apply transitivity. Qed.

#[export] Instance entry_le_total : Total entry_le.
Proof. intros x y. unfold entry_le. apply total, _. Qed.

Lemma entry_le_anti_symm e1 e2 :
  entry_le e1 e2 → entry_le e2 e1 → entry_key e1 = entry_key e2.
Proof. unfold entry_le. apply (anti_symm _). Qed.

Lemma topoOrder_Some selected entries :
  topoOrder selected = Some entries →
  entries ≡ₚ selected ∧ topological entries.
Proof.
  unfold topoOrder. intros (tail & -> & Hperm & Ht)%schedule_Some. simpl.
  split; [by rewrite Hperm, merge_sort_Permutation|].
  by apply topological_topo_from.
Qed.

Lemma topoOrder_is_Some selected :
  orderable selected → is_Some (topoOrder selected).
Proof.
  intros (order & Hperm & Ht). unfold topoOrder.
  apply (schedule_is_Some _ _ _ order).
  - by rewrite merge_sort_Permutation.
  - by rewrite merge_sort_Permutation.
  - by apply topological_topo_from.
Qed.

(** The sorted list of a set of entries with distinct keys does not depend
    on the order they were found in. *)
Lemma merge_sort_entries_Permutation selected selected' :
  selected ≡ₚ selected' → NoDup (entry_key <$> selected) →
  merge_sort entry_le selected = merge_sort entry_le selected'.
Proof.
  intros Hperm Hnd. apply (StronglySorted_unique_strong entry_le).
  - intros x1 x2 Hx1 Hx2 H12 H21. rewrite merge_sort_Permutation in Hx1, Hx2.
    rewrite <-Hperm in Hx2.
    apply (NoDup_fmap_elem_inj entry_key selected); [done..|].
    by apply entry_le_anti_symm.
  - apply StronglySorted_merge_sort; apply _.
  - apply StronglySorted_merge_sort; apply _.
  - by rewrite !merge_sort_Permutation.
Qed.

(** ** Lemmas on the closure *)

Lemma provider_Some all c p : provider all c = Some p → p ∈ all ∧ c ∈ owned p.
Proof.
  unfold provider, owners. intros Hh%head_Some_elem_of.
  by apply list_elem_of_filter in Hh as [? ?].
Qed.

Lemma provider_None all c p : provider all c = None → p ∈ all → c ∉ owned p.
Proof.
  unfold provider, owners. intros Hn%head_None Hp Hc.
  by apply (filter_nil_not_elem_of _ _ _ Hn Hc).
Qed.

Lemma providers_inr all cs ps :
  providers all cs = inr ps →
  ps ⊆ all ∧ Forall (λ c, Exists (λ p, c ∈ owned p) ps) cs.
Proof.
  revert ps. induction cs as [|c cs IH]; intros ps; simpl.
  - intros [= <-]. split; [set_solver|done].
  - destruct (provider all c) as [p|] eqn:Hp; [|done].
    destruct (providers all cs) as [|ps'] eqn:Hps; [done|]. intros [= <-].
    apply provider_Some in Hp as [Hin Hc].
    destruct (IH ps' eq_refl) as [Hsub Hall]. split; [set_solver|].
    constructor; [by apply Exists_cons_hd|].
    eapply Forall_impl; [done|]. intros c'. apply Exists_cons_tl.
Qed.

Lemma providers_inl all cs c :
  providers all cs = inl c → c ∈ cs ∧ provider all c = None.
Proof.
  induction cs as [|c' cs IH]; simpl; [done|].
  destruct (provider all c') as [p|] eqn:Hp.
  - destruct (providers all cs) as [c''|]; [|done]. intros [= ->].
    destruct (IH eq_refl). split; [set_solver|done].
  - intros [= ->]. split; [set_solver|done].
Qed.

Lemma fresh_elem_of acc frontier e :
  e ∈ fresh acc frontier ↔ e ∈ frontier ∧ e ∉ acc.
Proof.
  unfold fresh. rewrite elem_of_remove_dups, list_elem_of_filter. tauto.
Qed.

Lemma fresh_nil acc frontier : fresh acc frontier = [] → frontier ⊆ acc.
Proof.
  intros Hf e He. apply dec_stable. intros Hn.
  assert (e ∈ fresh acc frontier) as Hin by by apply fresh_elem_of.
  rewrite Hf in Hin. by apply elem_of_nil in Hin.
Qed.

Lemma NoDup_app_fresh acc frontier :
  NoDup acc → NoDup (acc ++ fresh acc frontier).
Proof.
  intros Hnd. apply NoDup_app. split_and!; [done| |apply NoDup_remove_dups].
  intros e He Hf. by apply fresh_elem_of in Hf as [_ ?].
Qed.

Lemma provided_next all frontier acc ps :
  provided frontier acc →
  providers all (fresh acc frontier ≫= required) = inr ps →
  provided ps (acc ++ fresh acc frontier).
Proof.
  intros Hprov [_ Hps]%providers_inr. apply Forall_app. split.
  - eapply Forall_impl; [done|]. intros e. apply Forall_Exists_mono.
    intros p Hp. destruct (decide (p ∈ acc)); [set_solver|].
    assert (p ∈ fresh acc frontier) by (apply fresh_elem_of; set_solver).
    set_solver.
  - apply Forall_forall. intros e He. apply Forall_forall. intros c Hc.
    eapply Forall_forall in Hps; [|apply list_elem_of_bind; eauto].
    rewrite Exists_exists in *. destruct Hps as (p & Hp & Hcp).
    exists p. split; [set_solver|done].
Qed.

(** The equations of [closure]. *)
Lemma closure_nil all fuel frontier acc :
  fresh acc frontier = [] → closure all fuel frontier acc = inr acc.
Proof. intros Hf. destruct fuel; simpl; by rewrite Hf. Qed.

Lemma closure_0 all frontier acc :
  fresh acc frontier ≠ [] → closure all 0 frontier acc = inl InternalError.
Proof. intros Hf. simpl. by destruct (fresh acc frontier). Qed.

Lemma closure_S all fuel frontier acc :
  fresh acc frontier ≠ [] →
  closure all (S fuel) frontier acc
  = match providers all (fresh acc frontier ≫= required) with
    | inl c => inl (UnsatisfiableDependency c)
    | inr ps => closure all fuel ps (acc ++ fresh acc frontier)
    end.
Proof. intros Hf. simpl. by destruct (fresh acc frontier). Qed.

Lemma fresh_subseteq acc frontier : fresh acc frontier ⊆ frontier.
Proof. by intros e [? _]%fresh_elem_of. Qed.

Lemma closed_fresh_nil frontier acc :
  fresh acc frontier = [] → provided frontier acc → closed acc.
Proof.
  intros Hf%fresh_nil Hprov. unfold closed.
  eapply Forall_impl; [done|]. intros e. apply Forall_Exists_mono. set_solver.
Qed.

(** What [closure] returns: the accumulated entries and the frontier, and
    nothing outside the visible catalogs, without duplicates and closed
    under requirement. *)
Lemma closure_inr all fuel frontier acc selected :
  closure all fuel frontier acc = inr selected →
  NoDup acc → acc ⊆ all → frontier ⊆ all → provided frontier acc →
  NoDup selected ∧ selected ⊆ all ∧ acc ⊆ selected ∧ frontier ⊆ selected
  ∧ closed selected.
Proof.
  revert frontier acc. induction fuel as [|fuel IH]; intros frontier acc;
    (destruct (decide (fresh acc frontier = [])) as [Hf|Hf];
     [rewrite closure_nil by done; intros [= <-] Hnd Hacc Hfr Hprov;
      split_and!; [done..|by apply fresh_nil|by eapply closed_fresh_nil]|]).
  - by rewrite closure_0.
  - rewrite closure_S by done.
    destruct (providers all _) as [c|ps] eqn:Hps; [done|].
    intros Hcl Hnd Hacc Hfr Hprov. pose proof (fresh_subseteq acc frontier).
    apply IH in Hcl as (Hnd' & Hsub & Hacc' & Hps' & Hclosed).
    + split_and!; [done..|set_solver| |done].
      intros e He. destruct (decide (e ∈ acc)); [set_solver|].
      apply Hacc'. apply elem_of_app. right. by apply fresh_elem_of.
    + by apply NoDup_app_fresh.
    + set_solver.
    + by apply providers_inr in Hps as [? _].
    + by eapply provided_next.
Qed.

(** The fuel is never exhausted when it covers the entries not yet
    accumulated. *)
Lemma closure_fuel all fuel frontier acc :
  NoDup acc → acc ⊆ all → frontier ⊆ all → length all ≤ fuel + length acc →
  closure all fuel frontier acc ≠ inl InternalError.
Proof.
  revert frontier acc. induction fuel as [|fuel IH]; intros frontier acc;
    (destruct (decide (fresh acc frontier = [])) as [Hf|Hf];
     [by rewrite closure_nil|]); intros Hnd Hacc Hfr Hlen;
    pose proof (fresh_subseteq acc frontier).
  - exfalso.
    assert (length (acc ++ fresh acc frontier) ≤ length all) as Hle.
    { apply NoDup_subseteq_length; [by apply NoDup_app_fresh|set_solver]. }
    rewrite length_app in Hle. destruct (fresh acc frontier); [done|].
    simpl in *. lia.
  - rewrite closure_S by done.
    destruct (providers all _) as [c|ps] eqn:Hps; [done|]. apply IH.
    + by apply NoDup_app_fresh.
    + set_solver.
    + by apply providers_inr in Hps as [? _].
    + rewrite length_app. destruct (fresh acc frontier); [done|].
      simpl in *. lia.
Qed.

(** A capability reported unsatisfiable is required by an entry of the
    visible catalogs and owned by none. *)
Lemma closure_unsatisfiable all fuel frontier acc c :
  closure all fuel frontier acc = inl (UnsatisfiableDependency c) →
  frontier ⊆ all →
  (∃ e, e ∈ all ∧ c ∈ required e) ∧ ∀ p, p ∈ all → c ∉ owned p.
Proof.
  revert frontier acc. induction fuel as [|fuel IH]; intros frontier acc;
    (destruct (decide (fresh acc frontier = [])) as [Hf|Hf];
     [by rewrite closure_nil|]).
  - by rewrite closure_0.
  - rewrite closure_S by done. pose proof (fresh_subseteq acc frontier).
    destruct (providers all _) as [c'|ps] eqn:Hps.
    + intros [= ->] Hfr. apply providers_inl in Hps as [Hc Hnone].
      apply list_elem_of_bind in Hc as (e & Hce & He).
      split; [exists e; set_solver|]. intros p. by apply provider_None.
    + intros Hcl _. eapply IH; [done|].
      by apply providers_inr in Hps as [? _].
Qed.

Lemma closure_inl all fuel frontier acc err :
  closure all fuel frontier acc = inl err →
  err = InternalError ∨ ∃ c, err = UnsatisfiableDependency c.
Proof.
  revert frontier acc. induction fuel as [|fuel IH]; intros frontier acc;
    (destruct (decide (fresh acc frontier = [])) as [Hf|Hf];
     [by rewrite closure_nil|]).
  - rewrite closure_0 by done. intros [= <-]. by left.
  - rewrite closure_S by done.
    destruct (providers all _) as [c|ps]; [|by apply IH].
    intros [= <-]. right. by eexists.
Qed.

(** ** Lemmas on the root and on conflicts *)

Lemma entriesOf_allEntries visible cat e :
  cat ∈ visible → e ∈ entriesOf cat → e ∈ allEntries visible.
Proof. intros Hcat He. apply list_elem_of_bind. eauto. Qed.

Lemma rootEntry_Some visible targetCatalog targetPackage targetChannel
  startingVersion root :
  rootEntry visible targetCatalog targetPackage targetChannel startingVersion
  = Some root →
  root ∈ allEntries visible ∧ ve_Catalog root = targetCatalog.
Proof.
  unfold rootEntry. intros Hr.
  destruct (lookup_key cat_Name _ _) as [cat|] eqn:Hcat; [simpl in Hr|done].
  destruct (lookup_key rpm_PackageName _ _) as [m|]; [simpl in Hr|done].
  destruct (match startingVersion with Some _ => _ | None => _ end) as [v|];
    [simpl in Hr|done].
  apply lookup_key_Some_elem_of in Hr.
  pose proof (lookup_key_Some_key _ _ _ _ Hcat) as Hname.
  apply lookup_key_Some_elem_of in Hcat. split; [by eapply entriesOf_allEntries|].
  unfold entriesOf in Hr. apply list_elem_of_fmap in Hr as (c & -> & _). done.
Qed.

Lemma conflicting_iff selected c :
  conflicting selected c
  ↔ ∃ e1 e2, e1 ∈ selected ∧ e2 ∈ selected ∧ ve_Package e1 ≠ ve_Package e2
             ∧ c ∈ owned e1 ∧ c ∈ owned e2.
Proof.
  unfold conflicting. rewrite Exists_exists. split.
  - intros (e1 & He1 & (e2 & He2 & ?)%Exists_exists). by exists e1, e2.
  - intros (e1 & e2 & He1 & He2 & ?). exists e1. split; [done|].
    apply Exists_exists. by exists e2.
Qed.

Lemma findConflict_Some selected c :
  findConflict selected = Some c → conflicting selected c.
Proof.
  unfold findConflict. destruct (list_find _ _) as [[i c']|] eqn:Hf; [|done].
  intros [= <-]. by apply list_find_Some in Hf as (_ & ? & _).
Qed.

Lemma findConflict_None selected c :
  findConflict selected = None → ¬ conflicting selected c.
Proof.
  unfold findConflict. destruct (list_find _ _) as [[i c']|] eqn:Hf; [done|].
  intros _ Hc. apply list_find_None in Hf.
  eapply Forall_forall in Hf; [by apply Hf|].
  apply conflicting_iff in Hc as (e1 & _ & He1 & _ & _ & Hc & _).
  apply list_elem_of_bind. eauto.
Qed.

(** [ResolvePlan] step by step. *)
Lemma ResolvePlan_inr cats namespace globalNamespace targetCatalog targetPackage
  targetChannel startingVersion automatic plan :
  ResolvePlan cats namespace globalNamespace targetCatalog targetPackage
    targetChannel startingVersion automatic = inr plan →
  let visible := visibleCatalogs namespace globalNamespace cats in
  ∃ root selected,
    rootEntry visible targetCatalog targetPackage targetChannel startingVersion
    = Some root
    ∧ closure (allEntries visible) (length (allEntries visible)) [root] []
      = inr selected
    ∧ findConflict selected = None
    ∧ topoOrder selected = Some (plan_Entries plan)
    ∧ plan_Approved plan = automatic.
Proof.
  unfold ResolvePlan. cbv zeta.
  destruct (rootEntry _ _ _ _ _) as [root|] eqn:Hroot; [|done].
  destruct (closure _ _ _ _) as [|selected] eqn:Hcl; [done|].
  destruct (findConflict selected) eqn:Hc; [done|].
  destruct (topoOrder selected) as [entries|] eqn:Hord; [|done].
  intros [= <-]. by exists root, selected.
Qed.

(** The closure of the root, as [ResolvePlan] calls it. *)
Lemma closure_root all root selected :
  closure all (length all) [root] [] = inr selected → root ∈ all →
  NoDup selected ∧ selected ⊆ all ∧ root ∈ selected ∧ closed selected.
Proof.
  intros Hcl Hroot.
  apply closure_inr in Hcl as (Hnd & Hsub & _ & Hr & Hclosed);
    [|apply NoDup_nil_2|set_solver|set_solver|by apply Forall_nil_2].
  split_and!; [done..|set_solver|done].
Qed.

(** ** Lemmas on cycles and on visibility *)

Lemma requires_before order selected e p i :
  order ≡ₚ selected → topological order → requires_from selected e p →
  order !! i = Some e → ∃ j, j < i ∧ order !! j = Some p.
Proof.
  intros Hperm Htopo (_ & c & Hc & Hp & Honly) Hi.
  pose proof (Htopo i e Hi) as Hr. eapply Forall_forall in Hr; [|done].
  apply Exists_exists in Hr as (q & Hq & Hcq).
  apply list_elem_of_lookup_1 in Hq as [j Hj].
  apply lookup_take_Some in Hj as [Hj Hlt]. exists j. split; [done|].
  rewrite Hj. f_equal. apply Honly; [|done].
  rewrite <-Hperm. by eapply list_elem_of_lookup_2.
Qed.

Lemma tc_requires_before order selected e p :
  order ≡ₚ selected → topological order → tc (requires_from selected) e p →
  ∀ i, order !! i = Some e → ∃ j, j < i ∧ order !! j = Some p.
Proof.
  intros Hperm Htopo Htc.
  induction Htc as [e p HR|e x p HR _ IH]; intros i Hi;
    destruct (requires_before _ _ _ _ _ Hperm Htopo HR Hi) as (j & Hj & Hx);
    [by eauto|].
  destruct (IH j Hx) as (k & Hk & Hp). exists k. split; [lia|done].
Qed.

(** A set of entries with a cycle of requirements has no order. *)
Lemma cycle_not_orderable selected e :
  tc (requires_from selected) e e → ¬ orderable selected.
Proof.
  intros Htc (order & Hperm & Htopo).
  assert (∀ i, order !! i ≠ Some e) as Hno.
  { intros i. induction i as [i IH] using lt_wf_ind. intros Hi.
    destruct (tc_requires_before _ _ _ _ Hperm Htopo Htc i Hi) as (j & Hj & He).
    by apply (IH j). }
  assert (e ∈ selected) as He by (by inversion Htc as [?? [? _]|??? [? _] _]).
  rewrite <-Hperm in He. apply list_elem_of_lookup_1 in He as [i Hi].
  by apply (Hno i).
Qed.

Lemma visibleCatalogs_elem_of namespace globalNamespace cats c :
  c ∈ visibleCatalogs namespace globalNamespace cats
  ↔ c ∈ cats ∧ cat_Healthy c = true
    ∧ (cat_Namespace c = namespace
       ∨ cat_Namespace c = globalNamespace
         ∧ ∀ l, l ∈ cats → cat_Healthy l = true → cat_Namespace l = namespace →
                cat_Name l ≠ cat_Name c).
Proof.
  unfold visibleCatalogs. rewrite elem_of_app, !list_elem_of_filter.
  rewrite list_elem_of_fmap. setoid_rewrite list_elem_of_filter. split.
  - intros [(? & ?)|((? & ? & ? & Hno) & ?)]; [naive_solver|].
    split_and!; [done..|]. right. split; [done|].
    intros l Hl Hh Hns Hname. apply Hno. by exists l.
  - intros (? & ? & [?|[? Hno]]); [by left|].
    destruct (decide (cat_Namespace c = namespace)); [by left|]. right.
    split_and!; [done..| |done]. intros (l & ? & (? & ?) & ?). by eapply Hno.
Qed.

(** ** Theorems *)

(** C25. A plan the resolver returns is sound.  Every entry comes after
    the entries that own what it requires, so that no cycle of requirements
    runs through the plan; no entry occurs twice; every entry is published
    by a visible catalog; the root is in the plan; every capability has
    owners of one package only; and the plan is approved exactly under
    automatic approval. *)
Theorem ResolvePlan_sound cats namespace globalNamespace targetCatalog
  targetPackage targetChannel startingVersion automatic plan :
  ResolvePlan cats namespace globalNamespace targetCatalog targetPackage
    targetChannel startingVersion automatic = inr plan →
  let visible := visibleCatalogs namespace globalNamespace cats in
  topological (plan_Entries plan)
  ∧ (∀ e, ¬ tc (requires_from (plan_Entries plan)) e e)
  ∧ NoDup (plan_Entries plan)
  ∧ plan_Entries plan ⊆ allEntries visible
  ∧ (∃ root, rootEntry visible targetCatalog targetPackage targetChannel
               startingVersion = Some root
             ∧ root ∈ plan_Entries plan)
  ∧ (∀ c e1 e2, e1 ∈ plan_Entries plan → e2 ∈ plan_Entries plan →
                c ∈ owned e1 → c ∈ owned e2 → ve_Package e1 = ve_Package e2)
  ∧ plan_Approved plan = automatic.
Proof.
  intros (root & selected & Hroot & Hcl & Hconf & Hord & Happ)%ResolvePlan_inr.
  simpl. pose proof (rootEntry_Some _ _ _ _ _ _ Hroot) as [Hin _].
  apply closure_root in Hcl as (Hnd & Hsub & Hrs & _); [|done].
  apply topoOrder_Some in Hord as [Hperm Htopo].
  split_and!; [done| |by rewrite Hperm|by rewrite Hperm| | |done].
  - intros e He. apply (cycle_not_orderable _ _ He). by exists (plan_Entries plan).
  - exists root. by rewrite Hperm.
  - intros c e1 e2 He1 He2 Hc1 Hc2. apply dec_stable. intros Hne.
    apply (findConflict_None selected c Hconf), conflicting_iff.
    exists e1, e2. by rewrite <-Hperm.
Qed.

Lemma ResolvePlan_sound_witness :
  topological [ex_dependent; ex_main]
  ∧ (∀ e, ¬ tc (requires_from [ex_dependent; ex_main]) e e)
  ∧ NoDup [ex_dependent; ex_main]
  ∧ [ex_dependent; ex_main] ⊆ allEntries [ex_catalog_updated]
  ∧ (∃ root, rootEntry [ex_catalog_updated] "mock-ocs-main" "nginx-a1" "stable"
               None = Some root
             ∧ root ∈ [ex_dependent; ex_main])
  ∧ (∀ c e1 e2, e1 ∈ [ex_dependent; ex_main] → e2 ∈ [ex_dependent; ex_main] →
                c ∈ owned e1 → c ∈ owned e2 → ve_Package e1 = ve_Package e2)
  ∧ true = true.
Proof.
  exact (ResolvePlan_sound [ex_catalog_updated] "test" "olm" "mock-ocs-main"
           "nginx-a1" "stable" None true
           (mkInstallationPlan [ex_dependent; ex_main]
              [dependentCRD "ins-c3"] true) eq_refl).
Defined.

(** C26. Every failure of the resolver is justified, and the fuel of the
    walk never runs out.  [TargetNotFound]: there is no root.
    [UnsatisfiableDependency c]: an entry of the visible catalogs requires
    [c] and none owns it.  [OwnershipConflict c]: two entries of different
    packages, both published by visible catalogs, own [c].
    [DependencyCycle]: the entries the walk selected are closed under
    requirement and no order materialises them. *)
Theorem ResolvePlan_error cats namespace globalNamespace targetCatalog
  targetPackage targetChannel startingVersion automatic err :
  ResolvePlan cats namespace globalNamespace targetCatalog targetPackage
    targetChannel startingVersion automatic = inl err →
  let visible := visibleCatalogs namespace globalNamespace cats in
  let all := allEntries visible in
  match err with
  | TargetNotFound =>
      rootEntry visible targetCatalog targetPackage targetChannel
        startingVersion = None
  | UnsatisfiableDependency c =>
      (∃ e, e ∈ all ∧ c ∈ required e) ∧ ∀ p, p ∈ all → c ∉ owned p
  | OwnershipConflict c =>
      ∃ e1 e2, e1 ∈ all ∧ e2 ∈ all ∧ ve_Package e1 ≠ ve_Package e2
               ∧ c ∈ owned e1 ∧ c ∈ owned e2
  | DependencyCycle =>
      ∃ selected, selected ⊆ all ∧ closed selected ∧ ¬ orderable selected
  | InternalError => False
  end.
Proof.
  unfold ResolvePlan. cbv zeta.
  destruct (rootEntry _ _ _ _ _) as [root|] eqn:Hroot; [|by intros [= <-]].
  pose proof (rootEntry_Some _ _ _ _ _ _ Hroot) as [Hin _].
  destruct (closure _ _ _ _) as [e|selected] eqn:Hcl.
  { intros [= <-]. destruct (closure_inl _ _ _ _ _ Hcl) as [->|[c ->]].
    - refine (closure_fuel _ _ [root] [] _ _ _ _ Hcl);
        [apply NoDup_nil_2|set_solver|set_solver|simpl; lia].
    - eapply closure_unsatisfiable; [done|set_solver]. }
  apply closure_root in Hcl as (Hnd & Hsub & _ & Hclosed); [|done].
  destruct (findConflict selected) as [c|] eqn:Hc.
  { intros [= <-].
    apply findConflict_Some, conflicting_iff in Hc as (e1 & e2 & ? & ? & ?).
    exists e1, e2. set_solver. }
  destruct (topoOrder selected) as [entries|] eqn:Hord; [done|].
  intros [= <-]. exists selected. split_and!; [done..|].
  intros Hs%topoOrder_is_Some. rewrite Hord in Hs. by destruct Hs.
Qed.

Lemma ResolvePlan_error_witness :
  (∃ e, e ∈ allEntries [ex_catalog_initial]
        ∧ dependentCRD "ins-c3" ∈ required e)
  ∧ ∀ p, p ∈ allEntries [ex_catalog_initial] → dependentCRD "ins-c3" ∉ owned p.
Proof.
  exact (ResolvePlan_error [ex_catalog_initial] "test" "olm" "mock-ocs-main"
           "nginx-a1" "stable" None true
           (UnsatisfiableDependency (dependentCRD "ins-c3")) eq_refl).
Defined.

(** The resolver finds an order exactly when one exists: [topoOrder]
    succeeds on the sets of entries that can be materialised providers
    first and on no others, so [DependencyCycle] is never reported for a
    set that has an order; and a set with a cycle of requirements (each
    entry requiring a capability only the next one owns) has none, so a
    cycle is always reported and never broken. *)
Theorem topoOrder_orderable selected :
  (is_Some (topoOrder selected) ↔ orderable selected)
  ∧ ((∃ e, tc (requires_from selected) e e) → topoOrder selected = None).
Proof.
  assert (is_Some (topoOrder selected) → orderable selected) as Hsound.
  { intros [entries Hord]. exists entries. by apply topoOrder_Some. }
  split; [split; [done|apply topoOrder_is_Some]|].
  intros [e He%cycle_not_orderable]. apply eq_None_not_Some. auto.
Qed.

(** C27. The order of a plan does not depend on the order in which the
    entries were found: two sets with the same entries, no two of which
    have the same package and version, are ordered the same way. *)
Theorem topoOrder_deterministic selected selected' :
  selected ≡ₚ selected' → NoDup (entry_key <$> selected) →
  topoOrder selected = topoOrder selected'.
Proof.
  intros Hperm Hnd. unfold topoOrder.
  by rewrite (merge_sort_entries_Permutation selected selected'), Hperm.
Qed.

Lemma topoOrder_deterministic_witness :
  topoOrder [ex_main; ex_dependent] = topoOrder [ex_dependent; ex_main].
Proof.
  apply topoOrder_deterministic; [apply Permutation_swap|].
  apply NoDup_cons. split; [|apply NoDup_singleton].
  by intros [=]%list_elem_of_singleton.
Defined.
