(* ===== verification/Install.v ===== *)
(** * Install: a subscription reconciled against the catalogs

    The Subscription State Machine (specification, section 4.4) composed
    with the Dependency Resolver (section 4.5): one reconcile of a
    subscription reads the channel head from the visible catalogs, derives
    the state with [syncSubscription], and, when that asks for it, has
    [ResolvePlan] generate the plan, approved under automatic approval.
    The plan-execution collaborator ([executePlan]) acts on approved plans
    only.  The approval mode is read with the source's
    [GetInstallPlanApproval]; the states are the source's constants. *)

From stdpp Require Import base tactics option list strings.
From S2P Require Import Prelude CatalogSourceTypes Subscription Registry.
From S2P Require Import Resolver.

#[local] Open Scope string_scope.
#[local] Open Scope list_scope.

(** ** What a reconcile observes *)

(** The head of the subscription's channel in its catalog, among the
    visible catalogs. *)
Definition channelHead (visible : list Catalog) (spec : SubscriptionSpec)
  : option string :=
  cat ← lookup_key cat_Name (sspec_CatalogSource spec) visible;
  m ← lookup_key rpm_PackageName (sspec_Package spec)
        (cc_Packages (cat_Content cat));
  rpc_CurrentCSVName
    <$> lookup_key rpc_Name (sspec_Channel spec) (rpm_Channels m).

(** The versions a plan installs. *)
Definition planVersions (plan : InstallationPlan) : list string :=
  (csv_Name ∘ ve_CSV) <$> plan_Entries plan.

(** Whether a plan computed for the head exists and is unapproved. *)
Definition pendingFor (head : option string) (plans : list InstallationPlan)
  : bool :=
  match head with
  | None => false
  | Some v =>
      bool_decide
        (Exists (λ p, v ∈ planVersions p ∧ plan_Approved p = false) plans)
  end.

(** The pinned starting version of a spec, when it has one. *)
Definition startingVersion (spec : SubscriptionSpec) : option string :=
  if decide (sspec_StartingCSV spec = "") then None
  else Some (sspec_StartingCSV spec).

(** ** One reconcile *)

Record Reconciled : Type := mkReconciled {
  rec_Subscription : Subscription;
  rec_Plans : list InstallationPlan;
  rec_Error : option ResolutionError
}.

(** The state is written on every reconcile; a plan is added only when the
    resolver produced one, and a resolution error is reported beside the
    state and leaves the plans as they were. *)
Definition reconcileSubscription (now : Time) (cats : list Catalog)
  (namespace globalNamespace : string) (plans : list InstallationPlan)
  (s : Subscription) : outcome Reconciled :=
  spec ← deref (sub_Spec s);
  approval ← GetInstallPlanApproval s;
  let visible := visibleCatalogs namespace globalNamespace cats in
  let head := channelHead visible spec in
  r ← syncSubscription now head (pendingFor head plans) s;
  let s' := set_sub_Status (sync_Status r) s in
  if sync_InvokeResolver r then
    match ResolvePlan cats namespace globalNamespace (sspec_CatalogSource spec)
            (sspec_Package spec) (sspec_Channel spec) (startingVersion spec)
            (bool_decide (approval = ApprovalAutomatic)) with
    | inr plan => mret (mkReconciled s' (plans ++ [plan]) None)
    | inl e => mret (mkReconciled s' plans (Some e))
    end
  else mret (mkReconciled s' plans None).

(** ** Plan execution *)

(** The plan-execution collaborator: it does not act on a plan until the
    plan is approved; an approved plan installs the version it was computed
    for. *)
Definition executePlan (version : string) (plan : InstallationPlan)
  (s : Subscription) : Subscription :=
  if plan_Approved plan && bool_decide (version ∈ planVersions plan) then
    set_sub_Status
      (mkSubscriptionStatus version (sstatus_Install (sub_Status s))
         (sstatus_State (sub_Status s)) (sstatus_LastUpdated (sub_Status s)))
      s
  else s.

(** ** Example data: the subscription of the rollout scenarios *)

Definition ex_rollout_sub : Subscription :=
  mkSubscription (mkTypeMeta SubscriptionKind SubscriptionCRDAPIVersion)
    (mkObjectMeta "sub-f6" "test" "uid-s" "1")
    (Some (mkSubscriptionSpec "mock-ocs-main" "nginx-a1" stableChannel ""
             ApprovalAutomatic))
    (mkSubscriptionStatus "" None SubscriptionStateNone 0).

Definition ex_plan : InstallationPlan :=
  mkInstallationPlan [ex_dependent; ex_main] [dependentCRD "ins-c3"] true.

(** ** Lemmas *)

Lemma reconcileSubscription_Some now cats namespace globalNamespace plans s spec :
  sub_Spec s = Some spec →
  reconcileSubscription now cats namespace globalNamespace plans s
  = let visible := visibleCatalogs namespace globalNamespace cats in
    let head := channelHead visible spec in
    let state :=
      computeState (sstatus_CurrentCSV (sub_Status s)) head
        (pendingFor head plans) in
    let s' := set_sub_Status (set_sstatus_State now state (sub_Status s)) s in
    if bool_decide (state = SubscriptionStateUpgradeAvailable
                    ∧ sspec_InstallPlanApproval spec ≠ ApprovalManual)
    then
      match ResolvePlan cats namespace globalNamespace
              (sspec_CatalogSource spec) (sspec_Package spec)
              (sspec_Channel spec) (startingVersion spec)
              (bool_decide (sspec_InstallPlanApproval spec ≠ ApprovalManual))
      with
      | inr plan => Returns (mkReconciled s' (plans ++ [plan]) None)
      | inl e => Returns (mkReconciled s' plans (Some e))
      end
    else Returns (mkReconciled s' plans None).
Proof.
  intros Hs. unfold reconcileSubscription.
  rewrite Hs, (GetInstallPlanApproval_Some _ _ Hs). cbn [deref mbind outcome_bind].
  rewrite (syncSubscription_Some _ _ _ _ _ Hs). cbn.
  replace (bool_decide
             ((if decide (sspec_InstallPlanApproval spec = ApprovalManual)
               then ApprovalManual else ApprovalAutomatic) = ApprovalAutomatic))
    with (bool_decide (sspec_InstallPlanApproval spec ≠ ApprovalManual))
    by (apply bool_decide_ext; by case_decide).
  by repeat case_match.
Qed.

(** The head of the channel is the version the resolver starts from when
    no starting version is pinned. *)
Lemma channelHead_rootEntry visible spec root :
  rootEntry visible (sspec_CatalogSource spec) (sspec_Package spec)
    (sspec_Channel spec) None = Some root →
  channelHead visible spec = Some (csv_Name (ve_CSV root)).
Proof.
  unfold rootEntry, channelHead.
  destruct (lookup_key cat_Name _ visible) as [cat|]; [|done]. cbn.
  destruct (lookup_key rpm_PackageName _ _) as [m|]; [|done]. cbn.
  destruct (lookup_key rpc_Name _ _) as [ch|]; [|done]. cbn.
  intros Hkey%lookup_key_Some_key. cbn in Hkey. by rewrite Hkey.
Qed.

Lemma executePlan_spec version plan s :
  sub_Spec (executePlan version plan s) = sub_Spec s.
Proof. unfold executePlan. by case_match. Qed.

(** An approved plan for a version installs it; an unapproved plan leaves
    the subscription as it is. *)
Lemma executePlan_installed version plan s :
  sstatus_CurrentCSV (sub_Status (executePlan version plan s))
  = if plan_Approved plan && bool_decide (version ∈ planVersions plan)
    then version else sstatus_CurrentCSV (sub_Status s).
Proof. unfold executePlan. by case_match. Qed.

(** An automatic plan is approved and installs the head of the channel. *)
Lemma ResolvePlan_versions cats namespace globalNamespace spec automatic plan :
  ResolvePlan cats namespace globalNamespace (sspec_CatalogSource spec)
    (sspec_Package spec) (sspec_Channel spec) None automatic = inr plan →
  plan_Approved plan = automatic
  ∧ ∀ head,
      channelHead (visibleCatalogs namespace globalNamespace cats) spec
      = Some head →
      head ∈ planVersions plan.
Proof.
  intros Hplan.
  pose proof (ResolvePlan_inr _ _ _ _ _ _ _ _ _ Hplan)
    as (root & selected & Hroot & Hcl & _ & Hord & Happ).
  split; [done|]. intros head Hhead.
  rewrite (channelHead_rootEntry _ _ _ Hroot) in Hhead. injection Hhead as <-.
  apply list_elem_of_fmap. exists root. split; [done|].
  apply topoOrder_Some in Hord as [Hperm _]. rewrite Hperm.
  pose proof (rootEntry_Some _ _ _ _ _ _ Hroot) as [Hall _].
  by apply closure_root in Hcl as (_ & _ & ? & _).
Qed.

(** ** Theorems *)

Section install.
Context (cats : list Catalog) (namespace globalNamespace : string).

(** C24. The upgrade row of the transition table, end to end.  For a
    subscription under automatic approval with no pinned starting version,
    whose channel head (a version with a name) is not installed and has no
    unapproved plan: when
    the resolver produces a plan a reconcile shows upgrade-available, adds
    exactly that plan, approved, with the head among its versions; once the
    plan execution has installed the head, the next reconcile shows
    at-latest and generates nothing.  When the resolver fails the state is
    still written, the plans are left as they were and the error is
    reported. *)
Theorem reconcileSubscription_upgrade now now' plans s spec head :
  let visible := visibleCatalogs namespace globalNamespace cats in
  sub_Spec s = Some spec →
  sspec_InstallPlanApproval spec ≠ ApprovalManual →
  sspec_StartingCSV spec = "" →
  channelHead visible spec = Some head → head ≠ "" →
  sstatus_CurrentCSV (sub_Status s) ≠ head →
  pendingFor (Some head) plans = false →
  match ResolvePlan cats namespace globalNamespace (sspec_CatalogSource spec)
          (sspec_Package spec) (sspec_Channel spec) None true with
  | inr plan =>
      ∃ s1 s2,
        reconcileSubscription now cats namespace globalNamespace plans s
        = Returns (mkReconciled s1 (plans ++ [plan]) None)
        ∧ sstatus_State (sub_Status s1) = SubscriptionStateUpgradeAvailable
        ∧ plan_Approved plan = true ∧ head ∈ planVersions plan
        ∧ reconcileSubscription now' cats namespace globalNamespace
            (plans ++ [plan]) (executePlan head plan s1)
          = Returns (mkReconciled s2 (plans ++ [plan]) None)
        ∧ sstatus_CurrentCSV (sub_Status s2) = head
        ∧ sstatus_State (sub_Status s2) = SubscriptionStateAtLatest
  | inl e =>
      ∃ s1,
        reconcileSubscription now cats namespace globalNamespace plans s
        = Returns (mkReconciled s1 plans (Some e))
        ∧ sstatus_State (sub_Status s1) = SubscriptionStateUpgradeAvailable
        ∧ sstatus_Install (sub_Status s1) = sstatus_Install (sub_Status s)
  end.
Proof.
  intros visible Hs Hauto Hpin Hhead Hnamed Hne Hpend.
  assert (computeState (sstatus_CurrentCSV (sub_Status s)) (Some head) false
          = SubscriptionStateUpgradeAvailable) as Hstate.
  { rewrite computeState_cases. repeat case_decide; naive_solver. }
  pose proof (reconcileSubscription_Some now cats namespace globalNamespace
                plans s spec Hs) as Hrec.
  cbv zeta in Hrec. fold visible in Hrec. unfold startingVersion in Hrec.
  rewrite Hhead, Hpend, Hstate, Hpin, decide_True in Hrec by done.
  rewrite !bool_decide_eq_true_2 in Hrec by done.
  destruct (ResolvePlan _ _ _ _ _ _ _ _) as [e|plan] eqn:Hplan.
  { eexists. by split_and!. }
  pose proof (ResolvePlan_versions _ _ _ _ _ _ Hplan) as [Happ Hin].
  fold visible in Hin. rewrite Hhead in Hin. specialize (Hin _ eq_refl).
  eexists _, _. split_and!; [done|done|done|done| |..].
  - rewrite (reconcileSubscription_Some now' _ _ _ _ _ spec)
      by by rewrite executePlan_spec.
    cbv zeta. fold visible.
    rewrite Hhead, executePlan_installed, Happ, (bool_decide_eq_true_2 _ Hin).
    cbn [andb]. rewrite computeState_cases, decide_False, decide_True by done.
    rewrite bool_decide_eq_false_2; [done|]. by intros [? _].
  - cbn. by rewrite executePlan_installed, Happ, (bool_decide_eq_true_2 _ Hin).
  - done.
Qed.

End install.

Lemma reconcileSubscription_upgrade_witness :
  ∃ s1 s2,
    reconcileSubscription 5 [ex_catalog_updated] "test" "olm" [] ex_rollout_sub
    = Returns (mkReconciled s1 ([] ++ [ex_plan]) None)
    ∧ sstatus_State (sub_Status s1) = SubscriptionStateUpgradeAvailable
    ∧ plan_Approved ex_plan = true
    ∧ "nginx-a1-stable" ∈ planVersions ex_plan
    ∧ reconcileSubscription 9 [ex_catalog_updated] "test" "olm" ([] ++ [ex_plan])
        (executePlan "nginx-a1-stable" ex_plan s1)
      = Returns (mkReconciled s2 ([] ++ [ex_plan]) None)
    ∧ sstatus_CurrentCSV (sub_Status s2) = "nginx-a1-stable"
    ∧ sstatus_State (sub_Status s2) = SubscriptionStateAtLatest.
Proof.
  pose proof (reconcileSubscription_upgrade [ex_catalog_updated] "test" "olm"
                5 9 [] ex_rollout_sub _ "nginx-a1-stable" eq_refl) as H.
  apply H; by vm_compute.
Defined.

