(* ===== verification/Scenarios.v ===== *)
(** * Scenarios: the end-to-end tests as programs

    The five test functions of [test/e2e/catalog_e2e_test.go] and
    [test/e2e/packagemanifest_e2e_test.go] and the Ginkgo suite of the
    latter ([packageManifestSuite]), each test a program in the monad
    [Test]: a function of the cluster that returns the cluster it leaves and
    whether the test goes on, stopped at a failed [require] (recorded with
    the line of the assertion and its message) or panicked.  Deferred calls
    run whatever the outcome.  The cluster is reached through the clients of
    [E2E] and through the interface [Harness], which holds the helper
    functions and client calls whose code is not in the repository's
    sources.  The names [genName] draws are parameters of a scenario. *)

From Stdlib Require Import Ascii.
From stdpp Require Import base tactics option list strings.
From S2P Require Import Prelude CatalogSourceTypes Subscription Reconciler.
From S2P Require Import Wait E2E Registry Resolver.

#[local] Open Scope string_scope.
#[local] Open Scope list_scope.
#[local] Open Scope nat_scope.

(** ** The test monad *)

Inductive TestOutcome (A : Type) : Type :=
| Continue (a : A)
| FailNow (line : nat) (msg : string)
| Panic (p : GoPanic).

Arguments Continue {A} a.
Arguments FailNow {A} line msg.
Arguments Panic {A} p.

#[export] Instance TestOutcome_eq_dec `{EqDecision A} : EqDecision (TestOutcome A).
Proof. solve_decision. Defined.

Record Test (W A : Type) : Type := mkTest {
  runTest : W → W * TestOutcome A
}.

Arguments mkTest {W A} runTest.
Arguments runTest {W A} t w.

#[export] Instance Test_ret {W : Type} : MRet (Test W) := λ A a,
  mkTest (λ w, (w, Continue a)).

#[export] Instance Test_bind {W : Type} : MBind (Test W) := λ A B f m,
  mkTest (λ w,
    match runTest m w with
    | (w, Continue a) => runTest (f a) w
    | (w, FailNow line msg) => (w, FailNow line msg)
    | (w, Panic p) => (w, Panic p)
    end).

(** A [require] assertion at a line of the test file: the test goes on when
    it holds and stops there when it does not. *)
Definition require {W : Type} (line : nat) (msg : string) (ok : bool)
  : Test W unit :=
  mkTest (λ w, (w, if ok then Continue () else FailNow line msg)).

Abbreviation require_NoError line msg err :=
  (require line msg (bool_decide (err = None))).
Abbreviation require_NotNil line msg p :=
  (require line msg (bool_decide (p ≠ None))).
Abbreviation require_Equal line msg expected actual :=
  (require line msg (bool_decide (expected = actual))).
Abbreviation require_NotEqual line msg expected actual :=
  (require line msg (bool_decide (expected ≠ actual))).

(** A call that reads the cluster, and one that changes it. *)
Definition call {W A : Type} (f : W → A) : Test W A :=
  mkTest (λ w, (w, Continue (f w))).

Definition act {W A : Type} (f : W → W * A) : Test W A :=
  mkTest (λ w, let '(w, a) := f w in (w, Continue a)).

(** Reading a field through a pointer. *)
Definition deref_t {W A : Type} (p : option A) : Test W A :=
  mkTest (λ w,
    (w, match p with
        | Some a => Continue a
        | None => Panic NilPointerDereference
        end)).

(** A helper that returns or panics. *)
Definition run_outcome {W A : Type} (f : W → outcome (W * A)) : Test W A :=
  mkTest (λ w,
    match f w with
    | Returns (w, a) => (w, Continue a)
    | Panics p => (w, Panic p)
    end).

(** A helper of the suite that asserts on its own: its failure stops the
    test at the line of the call. *)
Definition helper {W A : Type} (line : nat) (f : W → W * (error + A))
  : Test W A :=
  mkTest (λ w,
    match f w with
    | (w, inr a) => (w, Continue a)
    | (w, inl _) => (w, FailNow line "")
    end).

(** [defer cleanup()] followed by the rest of the function. *)
Definition deferred {W A : Type} (cleanup : W → W) (body : Test W A)
  : Test W A :=
  mkTest (λ w, let '(w, r) := runTest body w in (cleanup w, r)).

(** [for _, x := range l { body }] *)
Fixpoint forEach {W A : Type} (l : list A) (body : A → Test W unit)
  : Test W unit :=
  match l with
  | [] => mret ()
  | x :: l => body x;; forEach l body
  end.

(** ** The objects the scenarios read *)

Record ContainerStatus : Type := mkContainerStatus {
  cst_Ready : bool;
  cst_RestartCount : Z
}.

Record Pod : Type := mkPod {
  pod_Name : string;
  pod_ContainerStatuses : list ContainerStatus
}.

(** A config map of a catalog: its identity and revision, and the three
    keys of its data. *)
Record ConfigMapObject : Type := mkConfigMapObject {
  cmo_Meta : ConfigMap;
  cmo_Data : CatalogContent
}.

(** [Items] is a slice, nil or not; [ListMeta] is a struct. *)
Record PackageManifestList : Type := mkPackageManifestList {
  pml_Items : option (list PackageManifest)
}.

Definition CSVPhase : Type := string.
Definition CSVPhaseSucceeded : CSVPhase := "Succeeded".

#[export] Instance ContainerStatus_eq_dec : EqDecision ContainerStatus.
Proof. solve_decision. Defined.
#[export] Instance Pod_eq_dec : EqDecision Pod.
Proof. solve_decision. Defined.
#[export] Instance ConfigMapObject_eq_dec : EqDecision ConfigMapObject.
Proof. solve_decision. Defined.
#[export] Instance PackageManifestList_eq_dec : EqDecision PackageManifestList.
Proof. solve_decision. Defined.

(** ** The harness *)

(** The helpers of the suite and the client calls the scenarios make beside
    those of [ClientInterface] and [PackageManifestClient].
    [createInternalCatalogSource] and [createSubscriptionForCatalog] assert
    on their own; [cleanupCatalogSource] is the function the former returns;
    a cluster service version is read for its phase only. *)
Class Harness (W : Type) : Type := {
  NotifyTestComplete : W → W;
  createInternalCatalogSource :
    W → string → string → CatalogContent → W * (error + CatalogSource);
  cleanupCatalogSource : W → CatalogSource → W;
  CatalogSources_Get :
    W → string → string → option CatalogSource * option error;
  ConfigMaps_Get :
    W → string → string → option ConfigMapObject * option error;
  ConfigMaps_Update :
    W → ConfigMapObject → W * (option ConfigMapObject * option error);
  Pods_List : W → string → string → option (list Pod) * option error;
  createSubscriptionForCatalog :
    W → string → string → string → string → string → Approval →
    W * (error + unit);
  Subscriptions_Get :
    W → string → string → option Subscription * option error;
  ClusterServiceVersions_Get :
    W → string → string → option CSVPhase * option error;
  InstallPlans_List :
    W → string → option (list InstallationPlan) * option error;
  PackageManifests_List :
    W → string → option PackageManifestList * option error
}.

(** The names [genName] draws in [TestCatalogLoadingBetweenRestarts] and in
    [TestPackageManifestLoading], with the namespace of the tests. *)
Record loadingNames : Type := mkLoadingNames {
  ln_testNamespace : string;
  ln_packageName : string;
  ln_crdPlural : string;
  ln_strategy : string;
  ln_catalogSourceName : string
}.

(** The checks the suite polls with. *)
Definition catalogSourceRegistryPodSynced (catalog : CatalogSource) : bool :=
  bool_decide (status_LastSync (cs_Status catalog) ≠ zeroTime)
  && bool_decide (status_RegistryServiceStatus (cs_Status catalog) ≠ None).

Definition subscriptionStateAtLatestChecker (subscription : Subscription)
  : bool :=
  bool_decide (sstatus_State (sub_Status subscription)
               = SubscriptionStateAtLatest).

Definition buildCSVConditionChecker (phases : list CSVPhase) (phase : CSVPhase)
  : bool :=
  bool_decide (phase ∈ phases).

(** What [TestCatalogLoadingBetweenRestarts] (lines 29-45 and 51) and
    [TestPackageManifestLoading] (lines 102-119 and 150) publish: one
    package with a stable channel, its cluster service version and the
    resource definition that version owns. *)
Definition loadingContent (n : loadingNames) : CatalogContent :=
  mkCatalogContent (manifests (ln_packageName n)) [newCRD (ln_crdPlural n)]
    [csv (ln_testNamespace n) (ln_packageName n) (ln_crdPlural n)
       (ln_strategy n)].

(** [labels.Set{"app": "catalog-operator"}] (line 59). *)
Definition operatorLabels : labelSet := [("app", "catalog-operator")].

(** A label value: at most 63 characters, empty or beginning and ending
    with a letter or a digit, with dashes, underscores and dots between. *)
Definition isAlphaNum (a : Ascii.ascii) : bool :=
  let n := Ascii.nat_of_ascii a in
  (48 <=? n) && (n <=? 57) || (65 <=? n) && (n <=? 90)
  || (97 <=? n) && (n <=? 122).

Definition isLabelChar (a : Ascii.ascii) : bool :=
  isAlphaNum a || bool_decide (a ∈ ["-"; "_"; "."]%char).

Definition validLabelValue (value : string) : bool :=
  let chars := String.list_ascii_of_string value in
  (length chars <=? 63) && forallb isLabelChar chars
  && from_option isAlphaNum true (head chars)
  && from_option isAlphaNum true (last chars).

(** [labels.NewRequirement(key, selection.Equals, values)] for a well-formed
    key: the error it returns. *)
Definition NewRequirement (key : string) (values : list string)
  : option error :=
  match values with
  | [value] =>
      if validLabelValue value then None
      else Some (ErrOther "invalid label value")
  | _ => Some (ErrOther "exact-match compatibility requires one single value")
  end.

(** The selector of lines 89-91: the pods of a catalog. *)
Definition catalogSourceSelector (name : string) : string :=
  "olm.catalogSource=" +:+ name.

(** The selector of lines 160 and 274: the registry pod started for a
    revision of the config map. *)
Definition configMapSelector (resourceVersion : string) : string :=
  "olm.configMapResourceVersion=" +:+ resourceVersion.

(** ** The Ginkgo suite of packagemanifest_e2e_test.go *)

(** A node of a Ginkgo suite: a container with the nodes its body
    declares, or a spec with the containers its body declares when it
    runs. *)
Inductive SpecNode : Type :=
| ContainerNode (text : string) (children : list SpecNode)
| ItNode (text : string) (declared : list SpecNode).

(** Lines 49-51. *)
Definition Describe : string → list SpecNode → SpecNode := ContainerNode.
Definition When : string → list SpecNode → SpecNode := ContainerNode.
Definition It : string → list SpecNode → SpecNode := ItNode.

(** Lines 59-95: no body makes an assertion. *)
Definition packageManifestSuite : SpecNode :=
  Describe "PackageManifest"
    [It "should be available as a cluster API" [];
     Describe "global CatalogSources" [];
     Describe "local CatalogSources" [];
     It "should return items from global CatalogSources"
       [When "fetching from global catalog namespace" [];
        When "fetching from a different namespace" [];
        When "fetching from all-namespaces" []];
     It "should return items from local CatalogSource"
       [When "fetching from all-namespaces" [];
        When "fetching from local CatalogSource namespace" []]].

(** The specs of a suite, in the order they are declared. *)
Fixpoint specsOf (node : SpecNode) : list string :=
  match node with
  | ContainerNode _ children => children ≫= specsOf
  | ItNode text _ => [text]
  end.

(** [ginkgo.RunSpecs]: every spec of the suite is run; a spec whose body
    asserts nothing passes. *)
Definition RunSpecs {W : Type} (description : string) (suite : list SpecNode)
  : Test W unit :=
  forEach (suite ≫= specsOf) (λ _, mret ()).

(** [TestPackageManifest] (lines 54-57). *)
Definition TestPackageManifest {W : Type} : Test W unit :=
  RunSpecs "PackageManifest Suite" [packageManifestSuite].

(** The package server is waited for during one minute. *)
Definition packageServerAttempts : nat := Z.to_nat (60 / pollInterval).

Section scenarios.
Context {W : Type}.
Context `{!ClientInterface W} `{!PackageManifestClient W} `{!Harness W}.
Context (tick : W → W) (operatorNamespace : string).

(** ** The polling helpers of the suite *)

(** One poll interval passes in the cluster; the captured variable stays. *)
Definition tickFetched {A : Type} : W * option A → W * option A :=
  λ '(w, fetched), (tick w, fetched).

(** The closure of [fetchCatalogSource], [fetchSubscription] and [fetchCSV]:
    an error of the client ends the poll, a missing object and a failed
    check continue it. *)
Definition fetchObjectCondition {A : Type}
  (get : W → option A * option error) (check : A → bool)
  : @ConditionFunc (W * option A) :=
  λ '(w, _),
    let '(fetched, err) := get w in
    match err, fetched with
    | None, Some obj => ((w, fetched), (check obj, None))
    | _, _ => ((w, fetched), (false, err))
    end.

Definition fetchObject {A : Type} (get : W → option A * option error)
  (check : A → bool) (attempts : nat) (w : W)
  : W * (option A * option error) :=
  let '((w, fetched), err) :=
    Poll tickFetched attempts (fetchObjectCondition get check) (w, None) in
  (w, (fetched, err)).

Definition fetchCatalogSource (name namespace : string)
  (check : CatalogSource → bool) : Test W (option CatalogSource * option error) :=
  act (fetchObject (λ w, CatalogSources_Get w namespace name) check
         pollAttempts).

Definition fetchSubscription (namespace name : string)
  (checker : Subscription → bool)
  : Test W (option Subscription * option error) :=
  act (fetchObject (λ w, Subscriptions_Get w namespace name) checker
         pollAttempts).

Definition fetchCSV (name namespace : string) (checker : CSVPhase → bool)
  : Test W (option CSVPhase * option error) :=
  act (fetchObject (λ w, ClusterServiceVersions_Get w namespace name) checker
         pollAttempts).

(** ** catalog_e2e_test.go *)

(** TestCatalogLoadingBetweenRestarts (lines 25-80).  The closure of lines
    71-77 reads [catalogSource.Status] through the pointer on each
    evaluation; the pointer is read once before the poll here. *)
Definition TestCatalogLoadingBetweenRestarts (n : loadingNames)
  : Test W unit :=
  deferred NotifyTestComplete (
    let catalogSourceName := ln_catalogSourceName n in
    created ← helper 51 (λ w,
      createInternalCatalogSource w catalogSourceName operatorNamespace
        (loadingContent n));
    deferred (λ w, cleanupCatalogSource w created) (
      '(catalogSource, err) ←
        fetchCatalogSource catalogSourceName operatorNamespace
          catalogSourceRegistryPodSynced;
      require_NoError 56 "" err;;
      '(deployment, err) ← call (λ w,
        getOperatorDeployment w operatorNamespace operatorLabels);
      require_NoError 60 "" err;;
      require_NotNil 61 "Could not find catalog operator deployment"
        deployment;;
      '(_, err) ← run_outcome (λ w,
        '(w, d, err) ← rescaleDeployment tick pollAttempts deployment w;
        mret (w, (d, err)));
      require_NoError 66 "Could not rescale catalog operator" err;;
      initial ← deref_t catalogSource;
      '(_, err) ←
        fetchCatalogSource catalogSourceName operatorNamespace
          (lastSyncAfter initial);
      require_NoError 78 "Catalog source changed after rescale" err)).

(** The loop of lines 94-99. *)
Definition podsReady (pods : list Pod) : Test W unit :=
  forEach pods (λ p,
    forEach (pod_ContainerStatuses p) (λ s,
      require 96 "" (cst_Ready s);;
      require 97 "" (bool_decide (cst_RestartCount s = 0%Z)))).

(** TestDefaultCatalogLoading (lines 82-100). *)
Definition TestDefaultCatalogLoading : Test W unit :=
  deferred NotifyTestComplete (
    '(catalogSource, err) ←
      fetchCatalogSource "olm-operators" operatorNamespace
        catalogSourceRegistryPodSynced;
    require_NoError 88 "" err;;
    catalogSource ← deref_t catalogSource;
    require_NoError 90 ""
      (NewRequirement "olm.catalogSource"
         [om_Name (cs_ObjectMeta catalogSource)]);;
    let selector :=
      catalogSourceSelector (om_Name (cs_ObjectMeta catalogSource)) in
    '(pods, err) ← call (λ w, Pods_List w operatorNamespace selector);
    require_NoError 93 "" err;;
    pods ← deref_t pods;
    podsReady pods).

(** Lines 155-162 and 269-276: the config map of the catalog and the one
    registry pod labelled with its revision.  [line] is the line of the
    first assertion. *)
Definition checkInitialPod (line : nat) (testNamespace : string)
  (fetchedInitialCatalog : option CatalogSource) : Test W ConfigMapObject :=
  initial ← deref_t fetchedInitialCatalog;
  '(configMap, err) ← call (λ w,
    ConfigMaps_Get w testNamespace (spec_ConfigMap (cs_Spec initial)));
  require_NoError line "" err;;
  configMap ← deref_t configMap;
  '(initialPods, err) ← call (λ w,
    Pods_List w testNamespace
      (configMapSelector (cmap_ResourceVersion (cmo_Meta configMap))));
  require_NoError (line + 4) "" err;;
  initialPods ← deref_t initialPods;
  require_Equal (line + 5) "" 1 (length initialPods);;
  mret configMap.


(** Lines 202-210 and 284-292: subscribe to the main package and wait for
    its cluster service version to succeed.  [line] is the line of the call
    of [createSubscriptionForCatalog]. *)
Definition subscribeToMain (line : nat) (n : rolloutNames)
  (subscriptionName catalogName : string) : Test W unit :=
  let testNamespace := rn_testNamespace n in
  helper line (λ w,
    createSubscriptionForCatalog w testNamespace subscriptionName catalogName
      (rn_mainPackageName n) stableChannel ApprovalAutomatic);;
  '(subscription, err) ←
    fetchSubscription testNamespace subscriptionName
      subscriptionStateAtLatestChecker;
  require_NoError (line + 3) "" err;;
  require_NotNil (line + 4) "" subscription;;
  subscription ← deref_t subscription;
  '(_, err) ←
    fetchCSV (sstatus_CurrentCSV (sub_Status subscription)) testNamespace
      (buildCSVConditionChecker [CSVPhaseSucceeded]);
  require_NoError (line + 6) "" err.


(** TestConfigMapReplaceTriggersRegistryPodRollout (lines 217-294). *)
Definition TestConfigMapReplaceTriggersRegistryPodRollout (n : rolloutNames)
  (mainCatalogName subscriptionName : string) : Test W unit :=
  deferred NotifyTestComplete (
    let testNamespace := rn_testNamespace n in
    created ← helper 264 (λ w,
      createInternalCatalogSource w mainCatalogName testNamespace
        (initialContent n));
    '(fetchedInitialCatalog, err) ←
      fetchCatalogSource mainCatalogName testNamespace
        catalogSourceRegistryPodSynced;
    require_NoError 268 "" err;;
    checkInitialPod 271 testNamespace fetchedInitialCatalog;;
    act (λ w, (cleanupCatalogSource w created, ()));;
    helper 282 (λ w,
      createInternalCatalogSource w mainCatalogName testNamespace
        (updatedContent n));;
    subscribeToMain 286 n subscriptionName mainCatalogName).

(** ** packagemanifest_e2e_test.go *)

(** The closure of lines 140-147: the package server is ready once a list
    call answers without error. *)
Definition waitForPackageServer (testNamespace : string) : @ConditionFunc W :=
  λ w,
    let '(_, err) := PackageManifests_List w testNamespace in
    match err with
    | None => (w, (true, None))
    | Some _ => (w, (false, None))
    end.

(** TestPackageManifestLoading (lines 98-167).  Line 151 asserts on the
    error of the poll of line 140 once more; [pmList.ListMeta] of line 166
    is a struct. *)
Definition TestPackageManifestLoading (n : loadingNames) : Test W unit :=
  deferred NotifyTestComplete (
    let testNamespace := ln_testNamespace n in
    let packageName := ln_packageName n in
    let catalogSourceName := ln_catalogSourceName n in
    let csv :=
      csv testNamespace packageName (ln_crdPlural n) (ln_strategy n) in
    let expectedStatus :=
      expectedStatus catalogSourceName testNamespace packageName csv in
    err ← act (Poll tick packageServerAttempts
                 (waitForPackageServer testNamespace));
    require_NoError 148 "package-server not available" err;;
    created ← helper 150 (λ w,
      createInternalCatalogSource w catalogSourceName testNamespace
        (loadingContent n));
    require_NoError 151 "" err;;
    deferred (λ w, cleanupCatalogSource w created) (
      '(_, err) ←
        fetchCatalogSource catalogSourceName testNamespace
          catalogSourceRegistryPodSynced;
      require_NoError 155 "" err;;
      '(pm, err) ← act (fetchPackageManifest tick pollAttempts testNamespace
                          packageName packageManifestHasStatus);
      require_NoError 158 "error getting package manifest" err;;
      require_NotNil 159 "" pm;;
      pm ← deref_t pm;
      require_Equal 160 "" packageName (pm_Name pm);;
      require_Equal 161 "" expectedStatus (pm_Status pm);;
      '(pmList, err) ← call (λ w, PackageManifests_List w testNamespace);
      require_NoError 165 "could not access package manifests list meta" err;;
      pmList ← deref_t pmList;
      require 166 "package manifest list metadata empty" true;;
      require_NotNil 167 "" (pml_Items pmList))).

End scenarios.

(** ** Specification devices *)

(** A container status the default catalog may show. *)
Definition statusOk (s : ContainerStatus) : Prop :=
  cst_Ready s = true ∧ cst_RestartCount s = 0%Z.

#[export] Instance statusOk_dec s : Decision (statusOk s).
Proof. unfold statusOk. apply _. Defined.

(** The verdict the closure of [fetchObject] reaches on an answer. *)
Definition objectVerdict {A : Type} (check : A → bool)
  (answer : option A * option error) : verdict :=
  match answer with
  | (Some obj, None) => (check obj, None)
  | (_, err) => (false, err)
  end.

(** The lines of [TestPackageManifestLoading] whose assertion can fail. *)
Definition loadingFailures : list nat := [148; 150; 155; 158; 160; 161; 165; 167].

(** The lines of [TestCatalogLoadingBetweenRestarts] whose assertion can
    fail. *)
Definition restartFailures : list nat := [51; 56; 60; 66; 78].

(** The lines of [TestConfigMapReplaceTriggersRegistryPodRollout] whose
    assertion can fail. *)
Definition replaceFailures : list nat :=
  [264; 268; 271; 275; 276; 282; 286; 289; 292].

(** A client answered with a nil object and a nil error: the config map
    client at a read, or the pod client at a listing. *)
Definition nilAnswer {W : Type} `{!Harness W} : Prop :=
  (∃ (w : W) namespace name, ConfigMaps_Get w namespace name = (None, None))
  ∨ (∃ (w : W) namespace selector,
       Pods_List w namespace selector = (None, None)).



(** ** Lemmas on the test monad *)

Section monad.
Context {W : Type}.
Implicit Types w : W.

Lemma runTest_bind {A B} (m : Test W A) (f : A → Test W B) w :
  runTest (m ≫= f) w
  = match runTest m w with
    | (w, Continue a) => runTest (f a) w
    | (w, FailNow line msg) => (w, FailNow line msg)
    | (w, Panic p) => (w, Panic p)
    end.
Proof. reflexivity. Qed.

(** A test that stopped at an assertion stopped in its first part or, that
    part done, in the rest. *)
Lemma bind_FailNow {A B} (m : Test W A) (f : A → Test W B) w w' line msg :
  runTest (m ≫= f) w = (w', FailNow line msg) →
  runTest m w = (w', FailNow line msg)
  ∨ ∃ w1 a, runTest m w = (w1, Continue a)
            ∧ runTest (f a) w1 = (w', FailNow line msg).
Proof.
  rewrite runTest_bind. destruct (runTest m w) as [w1 [a|l s|p]];
    [|intros [= -> -> ->]; by left|done].
  right. by exists w1, a.
Qed.

Lemma bind_Continue {A B} (m : Test W A) (f : A → Test W B) w w' b :
  runTest (m ≫= f) w = (w', Continue b)
  ↔ ∃ w1 a, runTest m w = (w1, Continue a) ∧ runTest (f a) w1 = (w', Continue b).
Proof.
  rewrite runTest_bind. destruct (runTest m w) as [w1 [a|l s|p]];
    [|split; [done|by intros (? & ? & ? & _)]..].
  split; [by exists w1, a|]. by intros (? & ? & [= <- <-] & ?).
Qed.

Lemma require_Continue line msg ok w w' u :
  runTest (require line msg ok) w = (w', Continue u) ↔ w' = w ∧ ok = true.
Proof. destruct u, ok; cbn; naive_solver. Qed.

Lemma require_FailNow line msg ok w w' line' msg' :
  runTest (require line msg ok) w = (w', FailNow line' msg') →
  line' = line ∧ ok = false.
Proof. destruct ok; cbn; naive_solver. Qed.

Lemma helper_FailNow {A} line (f : W → W * (error + A)) w w' line' msg' :
  runTest (helper line f) w = (w', FailNow line' msg') → line' = line.
Proof. cbn. destruct (f w) as [? [?|?]]; naive_solver. Qed.

Lemma helper_Continue {A} line (f : W → W * (error + A)) w w' a :
  runTest (helper line f) w = (w', Continue a) ↔ f w = (w', inr a).
Proof. cbn. destruct (f w) as [? [?|?]]; naive_solver. Qed.

Lemma act_Continue {A} (f : W → W * A) w w' a :
  runTest (act f) w = (w', Continue a) ↔ f w = (w', a).
Proof. cbn. destruct (f w). naive_solver. Qed.

Lemma act_FailNow {A} (f : W → W * A) w w' line msg :
  runTest (act f) w ≠ (w', FailNow line msg).
Proof. cbn. by destruct (f w). Qed.

Lemma call_Continue {A} (f : W → A) w w' a :
  runTest (call f) w = (w', Continue a) ↔ w' = w ∧ a = f w.
Proof. cbn. naive_solver. Qed.

Lemma call_FailNow {A} (f : W → A) w w' line msg :
  runTest (call f) w ≠ (w', FailNow line msg).
Proof. done. Qed.

Lemma deref_t_Continue {A} (p : option A) w w' a :
  runTest (deref_t p) w = (w', Continue a) ↔ w' = w ∧ p = Some a.
Proof. destruct p; cbn; naive_solver. Qed.

Lemma deref_t_FailNow {A} (p : option A) w w' line msg :
  runTest (deref_t p) w ≠ (w', FailNow line msg).
Proof. by destruct p. Qed.

Lemma run_outcome_Continue {A} (f : W → outcome (W * A)) w w' a :
  runTest (run_outcome f) w = (w', Continue a) ↔ f w = Returns (w', a).
Proof. cbn. destruct (f w) as [[? ?]|?]; naive_solver. Qed.

Lemma run_outcome_FailNow {A} (f : W → outcome (W * A)) w w' line msg :
  runTest (run_outcome f) w ≠ (w', FailNow line msg).
Proof. cbn. by destruct (f w) as [[? ?]|?]. Qed.

(** A test that panicked did so in its first part or, that part done, in
    the rest; an assertion, a client call and a helper of the suite do not
    panic; a read through a pointer panics on nil. *)
Lemma bind_Panic {A B} (m : Test W A) (f : A → Test W B) w w' p :
  runTest (m ≫= f) w = (w', Panic p) →
  runTest m w = (w', Panic p)
  ∨ ∃ w1 a, runTest m w = (w1, Continue a) ∧ runTest (f a) w1 = (w', Panic p).
Proof.
  rewrite runTest_bind. destruct (runTest m w) as [w1 [a|l s|q]];
    [|done|intros [= -> ->]; by left].
  right. by exists w1, a.
Qed.

Lemma require_Panic line msg ok w w' p :
  runTest (require line msg ok) w ≠ (w', Panic p).
Proof. by destruct ok. Qed.

Lemma helper_Panic {A} line (f : W → W * (error + A)) w w' p :
  runTest (helper line f) w ≠ (w', Panic p).
Proof. cbn. by destruct (f w) as [? [?|?]]. Qed.

Lemma act_Panic {A} (f : W → W * A) w w' p :
  runTest (act f) w ≠ (w', Panic p).
Proof. cbn. by destruct (f w). Qed.

Lemma call_Panic {A} (f : W → A) w w' p : runTest (call f) w ≠ (w', Panic p).
Proof. done. Qed.

Lemma deref_t_Panic {A} (q : option A) w w' p :
  runTest (deref_t q) w = (w', Panic p) → q = None.
Proof. by destruct q. Qed.

Lemma run_outcome_Panic {A} (f : W → outcome (W * A)) w w' p :
  runTest (run_outcome f) w = (w', Panic p) → f w = Panics p.
Proof. cbn. destruct (f w) as [[? ?]|?]; naive_solver. Qed.

Lemma deferred_outcome {A} cleanup (body : Test W A) w w' r :
  runTest (deferred cleanup body) w = (w', r)
  ↔ ∃ w1, runTest body w = (w1, r) ∧ w' = cleanup w1.
Proof. cbn. destruct (runTest body w) as [w1 r1]. naive_solver. Qed.

Lemma mret_Continue {A} (a b : A) w w' :
  runTest (mret a) w = (w', Continue b) ↔ w' = w ∧ b = a.
Proof. cbn. naive_solver. Qed.

End monad.

(** One step of the case analysis of a test that stopped at an assertion
    or panicked. *)
Ltac test_inv H :=
  first
    [ apply deferred_outcome in H; destruct H as (? & H & ?)
    | apply bind_FailNow in H; destruct H as [H|(? & ? & ? & H)]
    | apply require_FailNow in H; destruct H as [-> ?]
    | apply helper_FailNow in H; subst
    | by apply act_FailNow in H
    | by apply call_FailNow in H
    | by apply deref_t_FailNow in H
    | by apply run_outcome_FailNow in H
    | apply bind_Panic in H; destruct H as [H|(? & ? & ? & H)]
    | by apply require_Panic in H
    | by apply helper_Panic in H
    | by apply act_Panic in H
    | by apply call_Panic in H
    | apply deref_t_Panic in H
    | apply run_outcome_Panic in H ].

(** The whole analysis: [H] says that the test stopped at an assertion or
    panicked; each goal left has the line of that assertion in place of
    the line of [H], or the pointer that was nil or the helper that
    panicked, and the parts of the test that went on before as
    hypotheses. *)
Ltac test_stopped H :=
  repeat (cbv beta zeta in H;
          first
            [ test_inv H
            | match type of H with
              | runTest (let '(_, _) := ?a in _) _ = _ => destruct a
              end ]).

(** One step of the analysis of a prefix that went on. *)
Ltac test_ok H :=
  lazymatch type of H with
  | runTest (require _ _ _) _ = (_, Continue _) =>
      apply require_Continue in H; destruct H as [-> H];
      first [apply bool_decide_eq_true_1 in H|idtac]
  | runTest (act _) _ = (_, Continue _) =>
      apply (proj1 (act_Continue _ _ _ _)) in H
  | runTest (call _) _ = (_, Continue _) =>
      apply (proj1 (call_Continue _ _ _ _)) in H; destruct H as [-> H]
  | runTest (deref_t _) _ = (_, Continue _) =>
      apply (proj1 (deref_t_Continue _ _ _ _)) in H; destruct H as [-> H]
  | runTest (helper _ _) _ = (_, Continue _) =>
      apply (proj1 (helper_Continue _ _ _ _ _)) in H
  | runTest (run_outcome _) _ = (_, Continue _) =>
      apply (proj1 (run_outcome_Continue _ _ _ _)) in H
  end.

(** The same for every part in the context. *)
Ltac tests_ok :=
  repeat match goal with
         | H : runTest _ _ = (_, Continue _) |- _ => progress test_ok H
         end.

(** ** Lemmas on the helpers *)

Section helper_lemmas.
Context {W : Type} (tick : W → W).

Lemma objectVerdict_true_nil {A} (check : A → bool) answer :
  objectVerdict check answer = (true, None) →
  ∃ obj, answer = (Some obj, None) ∧ check obj = true.
Proof. destruct answer as [[obj|] [e|]]; cbn; naive_solver. Qed.

Lemma fetchObjectCondition_eq {A} (get : W → option A * option error) (check : A → bool) w fetched :
  fetchObjectCondition get check (w, fetched)
  = ((w, (get w).1), objectVerdict check (get w)).
Proof.
  unfold fetchObjectCondition, objectVerdict.
  by destruct (get w) as [[?|] [?|]].
Qed.

Lemma fetchObject_pollState {A} (get : W → option A * option error) (check : A → bool) k w fetched :
  pollState (tickFetched tick) (fetchObjectCondition get check) (S k)
    (w, fetched)
  = (Nat.iter (S k) tick w, (get (Nat.iter (S k) tick w)).1).
Proof.
  induction k as [|k IH]; rewrite pollState_S; [cbn [pollState]|rewrite IH];
    cbn [tickFetched]; by rewrite fetchObjectCondition_eq.
Qed.

Lemma fetchObject_pollVerdict {A} (get : W → option A * option error) (check : A → bool) k w fetched :
  pollVerdict (tickFetched tick) (fetchObjectCondition get check) k
    (w, fetched)
  = objectVerdict check (get (Nat.iter (S k) tick w)).
Proof.
  unfold pollVerdict.
  destruct k as [|k]; [cbn [pollState]|rewrite fetchObject_pollState];
    cbn [tickFetched]; by rewrite fetchObjectCondition_eq.
Qed.

(** A fetch that returns no error returns an object the cluster showed at
    one of the polls, and the object passed the check. *)
Lemma fetchObject_nil {A} (get : W → option A * option error) (check : A → bool) attempts w w' fetched :
  fetchObject tick get check attempts w = (w', (fetched, None)) →
  ∃ k obj, k < attempts ∧ w' = Nat.iter (S k) tick w
           ∧ get w' = (Some obj, None) ∧ fetched = Some obj
           ∧ check obj = true.
Proof.
  unfold fetchObject.
  destruct (Poll _ _ _ _) as [[w0 f] e] eqn:HP. intros [= <- <- ->].
  apply Poll_nil_inv in HP as (k & Hk & Hs & Hv).
  rewrite fetchObject_pollState in Hs. rewrite fetchObject_pollVerdict in Hv.
  apply objectVerdict_true_nil in Hv as (obj & Hget & Hcheck).
  injection Hs as -> ->. exists k, obj. change (tick (Nat.iter k tick w))
    with (Nat.iter (S k) tick w). by rewrite Hget.
Qed.

End helper_lemmas.

Section loop_lemmas.
Context {W : Type}.

(** The inner loop of [podsReady] stops at the first status that is not
    ready or has restarted. *)
Lemma containersReady_outcome (statuses : list ContainerStatus) (w : W) :
  runTest
    (forEach statuses (λ s,
       require 96 "" (cst_Ready s);;
       require 97 "" (bool_decide (cst_RestartCount s = 0%Z)))) w
  = (w, match head (filter (λ s, ¬ statusOk s) statuses) with
        | None => Continue ()
        | Some s => FailNow (if cst_Ready s then 97 else 96) ""
        end).
Proof.
  induction statuses as [|[ready restarts] l IH]; [done|].
  cbn [forEach]. rewrite filter_cons, !runTest_bind. unfold statusOk at 1.
  cbn [require runTest cst_Ready cst_RestartCount].
  destruct ready; [case_bool_decide; [rewrite IH|]|];
    case_decide; cbn; naive_solver.
Qed.

End loop_lemmas.

(** The name of the default catalog is a label value, and so is a name
    drawn by [genName]; a name with a slash is not, and a requirement
    without a value is refused. *)
Lemma NewRequirement_default :
  NewRequirement "olm.catalogSource" ["olm-operators"] = None
  ∧ NewRequirement "olm.catalogSource" ["mock-ocs-x7k2p"] = None
  ∧ NewRequirement "olm.catalogSource" ["olm/operators"] ≠ None
  ∧ NewRequirement "olm.catalogSource" [] ≠ None.
Proof. by vm_compute. Qed.

(** ** Theorems *)

Section scenario_theorems.
Context {W : Type}.
Context `{!ClientInterface W} `{!PackageManifestClient W} `{!Harness W}.
Context (tick : W → W) (operatorNamespace : string).

(** The Ginkgo suite declares three specs and passes on every cluster,
    which it leaves as it is: none of its bodies reads the cluster or
    asserts anything. *)
Lemma TestPackageManifest_vacuous (w : W) :
  specsOf packageManifestSuite
  = ["should be available as a cluster API";
     "should return items from global CatalogSources";
     "should return items from local CatalogSource"]
  ∧ runTest TestPackageManifest w = (w, Continue ()).
Proof. done. Qed.

(** C39. The loop of [TestDefaultCatalogLoading] over the pods of the
    default catalog leaves the cluster as it is and stops at the first
    container status, in the order of the pods and of their containers,
    that is not ready (line 96) or has restarted (line 97); it passes
    when there is none. *)
Theorem podsReady_outcome (pods : list Pod) (w : W) :
  runTest (podsReady pods) w
  = (w, match head (filter (λ s, ¬ statusOk s)
                      (pods ≫= pod_ContainerStatuses)) with
        | None => Continue ()
        | Some s => FailNow (if cst_Ready s then 97 else 96) ""
        end).
Proof.
  unfold podsReady. induction pods as [|p pods IH]; [done|].
  cbn [forEach]. rewrite runTest_bind, containersReady_outcome.
  rewrite bind_cons, filter_app, head_app_cases.
  destruct (head (filter _ (pod_ContainerStatuses p))); [done|apply IH].
Qed.

(** C36. [TestCatalogLoadingBetweenRestarts] can only fail at the
    assertions of lines 51, 56, 60, 66 and 78, and panics only when the
    client answers a read of [waitForScaleup] with a nil deployment and a
    nil error (line 318).  The catalog read at line 71 was fetched by
    [fetchCatalogSource] without error, so it is there; the deployment
    handed to [rescaleDeployment] was returned by [getOperatorDeployment]
    with a nil error, so it is the one item of the listing: the assertion
    of line 61 cannot fail, and the dereference of line 307 does not
    panic. *)
Theorem TestCatalogLoadingBetweenRestarts_safe (n : loadingNames) (w : W) :
  match (runTest (TestCatalogLoadingBetweenRestarts tick operatorNamespace n) w).2
  with
  | Continue _ => True
  | FailNow line _ => line ∈ restartFailures
  | Panic _ =>
      ∃ (w' : W) namespace name, GetDeployment w' namespace name = (None, None)
  end.
Proof.
  destruct (runTest _ w) as [w' [?|line msg|p]] eqn:H; cbn [snd]; [done|..];
    unfold TestCatalogLoadingBetweenRestarts, fetchCatalogSource in H;
    test_stopped H; try (repeat constructor; fail); tests_ok; subst.
  all: repeat match goal with
         | H : (_, None) = getOperatorDeployment _ _ _ |- _ =>
             symmetry in H; apply getOperatorDeployment_nil_Some in H as [? ->]
         | H : fetchObject _ _ _ _ _ = (_, (_, None)) |- _ =>
             apply fetchObject_nil in H as (? & ? & _ & _ & _ & ? & _)
         end; simplify_eq; try done.
  match goal with
  | H : rescaleDeployment _ _ (Some ?d) ?w ≫= _ = Panics _ |- _ =>
      destruct (rescaleDeployment _ _ _ _) as [[[? ?] ?]|] eqn:Hr; [done|];
      by apply rescaleDeployment_Some_Panics in Hr
  end.
Qed.

(** C37. [TestConfigMapReplaceTriggersRegistryPodRollout] can only fail at
    the assertions of lines 264, 268, 271, 275, 276, 282, 286, 289 and 292,
    and panics only when the config map client or the pod client answers
    with a nil object and a nil error (lines 274 and 276).  The catalog
    and the subscription the test reads were fetched without error, so
    they are there: the assertion of line 290 cannot fail. *)
Theorem TestConfigMapReplaceTriggersRegistryPodRollout_safe (n : rolloutNames)
  mainCatalogName subscriptionName (w : W) :
  match (runTest (TestConfigMapReplaceTriggersRegistryPodRollout tick n
                    mainCatalogName subscriptionName) w).2 with
  | Continue _ => True
  | FailNow line _ => line ∈ replaceFailures
  | Panic _ => nilAnswer
  end.
Proof.
  destruct (runTest _ w) as [w' [?|line msg|p]] eqn:H; cbn [snd]; [done|..];
    unfold TestConfigMapReplaceTriggersRegistryPodRollout, checkInitialPod,
      subscribeToMain, fetchCatalogSource, fetchSubscription, fetchCSV in H;
    test_stopped H; try (cbn; repeat constructor; fail); tests_ok; subst.
  all: repeat match goal with
         | H : fetchObject _ _ _ _ _ = (_, (_, None)) |- _ =>
             apply fetchObject_nil in H as (? & ? & _ & _ & _ & ? & _)
         end; simplify_eq.
  - left. by eexists _, _, _.
  - right. by eexists _, _, _.
Qed.


(** C35. [TestPackageManifestLoading] can only fail at the assertions of
    lines 148, 150, 155, 158, 160, 161, 165 and 167.  The assertion of
    line 151 repeats that of line 148 on the same error; a manifest
    fetched without error passed [packageManifestHasStatus], which rejects
    nil, so line 159 holds; and the list metadata of line 166 is a struct.
    None of the three can fail. *)
Theorem TestPackageManifestLoading_failures (n : loadingNames) (w : W) :
  match (runTest (TestPackageManifestLoading tick n) w).2 with
  | FailNow line _ => line ∈ loadingFailures
  | _ => True
  end.
Proof.
  destruct (runTest _ w) as [w' [?|line msg|?]] eqn:H; [done| |done].
  cbn [snd]. unfold TestPackageManifestLoading in H. test_stopped H;
    try (repeat constructor; fail); exfalso; tests_ok.
  - apply bool_decide_eq_false_1 in H. by subst.
  - apply bool_decide_eq_false_1 in H. apply H. subst.
    match goal with
    | H : _ = (_, (_, None)) |- _ =>
        apply fetchPackageManifest_nil_check in H
    end. by intros ->.
  - done.
Qed.

End scenario_theorems.
